(** * lmfdb/db_backend.py: a shallow embedding of the Postgres table interface

    The development follows [src/lmfdb/db_backend.py].  Python values are an
    inductive type, dictionaries are association lists in the order in which
    [iteritems] yields their items, psycopg2 [Composable] objects are modelled
    by the text [as_string] renders, exceptions are an error type, and the
    methods that talk to the connection are state transformers over the
    in-memory table object and a transactional store. *)

From stdpp Require Import gmap strings list fin_maps pretty sorting.
From Stdlib Require Import ZArith Lia.
From Stdlib Require Import Strings.Ascii.

Open Scope Z_scope.
Set Warnings "-register-all".

(** ** Python values and exceptions *)

(** The values a caller can put into a query, a projection or a data
    dictionary.  A [PDict] lists its items in iteration order; its keys are
    strings. *)
Inductive pyval : Type :=
  | PNone
  | PBool (b : bool)
  | PInt (z : Z)
  | PStr (s : string)
  | PList (l : list pyval)
  | PDict (d : list (string * pyval)).

(** A bound parameter is a caller value, possibly wrapped by psycopg2's
    [Json] or by [lmfdb.db_encoding.Array]. *)
Inductive param : Type :=
  | Plain (v : pyval)
  | Json (v : pyval)
  | Array (v : pyval).

(** The exceptions the code raises.  A message is the format string of the
    source; what is substituted into it is not modelled. *)
Inductive exn : Type :=
  | ValueError (msg : string)
  | RuntimeError (msg : string)
  | KeyError
  | TypeError
  | AttributeError
  | IndexError
  | ZeroDivisionError
  | DatabaseError.

Inductive result (A : Type) : Type :=
  | Ok (a : A)
  | Raise (e : exn).
Arguments Ok {A} a.
Arguments Raise {A} e.

#[global] Instance result_ret : MRet result := fun A a => Ok a.
#[global] Instance result_bind : MBind result := fun A B k r =>
  match r with
  | Ok a => k a
  | Raise e => Raise e
  end.

Definition is_ok {A} (r : result A) : bool :=
  match r with Ok _ => true | Raise _ => false end.

(** Python truth value ([if value:], [bool(val)]). *)
Definition truthy (v : pyval) : bool :=
  match v with
  | PNone => false
  | PBool b => b
  | PInt z => negb (z =? 0)
  | PStr s => negb (String.eqb s "")
  | PList l => match l with [] => false | _ => true end
  | PDict d => match d with [] => false | _ => true end
  end.

(** [len(value)]. *)
Definition py_len (v : pyval) : result nat :=
  match v with
  | PStr s => Ok (String.length s)
  | PList l => Ok (length l)
  | PDict d => Ok (length d)
  | _ => Raise TypeError
  end.

Fixpoint chars (s : string) : list string :=
  match s with
  | EmptyString => []
  | String c s' => String c EmptyString :: chars s'
  end.

(** [for v in value]: the elements of a list, the characters of a string,
    the keys of a dictionary. *)
Definition py_iter (v : pyval) : result (list pyval) :=
  match v with
  | PStr s => Ok (PStr <$> chars s)
  | PList l => Ok l
  | PDict d => Ok ((fun kv => PStr kv.1) <$> d)
  | _ => Raise TypeError
  end.

(** ** Strings *)

Definition dquote : string := String (Ascii.ascii_of_nat 34) EmptyString.
Definition squote : string := String (Ascii.ascii_of_nat 39) EmptyString.

Fixpoint join (sep : string) (l : list string) : string :=
  match l with
  | [] => ""
  | [s] => s
  | s :: rest => s +:+ sep +:+ join sep rest
  end.

(** [s.replace(c, c + c)] for a one-character [c]. *)
Fixpoint double_char (c : Ascii.ascii) (s : string) : string :=
  match s with
  | EmptyString => EmptyString
  | String a s' =>
      if Ascii.eqb a c then String a (String a (double_char c s'))
      else String a (double_char c s')
  end.

Definition startswith_dollar (s : string) : bool :=
  match s with
  | String c _ => Ascii.eqb c "$"%char
  | EmptyString => false
  end.

Fixpoint contains_char (c : Ascii.ascii) (s : string) : bool :=
  match s with
  | EmptyString => false
  | String a s' => Ascii.eqb a c || contains_char c s'
  end.

(** [key.split('.')]: always at least one segment. *)
Fixpoint split_dot_aux (acc : string) (s : string) : list string :=
  match s with
  | EmptyString => [String.rev acc]
  | String a s' =>
      if Ascii.eqb a "."%char then String.rev acc :: split_dot_aux "" s'
      else split_dot_aux (String a acc) s'
  end.
Definition split_dot (s : string) : list string := split_dot_aux "" s.

Definition is_digit (c : Ascii.ascii) : bool :=
  let n := Ascii.nat_of_ascii c in (48 <=? n)%nat && (n <=? 57)%nat.

Fixpoint all_digits (s : string) : bool :=
  match s with
  | EmptyString => true
  | String a s' => is_digit a && all_digits s'
  end.

(** [p.isdigit()]: nonempty and all decimal digits. *)
Definition isdigit (s : string) : bool :=
  match s with
  | EmptyString => false
  | _ => all_digits s
  end.

Fixpoint int_of_digits (acc : Z) (s : string) : Z :=
  match s with
  | EmptyString => acc
  | String a s' => int_of_digits (10 * acc + (Z.of_nat (Ascii.nat_of_ascii a) - 48)) s'
  end.

(** ** psycopg2.sql

    A [Composable] is represented by the text that [as_string] gives for
    it; [SQL(fmt).format(...)] is then concatenation and [SQL(sep).join]
    is [join]. *)
Definition Composable : Type := string.

(** [Identifier(name)]: the name in double quotes, inner quotes doubled. *)
Definition Identifier (name : string) : Composable :=
  dquote +:+ double_char (Ascii.ascii_of_nat 34) name +:+ dquote.

(** A segment of a dotted key after [int(p) if p.isdigit() else p]. *)
Inductive segment : Type :=
  | SegInt (z : Z)
  | SegStr (s : string).

Definition to_segment (p : string) : segment :=
  if isdigit p then SegInt (int_of_digits 0 p) else SegStr p.

(** [Literal(p)]: an integer in decimal, a string in single quotes with
    inner quotes doubled (backslashes stay as they are, as with standard
    conforming strings). *)
Definition Literal (p : segment) : Composable :=
  match p with
  | SegInt z => pretty z
  | SegStr s => squote +:+ double_char (Ascii.ascii_of_nat 39) s +:+ squote
  end.

(** ** The table object

    The attributes [PostgresTable.__init__] and [_set_sort] set up, together
    with [stats.total] of the attached [PostgresStatsTable]. *)
Record PostgresTable : Type := {
  search_table : string;
  _label_col : option string;
  _count_cutoff : Z;
  _id_ordered : bool;
  _out_of_order : bool;
  _stats_valid : bool;
  _col_type : gmap string string;
  has_id : bool;
  _search_cols : list string;
  extra_table : option string;
  _extra_cols : list string;
  _sort_keys : list string;
  _primary_sort : option string;
  _sort : option Composable;
  total : Z
}.

(** The [col] argument of [_parse_special] and the [outer] argument of
    [_parse_dict]: [None], a column name, or the [Composable] built for a
    dotted key. *)
Inductive colref : Type :=
  | NoCol
  | ColName (s : string)
  | ColExpr (c : Composable).

(** [self._col_type[col] == 'jsonb'], a [KeyError] when [col] is no key. *)
Definition col_is_jsonb (self : PostgresTable) (col : option string) : result bool :=
  match col with
  | None => Raise KeyError
  | Some c =>
      match _col_type self !! c with
      | Some ty => Ok (String.eqb ty "jsonb")
      | None => Raise KeyError
      end
  end.

(** A WHERE fragment with its parameters; [None] stands for the pair
    [(None, None)] the source returns when there is no constraint. *)
Definition clause : Type := option (Composable * list param).

(** What [_parse_dict] does on an argument that is no dictionary:
    [len(D) == 0] for an empty string or list, then [D.iteritems()]. *)
Definition _parse_dict_other (D : pyval) : result clause :=
  match D with
  | PStr s => if String.eqb s "" then Ok None else Raise AttributeError
  | PList l => match l with [] => Ok None | _ => Raise AttributeError end
  | _ => Raise TypeError
  end.

(** The part of [_parse_special] after the [$or]/[$and] case: [col] is
    already an SQL expression and [force_json] is known. *)
Definition _parse_special_op (key : string) (value : pyval) (col : Composable)
    (force_json : bool) : result (Composable * list param) :=
  if String.eqb key "$exists" then
    if truthy value then Ok (col +:+ " IS NOT NULL", [])
    else Ok (col +:+ " IS NULL", [])
  else if String.eqb key "$notcontains" then
    n ← py_len value ;
    vs ← py_iter value ;
    Ok (join " AND " (replicate n ("NOT " +:+ col +:+ " @> %s")),
        map (fun v => Plain (PList [v])) vs)
  else
    '(pre, post, value) ←
      (if String.eqb key "$lte" then Ok ("", " <= %s", Plain value)
       else if String.eqb key "$lt" then Ok ("", " < %s", Plain value)
       else if String.eqb key "$gte" then Ok ("", " >= %s", Plain value)
       else if String.eqb key "$gt" then Ok ("", " > %s", Plain value)
       else if String.eqb key "$ne" then Ok ("", " != %s", Plain value)
       else if String.eqb key "$in" then Ok ("", " = ANY(%s)", Array value)
       else if String.eqb key "$nin" then Ok ("NOT (", " = ANY(%s)", Array value)
       else if String.eqb key "$contains" then Ok ("", " @> %s", Plain value)
       else if String.eqb key "$containedin" then Ok ("", " <@ %s", Plain value)
       else Raise (ValueError "Error building query: {0}")) ;
    value ← (if force_json then
                match value with
                | Array _ =>
                    Raise (ValueError "$in and $nin operators not supported for jsonb")
                | Plain v => Ok (Json v)
                | Json v => Ok (Json v)
                end
              else Ok value) ;
    Ok (pre +:+ col +:+ post, [value]).

(** The pairs unzipped into strings and values, the values flattened, and
    the strings joined inside parentheses. *)
Definition join_pairs (joiner : string) (pairs : list (Composable * list param))
    : clause :=
  match pairs with
  | [] => None
  | _ => Some ("(" +:+ join joiner (fst <$> pairs) +:+ ")",
               concat (snd <$> pairs))
  end.

Definition keep_pairs (rs : list clause) : list (Composable * list param) :=
  omap id rs.

(** The end of [_parse_dict]: the strings joined by [AND], or no
    constraint when there is none. *)
Definition finish_items (pairs : list (Composable * list param)) : clause :=
  match pairs with
  | [] => None
  | _ => Some (join " AND " (fst <$> pairs), concat (snd <$> pairs))
  end.

(** [all(k.startswith('$') for k in value.iterkeys())]. *)
Definition all_special (d : list (string * pyval)) : bool :=
  forallb (fun kv => startswith_dollar kv.1) d.

(** The column of a key of [_parse_dict]: the name checked against the
    search columns, the expression put into the statement, the [outer]
    passed down, and [force_json]. *)
Record keyinfo : Type := {
  ki_expr : Composable;
  ki_outer : colref;
  ki_json : bool
}.

Definition _parse_key (self : PostgresTable) (key : string) : result keyinfo :=
  if contains_char "."%char key then
    match to_segment <$> split_dot key with
    | SegStr k :: path =>
        if negb (String.eqb k "id") && negb (bool_decide (k ∈ _search_cols self))
        then Raise (ValueError "%s is not a column of %s")
        else
          let e := Identifier k +:+ join "" ((fun p => "->" +:+ Literal p) <$> path) in
          Ok {| ki_expr := e; ki_outer := ColExpr e; ki_json := true |}
    | _ => Raise (ValueError "%s is not a column of %s")
    end
  else
    fj ← col_is_jsonb self (Some key) ;
    if negb (String.eqb key "id") && negb (bool_decide (key ∈ _search_cols self))
    then Raise (ValueError "%s is not a column of %s")
    else Ok {| ki_expr := Identifier key; ki_outer := ColName key; ki_json := fj |}.

(** [_parse_dict] and [_parse_special].  The loop over [D.iteritems()]
    collects the clauses of the items in order and stops at the first
    exception. *)
Fixpoint _parse_dict (self : PostgresTable) (D : pyval) (outer : colref)
    {struct D} : result clause :=
  match D with
  | PDict items =>
      match items with
      | [] => Ok None
      | _ =>
          pairs ←
            (fix loop (its : list (string * pyval))
                 : result (list (Composable * list param)) :=
               match its with
               | [] => Ok []
               | (key, value) :: rest =>
                   here ←
                     (if String.eqb key "" then
                        Raise (ValueError "Error building query: empty key")
                      else if startswith_dollar key then
                        _parse_special self key value outer
                      else
                        ki ← _parse_key self key ;
                        match value with
                        | PDict d =>
                            if all_special d then _parse_dict self value (ki_outer ki)
                            else
                              Ok (Some (ki_expr ki +:+ " = %s",
                                        [if ki_json ki then Json value else Plain value]))
                        | PNone => Ok (Some (ki_expr ki +:+ " IS NULL", []))
                        | _ =>
                            Ok (Some (ki_expr ki +:+ " = %s",
                                      [if ki_json ki then Json value else Plain value]))
                        end) ;
                   more ← loop rest ;
                   Ok (match here with Some p => p :: more | None => more end)
               end) items ;
          Ok (finish_items pairs)
      end
  | _ => _parse_dict_other D
  end
with _parse_special (self : PostgresTable) (key : string) (value : pyval)
    (col : colref) {struct value} : result clause :=
  if String.eqb key "$or" || String.eqb key "$and" then
    rs ←
      match value with
      | PList l =>
          (fix each (cs : list pyval) : result (list clause) :=
             match cs with
             | [] => Ok []
             | c :: cs' =>
                 r ← _parse_dict self c col ;
                 rs ← each cs' ;
                 Ok (r :: rs)
             end) l
      | _ =>
          cs ← py_iter value ;
          (fix each (cs : list pyval) : result (list clause) :=
             match cs with
             | [] => Ok []
             | c :: cs' =>
                 r ← _parse_dict_other c ;
                 rs ← each cs' ;
                 Ok (r :: rs)
             end) cs
      end ;
    Ok (join_pairs (if String.eqb key "$or" then " OR " else " AND ") (keep_pairs rs))
  else
    '(c, fj) ←
      match col with
      | ColExpr c => Ok (c, true)
      | ColName s => fj ← col_is_jsonb self (Some s) ; Ok (Identifier s, fj)
      | NoCol => fj ← col_is_jsonb self None ; Ok ("", fj)
      end ;
    r ← _parse_special_op key value c fj ;
    Ok (Some r).

(** ** Dictionaries as association lists *)

(** [k in d]. *)
Definition dict_has {V} (k : string) (d : list (string * V)) : bool :=
  existsb (fun kv => String.eqb kv.1 k) d.

(** [d.get(k)]. *)
Fixpoint dict_get {V} (k : string) (d : list (string * V)) : option V :=
  match d with
  | [] => None
  | (k', v) :: rest => if String.eqb k' k then Some v else dict_get k rest
  end.

(** [d.pop(k, None)] seen from [d]: the key is gone afterwards. *)
Definition dict_del {V} (k : string) (d : list (string * V)) : list (string * V) :=
  filter (fun kv => kv.1 ≠ k) d.

(** [d[k] = v]: the value is replaced in place, a new key goes last. *)
Fixpoint dict_set {V} (k : string) (v : V) (d : list (string * V)) : list (string * V) :=
  match d with
  | [] => [(k, v)]
  | (k', v') :: rest =>
      if String.eqb k' k then (k, v) :: rest else (k', v') :: dict_set k v rest
  end.

(** ** ProjectionResolver: [_parse_projection] *)

(** The forms of a projection: the codes 0, 1, 1.1 and 2, a dictionary, a
    list of column names, a single column name. *)
Inductive projection : Type :=
  | Proj0
  | Proj1
  | Proj1_1
  | Proj2
  | ProjDict (d : list (string * pyval))
  | ProjList (l : list string)
  | ProjStr (s : string).

(** [set(bool(val) for val in projection.values())], without repetition. *)
Definition projvals_of (d : list (string * pyval)) : list bool :=
  remove_dups ((fun kv => truthy kv.2) <$> d).

(** [col in projvals] for a column name and a set of booleans: in Python a
    string is equal to no boolean. *)
Definition str_in_bools (col : string) (projvals : list bool) : bool :=
  existsb (fun _ => false) projvals.

(** The two loops of the dictionary case.  Each step tests the column and
    pops it from the projection. *)
Fixpoint proj_search_loop (including : bool) (cols : list string)
    (proj : list (string * pyval)) : list string * list (string * pyval) :=
  match cols with
  | [] => ([], proj)
  | col :: rest =>
      let keep := Bool.eqb (dict_has col proj) including in
      let '(out, proj') := proj_search_loop including rest (dict_del col proj) in
      (if keep then col :: out else out, proj')
  end.

Fixpoint proj_extra_loop (including : bool) (projvals : list bool)
    (cols : list string) (proj : list (string * pyval))
    : list string * list (string * pyval) :=
  match cols with
  | [] => ([], proj)
  | col :: rest =>
      let keep := Bool.eqb (str_in_bools col projvals) including in
      let '(out, proj') := proj_extra_loop including projvals rest (dict_del col proj) in
      (if keep then col :: out else out, proj')
  end.

(** The loop of the list case. *)
Fixpoint proj_list_loop (self : PostgresTable) (proj : list string)
    : result (list string * list string * bool) :=
  match proj with
  | [] => Ok ([], [], false)
  | col :: rest =>
      if bool_decide (col ∈ _search_cols self) then
        '(sc, ec, inc) ← proj_list_loop self rest ; Ok (col :: sc, ec, inc)
      else if bool_decide (col ∈ _extra_cols self) then
        '(sc, ec, inc) ← proj_list_loop self rest ; Ok (sc, col :: ec, inc)
      else if String.eqb col "id" then
        '(sc, ec, _) ← proj_list_loop self rest ; Ok (sc, ec, true)
      else Raise (ValueError "%s not column of table")
  end.

(** The last two lines of [_parse_projection]. *)
Definition proj_finish (search_cols extra_cols : list string) (include_id : bool)
    : list string * list string * Z :=
  let has_extra := match extra_cols with [] => false | _ => true end in
  ((if include_id || has_extra then "id" :: search_cols else search_cols),
   extra_cols,
   if include_id || negb has_extra then 0 else 1).

(** [_parse_projection].  In the dictionary case [projvals.pop()] takes the
    one truth value out of the set, so the set the extras loop tests
    against is empty. *)
Definition _parse_projection (self : PostgresTable) (p : projection)
    : result (list string * list string * Z) :=
  match p with
  | Proj0 =>
      if negb (bool_decide ("label" ∈ _search_cols self))
      then Raise (RuntimeError "label not column of %s")
      else Ok (["label"], [], 0)
  | Proj1 => Ok (_search_cols self, [], 0)
  | Proj1_1 => Ok ("id" :: _search_cols self, [], 0)
  | Proj2 =>
      match extra_table self with
      | None => Ok (_search_cols self, [], 0)
      | Some _ => Ok ("id" :: _search_cols self, _extra_cols self, 1)
      end
  | ProjDict d =>
      match d with
      | [] => Raise (ValueError "You must specify at least one key.")
      | _ =>
          match projvals_of d with
          | [including] =>
              let projvals : list bool := [] in
              let include_id :=
                match dict_get "id" d with Some v => truthy v | None => false end in
              let d := dict_del "id" d in
              let '(search_cols, d) := proj_search_loop including (_search_cols self) d in
              let '(extra_cols, d) :=
                match extra_table self with
                | Some _ => proj_extra_loop including projvals (_extra_cols self) d
                | None => ([], d)
                end in
              match d with
              | [] => Ok (proj_finish search_cols extra_cols include_id)
              | _ => Raise (ValueError "%s not column of %s")
              end
          | _ => Raise (ValueError "You cannot both include and exclude.")
          end
      end
  | ProjList l =>
      match l with
      | [] => Raise (ValueError "You must specify at least one key.")
      | _ =>
          '(sc, ec, inc) ← proj_list_loop self l ;
          Ok (proj_finish sc ec inc)
      end
  | ProjStr s =>
      if String.eqb s "" then Raise (ValueError "You must specify at least one key.")
      else
        '(sc, ec, inc) ← proj_list_loop self [s] ;
        Ok (proj_finish sc ec inc)
  end.

(** ** The connection

    Postgres itself is a parameter of the development: [pg_execute] is what
    [cursor.execute] does to the database for a statement text and its
    bound parameters, and what rows the cursor then holds; [pg_copy_from] is
    [cursor.copy_from] for the rows of a file, a table name and a column
    list, with the resulting [rowcount].  The connection keeps the last
    committed database and the working one of the open transaction. *)

Inductive event : Type :=
  | EExecute (sql : Composable) (values : list param)
  | ECopyFrom (table : string) (columns : list string)
  | ECommit
  | ERollback.

(** The rows a cursor holds; [rowcount] is their number. *)
Definition cursor : Type := list (list pyval).

Definition rowcount (cur : cursor) : Z := Z.of_nat (length cur).

(** [rec[0]]. *)
Definition first_col (rec : list pyval) : result pyval :=
  match rec with
  | v :: _ => Ok v
  | [] => Raise IndexError
  end.

(** [cur.fetchone()[0]]: [fetchone] gives [None] when no row is left. *)
Definition fetchone_0 (cur : cursor) : result pyval :=
  match cur with
  | rec :: _ => first_col rec
  | [] => Raise TypeError
  end.

(** [int(x)] for the values a count column holds: a number is itself, a
    string of decimal digits is read as a number, and any other string is
    taken as an invalid literal. *)
Definition py_int (v : pyval) : result Z :=
  match v with
  | PInt z => Ok z
  | PBool b => Ok (if b then 1 else 0)
  | PStr s => if isdigit s then Ok (int_of_digits 0 s) else Raise (ValueError "invalid literal for int()")
  | _ => Raise TypeError
  end.

(** [cur.fetchmany(size)]: at most [size] rows; psycopg2 takes a negative
    size as all remaining rows. *)
Definition fetchmany (size : Z) (cur : cursor) : cursor :=
  if size <? 0 then cur else take (Z.to_nat size) cur.

Definition set_out_of_order (b : bool) (t : PostgresTable) : PostgresTable :=
  {| search_table := search_table t; _label_col := _label_col t;
     _count_cutoff := _count_cutoff t; _id_ordered := _id_ordered t;
     _out_of_order := b; _stats_valid := _stats_valid t;
     _col_type := _col_type t; has_id := has_id t;
     _search_cols := _search_cols t; extra_table := extra_table t;
     _extra_cols := _extra_cols t; _sort_keys := _sort_keys t;
     _primary_sort := _primary_sort t; _sort := _sort t; total := total t |}.

Definition set_stats_valid (b : bool) (t : PostgresTable) : PostgresTable :=
  {| search_table := search_table t; _label_col := _label_col t;
     _count_cutoff := _count_cutoff t; _id_ordered := _id_ordered t;
     _out_of_order := _out_of_order t; _stats_valid := b;
     _col_type := _col_type t; has_id := has_id t;
     _search_cols := _search_cols t; extra_table := extra_table t;
     _extra_cols := _extra_cols t; _sort_keys := _sort_keys t;
     _primary_sort := _primary_sort t; _sort := _sort t; total := total t |}.

Definition set_total (n : Z) (t : PostgresTable) : PostgresTable :=
  {| search_table := search_table t; _label_col := _label_col t;
     _count_cutoff := _count_cutoff t; _id_ordered := _id_ordered t;
     _out_of_order := _out_of_order t; _stats_valid := _stats_valid t;
     _col_type := _col_type t; has_id := has_id t;
     _search_cols := _search_cols t; extra_table := extra_table t;
     _extra_cols := _extra_cols t; _sort_keys := _sort_keys t;
     _primary_sort := _primary_sort t; _sort := _sort t; total := n |}.

(** [self.stats.counts] and [self.stats.stats]. *)
Definition stats_counts (t : PostgresTable) : string := search_table t +:+ "_counts".
Definition stats_stats (t : PostgresTable) : string := search_table t +:+ "_stats".

(** [sorted(D.items())]: the keys of a dictionary are distinct, so the
    items are ordered by key. *)
Fixpoint insert_item (kv : string * pyval) (l : list (string * pyval))
    : list (string * pyval) :=
  match l with
  | [] => [kv]
  | kv' :: rest =>
      if String.leb kv.1 kv'.1 then kv :: l else kv' :: insert_item kv rest
  end.

Definition sorted_items (d : list (string * pyval)) : list (string * pyval) :=
  foldr insert_item [] d.

(** [_split_dict]: the parallel lists of keys and values. *)
Definition _split_dict (D : list (string * pyval)) : pyval * pyval :=
  let items := sorted_items D in
  (PList ((fun kv => PStr kv.1) <$> items), PList (snd <$> items)).

(** A sort order: column names, or pairs of a column and a direction. *)
Inductive sortitem : Type :=
  | SortCol (col : string)
  | SortPair (col : string) (dir : Z).

(** [_sort_str]. *)
Definition _sort_str (sort_list : list sortitem) : Composable :=
  join ", " ((fun c =>
    match c with
    | SortCol col => Identifier col
    | SortPair col dir =>
        if dir =? 1 then Identifier col else Identifier col +:+ " DESC"
    end) <$> sort_list).

(** [_build_query]: WHERE, ORDER BY, LIMIT and OFFSET. *)
Definition _build_query (self : PostgresTable) (query : list (string * pyval))
    (limit : option Z) (offset : Z) (sort : option (list sortitem))
    : result (Composable * list param) :=
  c ← _parse_dict self (PDict query) NoCol ;
  let '(s, values) :=
    match c with
    | None => ("", [])
    | Some (qstr, values) => (" WHERE " +:+ qstr, values)
    end in
  hs ←
    match sort return result (bool * Composable) with
    | None =>
        match _sort self with
        | None =>
            if match limit with
               | Some l => negb ((l =? 1) && (offset =? 0))
               | None => false
               end
            then Raise (ValueError "You must specify a sort order")
            else Ok (false, "")
        | Some own =>
            if match _primary_sort self with
               | Some p => dict_has p query
               | None => false
               end || _out_of_order self
            then Ok (true, own)
            else Ok (true, Identifier "id")
        end
    | Some l => Ok (match l with [] => false | _ => true end, _sort_str l)
    end ;
  let '(has_sort, sort) := (hs : bool * Composable) in
  let s := if has_sort then s +:+ " ORDER BY " +:+ sort else s in
  match limit with
  | None => Ok (s, values)
  | Some l =>
      let s := s +:+ " LIMIT %s" in
      let values := values ++ [Plain (PInt l)] in
      if negb (offset =? 0)
      then Ok (s +:+ " OFFSET %s", values ++ [Plain (PInt offset)])
      else Ok (s, values)
  end.

(** The statement of [quick_count] and its parameters [[cols, vals]]. *)
Definition quick_count_sql (t : PostgresTable) : Composable :=
  "SELECT count FROM " +:+ Identifier (stats_counts t)
    +:+ " WHERE cols = %s AND values = %s".

Definition quick_count_params (query : list (string * pyval)) : list param :=
  let '(cols, vals) := _split_dict query in [Plain cols; Plain vals].

(** The statement of [_slow_count] and its parameters. *)
Definition count_sql (t : PostgresTable) (c : clause) : Composable * list param :=
  let selecter := "SELECT COUNT(*) FROM " +:+ Identifier (search_table t) in
  match c with
  | Some (qstr, values) => (selecter +:+ " WHERE " +:+ qstr, values)
  | None => (selecter, [])
  end.

(** The statement [upsert] looks the target row up with. *)
Definition upsert_select_sql (t : PostgresTable) (qstr : Composable) : Composable :=
  "SELECT " +:+ Identifier "id" +:+ " FROM " +:+ Identifier (search_table t)
    +:+ " WHERE " +:+ qstr +:+ " LIMIT 2".

(** The statements that mark the table in [meta_tables]. *)
Definition break_stats_sql : Composable :=
  "UPDATE meta_tables SET stats_valid = false WHERE name = %s".
Definition break_order_sql : Composable :=
  "UPDATE meta_tables SET out_of_order = true WHERE name = %s".

Section Engine.

Context {database : Type}.
Variable pg_execute :
  Composable -> list param -> database -> result (database * cursor).
Variable pg_copy_from :
  list (list pyval) -> string -> list string -> database -> result (database * Z).

(** The state a method runs in: the table object, the connection, and the
    trace of what was sent to the connection so far. *)
Record world : Type := {
  self : PostgresTable;
  committed : database;
  working : database;
  log : list event
}.

(** A method: it returns or raises, and leaves a state either way. *)
Definition M (A : Type) : Type := world -> result A * world.

Definition ret {A} (a : A) : M A := fun w => (Ok a, w).
Definition raise {A} (e : exn) : M A := fun w => (Raise e, w).
Definition bind {A B} (m : M A) (k : A -> M B) : M B := fun w =>
  match m w with
  | (Ok a, w') => k a w'
  | (Raise e, w') => (Raise e, w')
  end.
Definition lift {A} (r : result A) : M A := fun w => (r, w).

Notation "'let*' x := m 'in' k" := (bind m (fun x => k))
  (at level 10, x pattern, m at level 100, k at level 200, only parsing).

Definition get_self : M PostgresTable := fun w => (Ok (self w), w).

Definition modify_self (f : PostgresTable -> PostgresTable) : M unit := fun w =>
  (Ok tt, {| self := f (self w); committed := committed w;
             working := working w; log := log w |}).

Definition record (e : event) (w : world) : world :=
  {| self := self w; committed := committed w; working := working w;
     log := log w ++ [e] |}.

(** [self.conn.commit()] and [self.conn.rollback()]. *)
Definition do_commit (w : world) : world :=
  {| self := self w; committed := working w; working := working w;
     log := log w ++ [ECommit] |}.

Definition do_rollback (w : world) : world :=
  {| self := self w; committed := committed w; working := committed w;
     log := log w ++ [ERollback] |}.

Definition conn_commit : M unit := fun w => (Ok tt, do_commit w).
Definition conn_rollback : M unit := fun w => (Ok tt, do_rollback w).

Definition set_working (db : database) (w : world) : world :=
  {| self := self w; committed := committed w; working := db; log := log w |}.

(** [_execute]: a [DatabaseError] rolls the transaction back and is raised
    again, other exceptions pass through, success commits when asked. *)
Definition _execute (query : Composable) (values : list param) (commit : bool)
    : M cursor := fun w =>
  let w := record (EExecute query values) w in
  match pg_execute query values (working w) with
  | Ok (db, cur) =>
      let w := set_working db w in
      (Ok cur, if commit then do_commit w else w)
  | Raise DatabaseError => (Raise DatabaseError, do_rollback w)
  | Raise e => (Raise e, w)
  end.

(** What a successful [_execute] leaves behind. *)
Definition executed (sql : Composable) (values : list param) (commit : bool)
    (db : database) (w : world) : world :=
  let w := set_working db (record (EExecute sql values) w) in
  if commit then do_commit w else w.

(** *** StatsCache: [quick_count], [_slow_count], [_record_count], [count], [max] *)

(** [quick_count]: the cached count of a query, [None] when there is none. *)
Definition quick_count (query : list (string * pyval)) : M (option Z) :=
  let* t := get_self in
  let* cur := _execute (quick_count_sql t) (quick_count_params query) true in
  if negb (rowcount cur =? 0) then
    let* v := lift (fetchone_0 cur) in
    let* n := lift (py_int v) in
    ret (Some n)
  else ret None.

(** [_record_count]: insert the count, or update the one recorded. *)
Definition _record_count (query : list (string * pyval)) (count : pyval) : M unit :=
  let* t := get_self in
  let '(cols, vals) := _split_dict query in
  let* cached := quick_count query in
  let updater :=
    match cached with
    | None =>
        "INSERT INTO " +:+ Identifier (stats_counts t)
          +:+ " (count, cols, values) VALUES (%s, %s, %s)"
    | Some _ =>
        "UPDATE " +:+ Identifier (stats_counts t)
          +:+ " SET count = %s WHERE cols = %s AND values = %s"
    end in
  let* _ := _execute updater [Plain count; Plain cols; Plain vals] true in
  ret tt.

(** [_slow_count]: count the rows of the search table. *)
Definition _slow_count (query : list (string * pyval)) (record : bool) : M pyval :=
  let* t := get_self in
  let* c := lift (_parse_dict t (PDict query) NoCol) in
  let* cur := _execute (count_sql t c).1 (count_sql t c).2 true in
  let* nres := lift (fetchone_0 cur) in
  let* _ := (if record then _record_count query nres else ret tt) in
  ret nres.

(** [PostgresStatsTable.count]. *)
Definition count (query : list (string * pyval)) : M Z :=
  match query with
  | [] => let* t := get_self in ret (total t)
  | _ =>
      let* cached := quick_count query in
      match cached with
      | Some nres => ret nres
      | None =>
          let* nres := _slow_count query false in
          lift (py_int nres)
      end
  end.

(** [PostgresStatsTable.max]. *)
Definition max (col : string) : M pyval :=
  if String.eqb col "id" then
    let* n := count [] in
    ret (PInt (n - 1))
  else
    let* t := get_self in
    if negb (bool_decide (col ∈ _search_cols t)) then
      raise (ValueError "%s not a column of %s")
    else
      let* cur :=
        _execute ("SELECT value FROM " +:+ Identifier (stats_stats t)
                    +:+ " WHERE stat = %s AND cols = %s AND threshold IS NULL AND constraint_cols IS NULL")
                 [Plain (PStr "max"); Plain (PList [PStr col])] true in
      if negb (rowcount cur =? 0) then lift (fetchone_0 cur)
      else
        let* cur :=
          _execute ("SELECT " +:+ Identifier col +:+ " FROM "
                      +:+ Identifier (search_table t) +:+ " ORDER BY "
                      +:+ Identifier col +:+ " DESC LIMIT 1") [] true in
        let* m := lift (fetchone_0 cur) in
        let* m :=
          match m with
          | PNone =>
              let* cur :=
                _execute ("SELECT " +:+ Identifier col +:+ " FROM "
                            +:+ Identifier (search_table t) +:+ " ORDER BY "
                            +:+ Identifier col +:+ " DESC NULLS LAST LIMIT 1") [] true in
              lift (fetchone_0 cur)
          | _ => ret m
          end in
        fun w =>
          let '(_, w') :=
            _execute ("INSERT INTO " +:+ Identifier (stats_stats t)
                        +:+ " (cols, stat, value) VALUES (%s, %s, %s)")
                     [Plain (PList [PStr col]); Plain (PStr "max"); Plain m] true w in
          (Ok m, w').

(** *** Reads: [_search_iterator], [lucky], [search], [random] *)

Definition is_none (v : pyval) : bool :=
  match v with PNone => true | _ => false end.

(** [{k: v for k, v in zip(cols, rec) if v is not None}]. *)
Definition row_dict (cols : list string) (rec : list pyval) : list (string * pyval) :=
  foldl (fun d kv => dict_set kv.1 kv.2 d) []
        (filter (fun kv => is_none kv.2 = false) (zip cols rec)).

Definition is_proj0 (p : projection) : bool :=
  match p with Proj0 => true | _ => false end.

Definition is_projstr (p : projection) : bool :=
  match p with ProjStr _ => true | _ => false end.

Definition is_nil {A} (l : list A) : bool :=
  match l with [] => true | _ => false end.

(** The extras of one row: a point lookup by id in the extras table, its
    columns that are not null added to [D]. *)
Definition fetch_extras (extra_cols : list string) (rec : list pyval)
    (D : list (string * pyval)) : M (list (string * pyval)) :=
  let* t := get_self in
  let* table := lift (match extra_table t with
                      | Some e => Ok e
                      | None => Raise TypeError
                      end) in
  let selecter :=
    "SELECT " +:+ join ", " (Identifier <$> extra_cols) +:+ " FROM "
      +:+ Identifier table +:+ " WHERE id = %s" in
  let* id := lift (first_col rec) in
  let* extra_cur := _execute selecter [Plain id] true in
  match extra_cur with
  | [] => raise TypeError
  | extra_rec :: _ =>
      ret (foldl (fun d kv => if is_none kv.2 then d else dict_set kv.1 kv.2 d)
                 D (zip extra_cols extra_rec))
  end.

(** What [_search_iterator] yields for one record. *)
Definition yield_row (search_cols extra_cols : list string) (id_offset : Z)
    (p : projection) (rec : list pyval) : M pyval :=
  if is_proj0 p || (is_projstr p && is_nil extra_cols) then lift (first_col rec)
  else
    let D := row_dict (drop (Z.to_nat id_offset) search_cols)
                      (drop (Z.to_nat id_offset) rec) in
    let* D := (if is_nil extra_cols then ret D else fetch_extras extra_cols rec D) in
    match p with
    | ProjStr s =>
        match dict_get s D with
        | Some v => ret v
        | None => raise KeyError
        end
    | _ => ret (PDict D)
    end.

(** [_search_iterator], run to its end over the records of [cur]. *)
Fixpoint _search_iterator (cur : cursor) (search_cols extra_cols : list string)
    (id_offset : Z) (p : projection) : M (list pyval) :=
  match cur with
  | [] => ret []
  | rec :: rest =>
      let* r := yield_row search_cols extra_cols id_offset p rec in
      let* rs := _search_iterator rest search_cols extra_cols id_offset p in
      ret (r :: rs)
  end.

Definition select_sql (search_cols : list string) (table : string) (qstr : Composable)
    : Composable :=
  "SELECT " +:+ join ", " (Identifier <$> search_cols) +:+ " FROM "
    +:+ Identifier table +:+ qstr.

(** [lucky]: the first record of the query, [None] when there is none. *)
Definition lucky (query : list (string * pyval)) (p : projection) (offset : Z)
    : M pyval :=
  let* t := get_self in
  let* (search_cols, extra_cols, id_offset) := lift (_parse_projection t p) in
  let* (qstr, values) := lift (_build_query t query (Some 1) offset None) in
  let* cur := _execute (select_sql search_cols (search_table t) qstr) values true in
  match cur with
  | [] => ret PNone
  | rec :: _ =>
      if is_proj0 p then lift (first_col rec)
      else if negb (is_nil extra_cols) then
        let D := row_dict (drop (Z.to_nat id_offset) search_cols)
                          (drop (Z.to_nat id_offset) rec) in
        let* D := fetch_extras extra_cols rec D in
        match p with
        | ProjStr s =>
            match dict_get s D with
            | Some v => ret v
            | None => raise KeyError
            end
        | _ => ret (PDict D)
        end
      else if is_projstr p then lift (first_col rec)
      else ret (PDict (row_dict search_cols rec))
  end.

(** What [search] returns: a list when a limit is given, otherwise the
    generator over the open cursor, which has not run yet. *)
Inductive search_result : Type :=
  | SearchList (res : list pyval)
  | SearchIter (cur : cursor) (search_cols extra_cols : list string)
               (id_offset : Z) (p : projection).

(** [search].  [info] is the caller's dictionary; its updated content is
    returned next to the result. *)
Definition search (query : list (string * pyval)) (p : projection)
    (limit : option Z) (offset : Z) (sort : option (list sortitem))
    (info : option (list (string * pyval)))
    : M (search_result * option (list (string * pyval))) :=
  let* t := get_self in
  let* (search_cols, extra_cols, id_offset) := lift (_parse_projection t p) in
  match limit with
  | None =>
      let* (qstr, values) := lift (_build_query t query None 0 sort) in
      let* cur := _execute (select_sql search_cols (search_table t) qstr) values true in
      let* info :=
        match info with
        | Some i => let* n := count query in ret (Some (dict_set "number" (PInt n) i))
        | None => ret None
        end in
      ret (SearchIter cur search_cols extra_cols id_offset p, info)
  | Some limit =>
      let* nres := quick_count query in
      let prelimit := Z.max limit (_count_cutoff t - offset) in
      let* (qstr, values) :=
        lift (match nres with
              | None => _build_query t query (Some prelimit) offset sort
              | Some _ => _build_query t query (Some limit) offset sort
              end) in
      let* cur := _execute (select_sql search_cols (search_table t) qstr) values true in
      let '(exact_count, nres) :=
        match nres with
        | None => (rowcount cur <? prelimit, offset + rowcount cur)
        | Some n => (true, n)
        end in
      let* res := _search_iterator (fetchmany limit cur) search_cols extra_cols id_offset p in
      match info with
      | None => ret (SearchList res, None)
      | Some i =>
          let* offset :=
            (if nres <=? offset then
               if limit =? 0 then raise ZeroDivisionError
               else ret (offset - (1 + (offset - nres) / limit) * limit)
             else ret offset) in
          let offset := if offset <? 0 then 0 else offset in
          let i := dict_set "query" (PDict query) i in
          let i := dict_set "number" (PInt nres) i in
          let i := dict_set "count" (PInt limit) i in
          let i := dict_set "start" (PInt offset) i in
          let i := dict_set "exact_count" (PBool exact_count) i in
          ret (SearchList res, Some i)
      end
  end.

(** [random.randint(a, b)]: an empty range is a [ValueError]; otherwise the
    number drawn is [a] plus the raw random number reduced to the width of
    the range. *)
Definition randint (a : Z) (b : pyval) (raw : nat) : result Z :=
  match b with
  | PInt b =>
      if b <? a then Raise (ValueError "empty range for randrange()")
      else Ok (a + Z.of_nat raw mod (b - a + 1))
  | _ => Raise TypeError
  end.

(** The loop of [random]: [tries] lookups are left, [rand] is the source of
    raw random numbers and [i] the number of draws made. *)
Fixpoint random_loop (rand : nat -> nat) (tries i : nat) (maxid : pyval)
    (p : projection) : M pyval :=
  match tries with
  | O => raise (RuntimeError "Random selection failed!")
  | S tries' =>
      let* rid := lift (randint 1 maxid (rand i)) in
      let* res := lucky [("id", PInt rid)] p 0 in
      if truthy res then ret res
      else random_loop rand tries' (S i) maxid p
  end.

Definition maxtries : nat := 100.

Definition random (rand : nat -> nat) (p : projection) : M pyval :=
  let* maxid := max "id" in
  random_loop rand maxtries 0 maxid p.

(** *** Writes: [_break_stats], [_break_order], [upsert] *)

Definition _break_stats : M unit :=
  let* t := get_self in
  if _stats_valid t then
    let* _ := _execute break_stats_sql [Plain (PStr (search_table t))] false in
    modify_self (set_stats_valid false)
  else ret tt.

Definition _break_order : M unit :=
  let* t := get_self in
  if negb (_out_of_order t) then
    let* _ := _execute break_order_sql [Plain (PStr (search_table t))] false in
    modify_self (set_out_of_order true)
  else ret tt.

(** The first loop of [upsert]: every key of the query is [id] or a search
    column. *)
Fixpoint check_query_cols (t : PostgresTable) (query : list (string * pyval))
    : result unit :=
  match query with
  | [] => Ok tt
  | (col, _) :: rest =>
      if negb (String.eqb col "id") && negb (bool_decide (col ∈ _search_cols t))
      then Raise (ValueError "%s is not a column of %s")
      else check_query_cols t rest
  end.

(** The data split into the part of the search table and the part of the
    extras table; without an extras table all of it is search data. *)
Fixpoint split_data (t : PostgresTable) (data : list (string * pyval))
    : result (list (string * pyval) * list (string * pyval)) :=
  match data with
  | [] => Ok ([], [])
  | (col, val) :: rest =>
      match extra_table t with
      | None =>
          if negb (bool_decide (col ∈ _search_cols t))
          then Raise (ValueError "%s is not a column of %s")
          else '(sd, ed) ← split_data t rest ; Ok ((col, val) :: sd, ed)
      | Some _ =>
          if bool_decide (col ∈ _search_cols t) then
            '(sd, ed) ← split_data t rest ; Ok ((col, val) :: sd, ed)
          else if bool_decide (col ∈ _extra_cols t) then
            '(sd, ed) ← split_data t rest ; Ok (sd, (col, val) :: ed)
          else Raise (ValueError "%s is not a column of %s")
      end
  end.

(** [cases]: the search table with its data, then the extras table with
    its data when there is one. *)
Definition upsert_cases (t : PostgresTable) (search_data extras_data : list (string * pyval))
    : list (string * list (string * pyval)) :=
  (search_table t, search_data) ::
  match extra_table t with
  | Some e => [(e, extras_data)]
  | None => []
  end.

Definition update_sql (table : string) (dat : list (string * pyval)) : Composable :=
  "UPDATE " +:+ Identifier table +:+ " SET ("
    +:+ join ", " ((fun kv => Identifier kv.1) <$> dat) +:+ ") = ("
    +:+ join ", " (replicate (length dat) "%s") +:+ ") WHERE id = %s".

(** The statement of the insertion branch: the result of [inserter.format]
    is dropped there, so the template itself is executed. *)
Definition insert_sql : Composable := "INSERT INTO {0} ({1}) VALUES ({2})".

Fixpoint run_updates (cases : list (string * list (string * pyval))) (row_id : pyval)
    : M unit :=
  match cases with
  | [] => ret tt
  | (table, dat) :: rest =>
      let* _ := _execute (update_sql table dat)
                         (((fun kv => Plain kv.2) <$> dat) ++ [Plain row_id]) false in
      run_updates rest row_id
  end.

Fixpoint run_inserts (cases : list (string * list (string * pyval))) : M unit :=
  match cases with
  | [] => ret tt
  | (table, dat) :: rest =>
      let* _ := _execute insert_sql ((fun kv => Plain kv.2) <$> dat) false in
      run_inserts rest
  end.

(** The query merged into the row to insert: a key the data does not set
    takes the value of the query. *)
Definition merge_query (query search_data : list (string * pyval))
    : list (string * pyval) :=
  foldl (fun sd kv => if dict_has kv.1 sd then sd else dict_set kv.1 kv.2 sd)
        search_data query.

Definition upsert (query data : list (string * pyval)) : M unit :=
  let* t := get_self in
  if is_nil query || is_nil data then
    raise (ValueError "Both query and data must be nonempty")
  else if dict_has "id" data then raise (ValueError "Cannot set id")
  else
    let* _ := lift (check_query_cols t query) in
    let* (search_data, extras_data) := lift (split_data t data) in
    let* c := lift (_parse_dict t (PDict query) NoCol) in
    let* (qstr, values) := lift (match c with
                                 | Some qv => Ok qv
                                 | None => Raise TypeError
                                 end) in
    let* cur := _execute (upsert_select_sql t qstr) values true in
    let* _ :=
      (if 1 <? rowcount cur then
         raise (ValueError "Query %s does not specify a unique row")
       else if rowcount cur =? 1 then
         let* row_id := lift (fetchone_0 cur) in
         let* _ := run_updates (upsert_cases t search_data extras_data) row_id in
         if negb (_out_of_order t)
            && existsb (fun kv => bool_decide (kv.1 ∈ _sort_keys t)) data
         then _break_order else ret tt
       else
         if dict_has "id" data || dict_has "id" query then
           raise (ValueError "Cannot specify an id for insertion")
         else
           let search_data := merge_query query search_data in
           let search_data := dict_set "id" (PInt (total t + 1)) search_data in
           let extras_data :=
             match extra_table t with
             | Some _ => dict_set "id" (PInt (total t + 1)) extras_data
             | None => extras_data
             end in
           let* _ := run_inserts (upsert_cases t search_data extras_data) in
           let* _ := _break_order in
           modify_self (fun t => set_total (total t + 1) t)) in
    let* _ := _break_stats in
    conn_commit.

(** *** [resort] *)

(** [_identify_tables]. *)
Definition _identify_tables (t : PostgresTable) (search extra : option string)
    : result (Composable * option Composable) :=
  let search :=
    match search with
    | Some s => Identifier s
    | None => Identifier (search_table t)
    end in
  match extra with
  | Some e =>
      match extra_table t with
      | None => Raise (ValueError "No extra table")
      | Some _ => Ok (search, Some (Identifier e))
      end
  | None => Ok (search, Identifier <$> extra_table t)
  end.

(** [while newid in cols: newid += '_'].  Each round rules out one more
    column name, so as many rounds as there are columns are enough. *)
Fixpoint fresh_name (fuel : nat) (cols : list string) (newid : string) : string :=
  match fuel with
  | O => newid
  | S fuel' =>
      if bool_decide (newid ∈ cols) then fresh_name fuel' cols (newid +:+ "_")
      else newid
  end.

Definition _set_ordered (commit : bool) : M unit :=
  let* t := get_self in
  let* _ := _execute "UPDATE meta_tables SET out_of_order = false WHERE name = %s"
                     [Plain (PStr (search_table t))] commit in
  modify_self (set_out_of_order false).

Definition resort (search extra : option string) (commit : bool) : M unit :=
  let* t := get_self in
  if _id_ordered t && (bool_decide (search ≠ None) || _out_of_order t) then
    let* (search_table, extra_table) := lift (_identify_tables t search extra) in
    let cols := _search_cols t ++ _extra_cols t in
    let newid := Identifier (fresh_name (length cols) cols "newid") in
    let oldid := Identifier "id" in
    let addcol tb c := "ALTER TABLE " +:+ tb +:+ " ADD COLUMN " +:+ c +:+ " bigint" in
    let dropcol tb c := "ALTER TABLE " +:+ tb +:+ " DROP COLUMN " +:+ c in
    let movecol tb c c' :=
      "ALTER TABLE " +:+ tb +:+ " RENAME COLUMN " +:+ c +:+ " TO " +:+ c' in
    let pkey tb c := "ALTER TABLE " +:+ tb +:+ " ADD PRIMARY KEY (" +:+ c +:+ ")" in
    let* _ := _execute (addcol search_table newid) [] false in
    let* sort := lift (match _sort t with
                       | Some s => Ok s
                       | None => Raise TypeError
                       end) in
    let* _ := _execute
      ("UPDATE " +:+ search_table +:+ " SET " +:+ newid
         +:+ " = newsort.newid FROM (SELECT id, ROW_NUMBER() OVER(ORDER BY "
         +:+ sort +:+ ") AS newid FROM " +:+ search_table
         +:+ ") newsort WHERE " +:+ search_table +:+ ".id = newsort.id") [] false in
    let* _ :=
      match extra_table with
      | Some extra_table =>
          let* _ := _execute (addcol extra_table newid) [] false in
          let* _ := _execute
            ("UPDATE " +:+ extra_table +:+ " SET " +:+ newid +:+ " = search_table."
               +:+ newid +:+ " FROM (SELECT id, " +:+ newid +:+ " FROM "
               +:+ search_table +:+ ") search_table WHERE " +:+ extra_table
               +:+ ".id = search_table.id") [] false in
          let* _ := _execute (dropcol extra_table oldid) [] false in
          let* _ := _execute (movecol extra_table newid oldid) [] false in
          let* _ := _execute (pkey extra_table oldid) [] false in
          ret tt
      | None => ret tt
      end in
    let* _ := _execute (dropcol search_table oldid) [] false in
    let* _ := _execute (movecol search_table newid oldid) [] false in
    let* _ := _execute (pkey search_table oldid) [] false in
    let* _ := _set_ordered false in
    if commit then conn_commit else ret tt
  else ret tt.

(** *** BulkReloadProtocol: [_copy_from], [_clone], [_check_file_input], [reload] *)

(** A file to load: its lines, each the list of its fields. *)
Definition file : Type := list (list pyval).

Definition _copy_from (f : file) (table : string) (columns : list string)
    (cur_count : Z) (includes_ids : bool) : M Z := fun w =>
  let columns := (fun col => dquote +:+ col +:+ dquote) <$> columns in
  let rows :=
    if includes_ids then f
    else imap (fun i line => PInt (Z.of_nat i + cur_count + 1) :: line) f in
  let w := record (ECopyFrom table columns) w in
  match pg_copy_from rows table columns (working w) with
  | Ok (db, n) => (Ok n, set_working db w)
  | Raise e => (Raise e, do_rollback w)
  end.

Definition _clone (table tmp_table : string) : M unit :=
  let* _ := _execute ("CREATE TABLE " +:+ Identifier tmp_table +:+ " (LIKE "
                        +:+ Identifier table +:+ ")") [] false in
  ret tt.

Definition _check_file_input (t : PostgresTable) (searchfile extrafile : option file)
    (kwds : list (string * pyval)) : result unit :=
  match searchfile with
  | None => Raise (ValueError "Must specify search file")
  | Some _ =>
      if bool_decide (extrafile ≠ None) && bool_decide (extra_table t = None) then
        Raise (ValueError "No extra table available")
      else if bool_decide (extrafile = None) && bool_decide (extra_table t ≠ None) then
        Raise (ValueError "Must provide file for extra table")
      else if dict_has "columns" kwds then
        Raise (ValueError "Cannot specify column order using the columns parameter")
      else Ok tt
  end.

(** The list [reload] loops over: a table, its columns, whether an id
    column is added, and the file given for it. *)
Definition reload_files (t : PostgresTable)
    (searchfile extrafile countsfile statsfile : option file)
    : list (option string * list string * bool * option file) :=
  [(Some (search_table t), _search_cols t, true, searchfile);
   (extra_table t, _extra_cols t, true, extrafile);
   (Some (stats_counts t), ["cols"; "values"; "count"], false, countsfile);
   (Some (stats_stats t),
    ["cols"; "stat"; "value"; "constraint_cols"; "constraint_values"; "threshold"],
    false, statsfile)].

(** The steps of [reload] that follow the staging of the files.  They are
    parameters here: building the primary keys, restoring the indexes,
    refreshing the statistics, and swapping the staged tables in. *)
Variable restore_pkeys : string -> M unit.
Variable restore_indexes : string -> M unit.
Variable refresh_stats : string -> M unit.
Variable _swap_in_tmp : list string -> bool -> M unit.

(** The staging loop of [reload]: for each file given, clone the table and
    load the file into the clone.  [tables] and [counts] are the list and
    the dictionary the loop fills. *)
Fixpoint stage_files
    (todo : list (option string * list string * bool * option file))
    (includes_ids : bool) (tables : list string) (counts : list (string * Z))
    : M (list string * list (string * Z)) :=
  match todo with
  | [] => ret (tables, counts)
  | (table, cols, addid, filename) :: rest =>
      match filename with
      | None => stage_files rest includes_ids tables counts
      | Some f =>
          let* table := lift (match table with
                              | Some tb => Ok tb
                              | None => Raise TypeError
                              end) in
          let tables := tables ++ [table] in
          let cols := if addid then "id" :: cols else cols in
          let tmp_table := table +:+ "_tmp" in
          let* _ := _clone table tmp_table in
          let* n := _copy_from f tmp_table cols 0 includes_ids in
          stage_files rest includes_ids tables (dict_set table n counts)
      end
  end.

Definition reload (searchfile extrafile countsfile statsfile : option file)
    (includes_ids : bool) (resort_arg : option bool) (reindex : bool)
    (restat : option bool) (kwds : list (string * pyval)) : M unit :=
  let* t := get_self in
  let resort_flag := default (negb includes_ids) resort_arg in
  let restat :=
    default (bool_decide (countsfile = None) || bool_decide (statsfile = None)) restat in
  let* _ := lift (_check_file_input t searchfile extrafile kwds) in
  let* (tables, counts) :=
    stage_files (reload_files t searchfile extrafile countsfile statsfile)
                includes_ids [] [] in
  let* mismatch :=
    match extrafile with
    | None => ret false
    | Some _ =>
        let* e := lift (match extra_table t with
                        | Some e => Ok e
                        | None => Raise KeyError
                        end) in
        match dict_get (search_table t) counts, dict_get e counts with
        | Some n, Some m => ret (negb (n =? m))
        | _, _ => raise KeyError
        end
    end in
  if mismatch then
    let* _ := conn_rollback in
    raise (RuntimeError "Different number of rows in searchfile and extrafile")
  else
    let* _ :=
      (if _id_ordered t && resort_flag then
         resort (Some (search_table t +:+ "_tmp"))
                ((fun e => e +:+ "_tmp") <$> extra_table t) true
       else restore_pkeys "_tmp") in
    let* _ := (if reindex then restore_indexes "_tmp" else ret tt) in
    let* tables :=
      (if restat then
         let* _ := refresh_stats "_tmp" in
         let add tb (tables : list string) :=
           if bool_decide (tb ∈ tables) then tables else tables ++ [tb] in
         ret (add (stats_stats t) (add (stats_counts t) tables))
       else ret tables) in
    let* _ := _swap_in_tmp tables reindex in
    conn_commit.

End Engine.

Arguments world : clear implicits.
Arguments M : clear implicits.

(** ** Well-formedness of the generated text

    The parentheses of an SQL text are counted outside quoted identifiers
    and quoted literals.  [paren_scan] gives the number of parentheses still
    open at the end, or [None] when one is closed that was never opened or
    a quote is left open. *)
Inductive lexmode : Type :=
  | InCode
  | InIdentifier
  | InLiteral.

Fixpoint paren_scan (mode : lexmode) (depth : nat) (s : string) : option nat :=
  match s with
  | EmptyString =>
      match mode with
      | InCode => Some depth
      | _ => None
      end
  | String c s' =>
      match mode with
      | InCode =>
          if Ascii.eqb c (Ascii.ascii_of_nat 34) then paren_scan InIdentifier depth s'
          else if Ascii.eqb c (Ascii.ascii_of_nat 39) then paren_scan InLiteral depth s'
          else if Ascii.eqb c "("%char then paren_scan InCode (S depth) s'
          else if Ascii.eqb c ")"%char then
            match depth with
            | O => None
            | S d => paren_scan InCode d s'
            end
          else paren_scan InCode depth s'
      | InIdentifier =>
          if Ascii.eqb c (Ascii.ascii_of_nat 34) then paren_scan InCode depth s'
          else paren_scan InIdentifier depth s'
      | InLiteral =>
          if Ascii.eqb c (Ascii.ascii_of_nat 39) then paren_scan InCode depth s'
          else paren_scan InLiteral depth s'
      end
  end.

Definition balanced (s : Composable) : bool :=
  match paren_scan InCode 0 s with
  | Some O => true
  | _ => false
  end.

(** The number of [%s] placeholders of a statement text. *)
Fixpoint placeholders (s : string) : nat :=
  match s with
  | String "%" (String "s" s') => S (placeholders s')
  | String _ s' => placeholders s'
  | EmptyString => O
  end.

(** ** Tables and an engine for the examples *)

(** Equality of values, as the engine of the examples compares bound
    parameters. *)
Fixpoint pyval_eqb (a b : pyval) {struct a} : bool :=
  match a, b with
  | PNone, PNone => true
  | PBool x, PBool y => Bool.eqb x y
  | PInt x, PInt y => x =? y
  | PStr x, PStr y => String.eqb x y
  | PList x, PList y =>
      (fix go (x y : list pyval) : bool :=
         match x, y with
         | [], [] => true
         | a :: x', b :: y' => pyval_eqb a b && go x' y'
         | _, _ => false
         end) x y
  | PDict x, PDict y =>
      (fix go (x y : list (string * pyval)) : bool :=
         match x, y with
         | [], [] => true
         | (k, a) :: x', (k', b) :: y' => String.eqb k k' && pyval_eqb a b && go x' y'
         | _, _ => false
         end) x y
  | _, _ => false
  end.

Definition param_eqb (a b : param) : bool :=
  match a, b with
  | Plain x, Plain y | Json x, Json y | Array x, Array y => pyval_eqb x y
  | _, _ => false
  end.

Fixpoint params_eqb (a b : list param) : bool :=
  match a, b with
  | [], [] => true
  | x :: a', y :: b' => param_eqb x y && params_eqb a' b'
  | _, _ => false
  end.

(** A small engine: the rows of the count cache, kept by their key, and
    fixed answers for other statements, found by statement text and
    parameters.  It accepts every statement. *)
Record toydb : Type := {
  toy_counts : list (list param * pyval);
  toy_answers : list (Composable * list param * cursor)
}.

Fixpoint toy_find_count (key : list param) (l : list (list param * pyval))
    : option pyval :=
  match l with
  | [] => None
  | (k, v) :: rest => if params_eqb k key then Some v else toy_find_count key rest
  end.

Fixpoint toy_find_answer (sql : Composable) (values : list param)
    (l : list (Composable * list param * cursor)) : cursor :=
  match l with
  | [] => []
  | (s, vs, cur) :: rest =>
      if String.eqb s sql && params_eqb vs values then cur
      else toy_find_answer sql values rest
  end.

Definition ends_with (suffix s : string) : bool :=
  String.eqb (String.substring (String.length s - String.length suffix)
                               (String.length suffix) s) suffix.

Definition toy_execute (sql : Composable) (values : list param) (db : toydb)
    : result (toydb * cursor) :=
  if String.prefix "SELECT count FROM " sql then
    match toy_find_count values (toy_counts db) with
    | Some v => Ok (db, [[v]])
    | None => Ok (db, [])
    end
  else if String.prefix "INSERT INTO " sql
          && ends_with " (count, cols, values) VALUES (%s, %s, %s)" sql then
    match values with
    | Plain v :: key =>
        Ok ({| toy_counts := toy_counts db ++ [(key, v)];
               toy_answers := toy_answers db |}, [])
    | _ => Ok (db, [])
    end
  else Ok (db, toy_find_answer sql values (toy_answers db)).

Definition toy_copy_from (rows : list (list pyval)) (table : string)
    (columns : list string) (db : toydb) : result (toydb * Z) :=
  Ok (db, Z.of_nat (length rows)).

Definition toy_empty : toydb := {| toy_counts := []; toy_answers := [] |}.

(** A number field table like the one of the docstrings: search columns,
    two extras columns, the label in the column [label]. *)
Definition nf_fields : PostgresTable := {|
  search_table := "nf_fields";
  _label_col := Some "label";
  _count_cutoff := 1000;
  _id_ordered := true;
  _out_of_order := false;
  _stats_valid := true;
  _col_type :=
    list_to_map
      [("id", "bigint"); ("label", "text"); ("coeffs", "jsonb");
       ("degree", "smallint"); ("r2", "smallint"); ("cm", "boolean");
       ("disc_abs", "numeric"); ("disc_sign", "smallint");
       ("disc_rad", "numeric"); ("ramps", "jsonb"); ("galt", "integer");
       ("class_number", "integer"); ("class_group", "jsonb");
       ("used_grh", "boolean"); ("unitsGmodule", "jsonb"); ("reg", "numeric")];
  has_id := true;
  _search_cols :=
    ["label"; "coeffs"; "degree"; "r2"; "cm"; "disc_abs"; "disc_sign";
     "disc_rad"; "ramps"; "galt"; "class_number"; "class_group"; "used_grh"];
  extra_table := Some "nf_fields_extras";
  _extra_cols := ["unitsGmodule"; "reg"];
  _sort_keys := ["degree"; "disc_abs"; "disc_sign"; "label"];
  _primary_sort := Some "degree";
  _sort := Some (_sort_str [SortCol "degree"; SortCol "disc_abs";
                            SortCol "disc_sign"; SortCol "label"]);
  total := 3
|}.

(** A table whose label is held by the column [lmfdb_label]; it has no
    extras table. *)
Definition curves : PostgresTable := {|
  search_table := "curves";
  _label_col := Some "lmfdb_label";
  _count_cutoff := 1000;
  _id_ordered := false;
  _out_of_order := false;
  _stats_valid := true;
  _col_type :=
    list_to_map [("id", "bigint"); ("lmfdb_label", "text");
                 ("conductor", "integer"); ("rank", "smallint")];
  has_id := true;
  _search_cols := ["lmfdb_label"; "conductor"; "rank"];
  extra_table := None;
  _extra_cols := [];
  _sort_keys := ["conductor"];
  _primary_sort := Some "conductor";
  _sort := Some (_sort_str [SortCol "conductor"]);
  total := 1
|}.

(** A table without a declared label column that happens to have a column
    named [label]. *)
Definition plain_table : PostgresTable := {|
  search_table := "plain";
  _label_col := None;
  _count_cutoff := 1000;
  _id_ordered := false;
  _out_of_order := false;
  _stats_valid := true;
  _col_type := list_to_map [("id", "bigint"); ("label", "text"); ("n", "integer")];
  has_id := true;
  _search_cols := ["label"; "n"];
  extra_table := None;
  _extra_cols := [];
  _sort_keys := [];
  _primary_sort := None;
  _sort := None;
  total := 0
|}.

Definition toy_world (t : PostgresTable) (db : toydb) : world toydb :=
  {| self := t; committed := db; working := db; log := [] |}.

(** The later steps of [reload] for the examples: each only leaves its
    statement in the trace. *)
Definition toy_step (sql : Composable) : M toydb unit :=
  bind (_execute toy_execute sql [] true) (fun _ => ret tt).

(** The loop of [_parse_dict] as a function of its own, for the proofs. *)
Definition parse_item (self : PostgresTable) (outer : colref) (key : string)
    (value : pyval) : result clause :=
  if String.eqb key "" then Raise (ValueError "Error building query: empty key")
  else if startswith_dollar key then _parse_special self key value outer
  else
    ki ← _parse_key self key ;
    match value with
    | PDict d =>
        if all_special d then _parse_dict self value (ki_outer ki)
        else Ok (Some (ki_expr ki +:+ " = %s",
                       [if ki_json ki then Json value else Plain value]))
    | PNone => Ok (Some (ki_expr ki +:+ " IS NULL", []))
    | _ => Ok (Some (ki_expr ki +:+ " = %s",
                     [if ki_json ki then Json value else Plain value]))
    end.

Definition parse_items (self : PostgresTable) (outer : colref)
    : list (string * pyval) -> result (list (Composable * list param)) :=
  fix loop (its : list (string * pyval)) :=
    match its with
    | [] => Ok []
    | (key, value) :: rest =>
        here ← parse_item self outer key value ;
        more ← loop rest ;
        Ok (match here with Some p => p :: more | None => more end)
    end.

(** An item [{col: literal}] of a query: a plain key that names [id] or a
    search column with a known type, and a value that is neither [None]
    nor a dictionary. *)
Definition is_literal (v : pyval) : bool :=
  match v with
  | PNone | PDict _ => false
  | _ => true
  end.

Definition plain_key (key : string) : bool :=
  negb (String.eqb key "") && negb (startswith_dollar key)
    && negb (contains_char "."%char key).

Definition equality_item (self : PostgresTable) (kv : string * pyval) : bool :=
  plain_key kv.1 && is_literal kv.2
    && (String.eqb kv.1 "id" || bool_decide (kv.1 ∈ _search_cols self))
    && bool_decide (is_Some (_col_type self !! kv.1)).

(** The text and the parameter of an equality test. *)
Definition eq_text (kv : string * pyval) : Composable :=
  Identifier kv.1 +:+ " = %s".

Definition eq_param (self : PostgresTable) (kv : string * pyval) : param :=
  match _col_type self !! kv.1 with
  | Some ty => if String.eqb ty "jsonb" then Json kv.2 else Plain kv.2
  | None => Plain kv.2
  end.

(** The parameter list the specification describes for an equality query:
    the values of the queried columns in the order in which the table
    declares its columns. *)
Definition declaration_order_params (self : PostgresTable)
    (items : list (string * pyval)) : list param :=
  omap (fun col => Plain <$> dict_get col items) (_search_cols self).

(** The query [{"degree": 2}] and a database for it: the count cache is
    empty and the full count of the query is 5. *)
Definition degree_2 : list (string * pyval) := [("degree", PInt 2)].

Definition toy_nf : toydb := {|
  toy_counts := [];
  toy_answers :=
    [("SELECT COUNT(*) FROM " +:+ Identifier "nf_fields" +:+ " WHERE "
        +:+ Identifier "degree" +:+ " = %s",
      [Plain (PInt 2)], [[PInt 5]])]
|}.

(** A database for the table [curves] with its single row, of id 1. *)
Definition toy_curves : toydb := {|
  toy_counts := [];
  toy_answers :=
    [("SELECT " +:+ Identifier "lmfdb_label" +:+ ", " +:+ Identifier "conductor"
        +:+ ", " +:+ Identifier "rank" +:+ " FROM " +:+ Identifier "curves"
        +:+ " WHERE " +:+ Identifier "id" +:+ " = %s ORDER BY " +:+ Identifier "id"
        +:+ " LIMIT %s",
      [Plain (PInt 1); Plain (PInt 1)], [[PStr "11.a1"; PInt 11; PInt 0]])]
|}.

(** The events of the staging step of [reload]: cloning a table, loading a
    file, and the rollback of a failed load. *)
Definition staging_event (e : event) : bool :=
  match e with
  | EExecute sql _ => String.prefix "CREATE TABLE " sql
  | ECopyFrom _ _ => true
  | ERollback => true
  | ECommit => false
  end.

(** Scenario C: a search file of 100 rows and an extras file of 99 rows. *)
Definition search_file_100 : file :=
  (fun i => PInt (Z.of_nat i + 1) :: replicate 13 PNone) <$> seq 0 100.
Definition extras_file_99 : file :=
  (fun i => [PInt (Z.of_nat i + 1); PNone; PNone]) <$> seq 0 99.

(** The LIMIT [search] asks for: the limit itself when the count of the
    query is cached, otherwise the larger of the limit and what is left of
    the count cutoff after the offset. *)
Definition fetch_limit (t : PostgresTable) (limit offset : Z) (nres : option Z) : Z :=
  match nres with
  | None => Z.max limit (_count_cutoff t - offset)
  | Some _ => limit
  end.

(** Scenario B: the query [{"ramps": {"$contains": [2, 7]}}] on a database
    that has at least as many matching rows as the count cutoff, so that
    the select with LIMIT 1000 comes back with 1000 rows. *)
Definition ramps_2_7 : list (string * pyval) :=
  [("ramps", PDict [("$contains", PList [PInt 2; PInt 7])])].

Definition ramps_row (i : nat) : list pyval :=
  [PStr ("2.2." +:+ pretty (Z.of_nat i)); PNone; PInt 2; PInt 0; PBool false;
   PNone; PInt 1; PNone; PList [PInt 2; PInt 7]; PInt 1; PInt 1; PNone; PBool false].

Definition ramps_select : Composable * list param :=
  match _build_query nf_fields ramps_2_7 (Some 1000) 0 None with
  | Ok (qstr, values) => (select_sql (_search_cols nf_fields) "nf_fields" qstr, values)
  | Raise _ => ("", [])
  end.

Definition toy_ramps : toydb := {|
  toy_counts := [];
  toy_answers := [(ramps_select.1, ramps_select.2, ramps_row <$> seq 0 1000)]
|}.

(** The trace of the update branch of [upsert]: one UPDATE by id for each
    physical table with the part of the data it owns, then the marks in
    [meta_tables] the flags of the table call for. *)
Definition update_events (cases : list (string * list (string * pyval)))
    (row_id : pyval) : list event :=
  (fun c => EExecute (update_sql c.1 c.2)
                     (((fun kv => Plain kv.2) <$> c.2) ++ [Plain row_id])) <$> cases.

Definition sets_sort_key (t : PostgresTable) (data : list (string * pyval)) : bool :=
  existsb (fun kv => bool_decide (kv.1 ∈ _sort_keys t)) data.

Definition flag_events (t : PostgresTable) (data : list (string * pyval)) : list event :=
  (if negb (_out_of_order t) && sets_sort_key t data
   then [EExecute break_order_sql [Plain (PStr (search_table t))]] else [])
  ++ (if _stats_valid t
      then [EExecute break_stats_sql [Plain (PStr (search_table t))]] else []).

(** The statements of a trace, in the order in which they were sent. *)
Definition statements (evs : list event) : list (Composable * list param) :=
  omap (fun e => match e with
                 | EExecute sql values => Some (sql, values)
                 | _ => None
                 end) evs.

(** The engine run over a list of statements from a database: the
    database it ends in when it accepts every one of them, and otherwise
    the exception of the first statement it refuses. *)
Fixpoint run_statements {database : Type}
    (pg_execute : Composable -> list param -> database -> result (database * cursor))
    (stmts : list (Composable * list param)) (db : database) : result database :=
  match stmts with
  | [] => Ok db
  | (sql, values) :: rest =>
      match pg_execute sql values db with
      | Ok (db', _) => run_statements pg_execute rest db'
      | Raise e => Raise e
      end
  end.

(** A database in which the lookup of [upsert] for [{"label": "2.2.5.1"}]
    finds the row of id 17, and one in which the lookup for that label
    finds two rows. *)
Definition label_query : list (string * pyval) := [("label", PStr "2.2.5.1")].

Definition toy_one_match : toydb := {|
  toy_counts := [];
  toy_answers :=
    [(upsert_select_sql nf_fields (Identifier "label" +:+ " = %s"),
      [Plain (PStr "2.2.5.1")], [[PInt 17]])]
|}.

Definition toy_two_matches : toydb := {|
  toy_counts := [];
  toy_answers :=
    [(upsert_select_sql nf_fields (Identifier "label" +:+ " = %s"),
      [Plain (PStr "2.2.5.1")], [[PInt 17]; [PInt 18]])]
|}.

(** An engine like the one of the examples that refuses an UPDATE with
    an empty column list, as Postgres does. *)
Definition picky_execute (sql : Composable) (values : list param) (db : toydb)
    : result (toydb * cursor) :=
  if ends_with " SET () = () WHERE id = %s" sql then Raise DatabaseError
  else toy_execute sql values db.

(** The name [resort] tries after [n] rounds of its loop is [newid]
    followed by [n] underscores. *)
Fixpoint underscores (n : nat) : string :=
  match n with
  | O => ""
  | S n' => "_" +:+ underscores n'
  end.

(** ** More of the translator, for the proofs *)

(** The two loops of the [$or]/[$and] case of [_parse_special] as functions
    of their own: over the dictionaries of a list, and over the elements of
    another iterable. *)
Definition parse_each (self : PostgresTable) (col : colref)
    : list pyval -> result (list clause) :=
  fix each (cs : list pyval) :=
    match cs with
    | [] => Ok []
    | c :: cs' =>
        r ← _parse_dict self c col ;
        rs ← each cs' ;
        Ok (r :: rs)
    end.

Definition parse_each_other : list pyval -> result (list clause) :=
  fix each (cs : list pyval) :=
    match cs with
    | [] => Ok []
    | c :: cs' =>
        r ← _parse_dict_other c ;
        rs ← each cs' ;
        Ok (r :: rs)
    end.

(** The column expression and [force_json] of the operator case of
    [_parse_special]. *)
Definition special_col (self : PostgresTable) (col : colref)
    : result (Composable * bool) :=
  match col with
  | ColExpr c => Ok (c, true)
  | ColName s => fj ← col_is_jsonb self (Some s) ; Ok (Identifier s, fj)
  | NoCol => fj ← col_is_jsonb self None ; Ok ("", fj)
  end.

(** A key names a column of the search table: [id] or a search column. *)
Definition known_col (self : PostgresTable) (key : string) : bool :=
  String.eqb key "id" || bool_decide (key ∈ _search_cols self).

(** A query names a column the search table does not have: as a key of
    the dictionary itself, or of a sub-query of an [$or] or [$and] at any
    depth. *)
Inductive names_unknown_column (self : PostgresTable) : pyval -> Prop :=
  | unknown_here items key value :
      (key, value) ∈ items ->
      plain_key key = true ->
      known_col self key = false ->
      names_unknown_column self (PDict items)
  | unknown_below items key l c :
      (key, PList l) ∈ items ->
      key = "$or" \/ key = "$and" ->
      c ∈ l ->
      names_unknown_column self c ->
      names_unknown_column self (PDict items).

(** ** Placeholders and parameters *)

Definition no_percent (s : string) : bool := negb (contains_char "%"%char s).

(** No key of a dictionary of the query, at any depth, has a percent
    sign. *)
Fixpoint keys_clean (v : pyval) : bool :=
  match v with
  | PList l => forallb keys_clean l
  | PDict d => forallb (fun kv => no_percent kv.1 && keys_clean kv.2) d
  | _ => true
  end.

(** A text brings [n] placeholders to whatever statement it is the start
    of. *)
Definition counted (t : string) (n : nat) : Prop :=
  forall rest, placeholders (t +:+ rest) = (n + placeholders rest)%nat.

Definition counted_clause (c : Composable * list param) : Prop :=
  counted c.1 (length c.2).

Definition outer_clean (outer : colref) : Prop :=
  match outer with
  | NoCol => True
  | ColName s => no_percent s = true
  | ColExpr e => no_percent e = true
  end.

(** What translating a value gives, as a dictionary and as the operand of
    a [$]-key, has as many placeholders as parameters. *)
Definition translates_counted (self : PostgresTable) (v : pyval) : Prop :=
  (forall outer c, outer_clean outer ->
     _parse_dict self v outer = Ok (Some c) -> counted_clause c)
  /\ (forall key col c, outer_clean col ->
        _parse_special self key v col = Ok (Some c) -> counted_clause c).

(** The sort order a statement is built with has no percent sign: the
    columns the caller names, or the ORDER BY text of the table when the
    caller names none. *)
Definition sort_col (c : sortitem) : string :=
  match c with
  | SortCol col => col
  | SortPair col _ => col
  end.

Definition sort_clean (self : PostgresTable) (sort : option (list sortitem)) : bool :=
  match sort with
  | Some l => forallb (fun c => no_percent (sort_col c)) l
  | None =>
      match _sort self with
      | Some own => no_percent own
      | None => true
      end
  end.

(** ** More methods of the table *)




Section Reads.

Context {database : Type}.
Variable pg_execute :
  Composable -> list param -> database -> result (database * cursor).

Notation "'let*' x := m 'in' k" := (bind m (fun x => k))
  (at level 10, x pattern, m at level 100, k at level 200, only parsing).

(** [exists]: [lucky(query, projection=1) is not None]. *)
Definition exists_ (query : list (string * pyval)) : M database bool :=
  let* r := lucky pg_execute query Proj1 0 in
  ret (negb (is_none r)).


End Reads.

(** A method respects a relation between the state it starts in and the
    state it leaves, whether it returns or raises. *)
Definition respects {database A} (R : relation (world database)) (m : M database A)
    : Prop :=
  forall w r w', m w = (r, w') -> R w w'.

(** Nothing was committed: the committed database is the one before. *)
Definition same_committed {database} : relation (world database) :=
  fun w w' => committed w' = committed w.

(** The trace only grows. *)
Definition log_grows {database} : relation (world database) :=
  fun w w' => exists evs, log w' = log w ++ evs.

(** A method that commits at its very end or not at all: either the
    committed database is the one before, or the method has returned, was
    asked to commit, has committed all its work, and has left the table
    marked as ordered. *)
Definition all_or_nothing {database} (commit : bool) (m : M database unit) : Prop :=
  forall w r w',
    m w = (r, w') ->
    committed w' = committed w
    \/ (r = Ok tt /\ commit = true /\ committed w' = working w'
        /\ _out_of_order (self w') = false).

(** The trace of the insertion branch of [upsert]. *)
Definition insert_values (dat : list (string * pyval)) : list param :=
  (fun kv => Plain kv.2) <$> dat.



(** ** Schema changes: [add_column] and [drop_column] *)

(** [types_whitelist]. *)
Definition types_whitelist : list string :=
  ["int2"; "smallint"; "smallserial"; "serial2";
   "int4"; "int"; "integer"; "serial"; "serial4";
   "int8"; "bigint"; "bigserial"; "serial8";
   "numeric"; "decimal";
   "float4"; "real";
   "float8"; "double precision";
   "boolean"; "bool";
   "text"; "char"; "character"; "character varying"; "varchar";
   "json"; "jsonb"; "xml";
   "date"; "interval"; "time"; "time without time zone"; "time with time zone"; "timetz";
   "timestamp"; "timestamp without time zone"; "timestamp with time zone"; "timestamptz";
   "bytea"; "bit"; "bit varying"; "varbit";
   "point"; "line"; "lseg"; "path"; "box"; "polygon"; "circle";
   "tsquery"; "tsvector";
   "txid_snapshot"; "uuid";
   "cidr"; "inet"; "macaddr";
   "money"; "pg_lsn"].

(** [s.lower()] on ASCII. *)
Definition lower_char (c : Ascii.ascii) : Ascii.ascii :=
  let n := Ascii.nat_of_ascii c in
  if (65 <=? n)%nat && (n <=? 90)%nat then Ascii.ascii_of_nat (n + 32) else c.

Fixpoint str_lower (s : string) : string :=
  match s with
  | EmptyString => EmptyString
  | String c s' => String (lower_char c) (str_lower s')
  end.

(** [l.remove(x)]: the first occurrence goes. *)
Fixpoint list_remove (x : string) (l : list string) : list string :=
  match l with
  | [] => []
  | y :: rest => if String.eqb y x then rest else y :: list_remove x rest
  end.

Definition set_col_type (m : gmap string string) (t : PostgresTable) : PostgresTable :=
  {| search_table := search_table t; _label_col := _label_col t;
     _count_cutoff := _count_cutoff t; _id_ordered := _id_ordered t;
     _out_of_order := _out_of_order t; _stats_valid := _stats_valid t;
     _col_type := m; has_id := has_id t;
     _search_cols := _search_cols t; extra_table := extra_table t;
     _extra_cols := _extra_cols t; _sort_keys := _sort_keys t;
     _primary_sort := _primary_sort t; _sort := _sort t; total := total t |}.

Definition set_search_cols (cols : list string) (t : PostgresTable) : PostgresTable :=
  {| search_table := search_table t; _label_col := _label_col t;
     _count_cutoff := _count_cutoff t; _id_ordered := _id_ordered t;
     _out_of_order := _out_of_order t; _stats_valid := _stats_valid t;
     _col_type := _col_type t; has_id := has_id t;
     _search_cols := cols; extra_table := extra_table t;
     _extra_cols := _extra_cols t; _sort_keys := _sort_keys t;
     _primary_sort := _primary_sort t; _sort := _sort t; total := total t |}.

Definition set_extra_cols (cols : list string) (t : PostgresTable) : PostgresTable :=
  {| search_table := search_table t; _label_col := _label_col t;
     _count_cutoff := _count_cutoff t; _id_ordered := _id_ordered t;
     _out_of_order := _out_of_order t; _stats_valid := _stats_valid t;
     _col_type := _col_type t; has_id := has_id t;
     _search_cols := _search_cols t; extra_table := extra_table t;
     _extra_cols := cols; _sort_keys := _sort_keys t;
     _primary_sort := _primary_sort t; _sort := _sort t; total := total t |}.

(** The statements of [add_column] and [drop_column]. *)
Definition add_column_sql (table name datatype : string) : Composable :=
  "ALTER TABLE " +:+ Identifier table +:+ " ADD COLUMN " +:+ Identifier name
    +:+ " " +:+ datatype.

Definition drop_column_sql (table name : string) : Composable :=
  "ALTER TABLE " +:+ Identifier table +:+ " DROP COLUMN " +:+ Identifier name.

Definition drop_indexes_sql : Composable :=
  "DELETE FROM meta_indexes WHERE table_name = %s AND columns @> %s".

Section Schema.

Context {database : Type}.
Variable pg_execute :
  Composable -> list param -> database -> result (database * cursor).

(** Whether one of the patterns of [param_types_whitelist] matches; the
    regular expressions themselves are not modelled. *)
Variable param_type_match : string -> bool.

Notation "'let*' x := m 'in' k" := (bind m (fun x => k))
  (at level 10, x pattern, m at level 100, k at level 200, only parsing).

(** [add_column].  The type is recorded in [_col_type] before the table
    is chosen, and the datatype goes into the statement as it is. *)
Definition add_column (name datatype : string) (extra commit : bool)
    : M database unit :=
  let* t := get_self in
  if bool_decide (name ∈ _search_cols t) then
    raise (ValueError "%s already has column %s")
  else if bool_decide (name ∈ _extra_cols t) then
    raise (ValueError "%s already has column %s")
  else if negb (bool_decide (str_lower datatype ∈ types_whitelist))
          && negb (param_type_match (str_lower datatype)) then
    raise (ValueError "%s is not a valid type")
  else
    let* _ := modify_self (fun t => set_col_type (<[name := datatype]> (_col_type t)) t) in
    let* table :=
      (if extra then
         match extra_table t with
         | None => raise (ValueError "No extra table")
         | Some e => ret e
         end
       else ret (search_table t)) in
    let* _ := _execute pg_execute (add_column_sql table name datatype) [] false in
    let* _ :=
      (if negb (String.eqb name "id") then
         if extra then modify_self (fun t => set_extra_cols (_extra_cols t ++ [name]) t)
         else modify_self (fun t => set_search_cols (_search_cols t ++ [name]) t)
       else ret tt) in
    if commit then conn_commit else ret tt.

(** [drop_column].  The column leaves the column list before the
    statement that drops it is executed. *)
Definition drop_column (name : string) (commit : bool) : M database unit :=
  let* t := get_self in
  if bool_decide (name ∈ _sort_keys t) then
    raise (ValueError "Sorting for %s depends on %s; change default sort order with set_sort() before dropping column")
  else
    let* table :=
      (if bool_decide (name ∈ _search_cols t) then
         let* _ := _execute pg_execute drop_indexes_sql
                     [Plain (PStr (search_table t)); Plain (PList [PStr name])] false in
         let* _ := modify_self
                     (fun t => set_search_cols (list_remove name (_search_cols t)) t) in
         ret (Some (search_table t))
       else if bool_decide (name ∈ _extra_cols t) then
         let* _ := modify_self
                     (fun t => set_extra_cols (list_remove name (_extra_cols t)) t) in
         ret (extra_table t)
       else raise (ValueError "%s is not a column of %s")) in
    let* table := lift (match table with
                        | Some tb => Ok tb
                        | None => Raise TypeError
                        end) in
    let* _ := _execute pg_execute (drop_column_sql table name) [] commit in
    modify_self (fun t => set_col_type (delete name (_col_type t)) t).

End Schema.

(** ** The key of the count cache *)

(** The order of the items of a dictionary by key. *)
Definition key_le (a b : string * pyval) : Prop := String.le a.1 b.1.

(** ** Result dictionaries *)

(** No value of the dictionary is [None]. *)
Definition no_null (D : list (string * pyval)) : Prop :=
  Forall (fun kv => kv.2 <> PNone) D.

(** ** Buckets: the first loop of [_split_buckets] *)

(** A break point, or the [None] put at both ends of the sorted list. *)
Definition py_of_bound (o : option Z) : pyval :=
  match o with
  | Some z => PInt z
  | None => PNone
  end.

(** [zip(divisions[:-3], divisions[1:-2], divisions[2:-1], divisions[3:])]. *)
Definition windows (divisions : list (option Z))
    : list (option Z * option Z * option Z * option Z) :=
  let n := length divisions in
  zip (zip (zip (take (n - 3) divisions)
                (drop 1 (take (n - 2) divisions)))
           (drop 2 (take (n - 1) divisions)))
      (drop 3 divisions).

(** The bucket of one window: the point [b] when [b == c], otherwise the
    interval from [b] to [c], open or closed at its ends as the neighbours
    and [include_upper] say. *)
Definition bucket_of (col : string) (include_upper : bool)
    (w : option Z * option Z * option Z * option Z) : pyval :=
  let '(a, b, c, d) := w in
  if bool_decide (b = c) then PDict [(col, py_of_bound b)]
  else
    let gt := if include_upper then true else bool_decide (a = b) in
    let lt := if include_upper then bool_decide (c = d) else true in
    PDict [(col, PDict [((if gt then "$gt" else "$gte"), py_of_bound b);
                        ((if lt then "$lt" else "$lte"), py_of_bound c)])].

(** The buckets of one column: a [ValueError] for fewer than two break
    points, otherwise one bucket for each pair of neighbours among the
    sorted break points. *)
Definition expand_divisions (col : string) (divisions : list Z) (include_upper : bool)
    : result (list pyval) :=
  if (length divisions <? 2)%nat then Raise (ValueError EmptyString)
  else
    Ok (bucket_of col include_upper
          <$> windows ([None] ++ (Some <$> merge_sort Z.le divisions) ++ [None])).

(** [expanded_buckets], for the columns of [buckets] in order. *)
Fixpoint expanded_buckets (buckets : list (string * list Z)) (include_upper : bool)
    : result (list (list pyval)) :=
  match buckets with
  | [] => Ok []
  | (col, divisions) :: rest =>
      here ← expand_divisions col divisions include_upper ;
      more ← expanded_buckets rest include_upper ;
      Ok (here :: more)
  end.

(** What a bucket asks of the integer [x] in its column: to be the point,
    or to lie within each bound of the interval. *)
Definition bound_holds (x : Z) (op : string) (bound : pyval) : bool :=
  match bound with
  | PInt z =>
      if String.eqb op "$gt" then z <? x
      else if String.eqb op "$gte" then z <=? x
      else if String.eqb op "$lt" then x <? z
      else if String.eqb op "$lte" then x <=? z
      else false
  | _ => false
  end.

Definition bucket_holds (col : string) (x : Z) (bucket : pyval) : bool :=
  match bucket with
  | PDict [(c, v)] =>
      String.eqb c col &&
      match v with
      | PInt z => x =? z
      | PDict bounds => forallb (fun kv => bound_holds x kv.1 kv.2) bounds
      | _ => false
      end
  | _ => false
  end.

(** The number of buckets that hold [x]. *)
Definition buckets_holding (col : string) (x : Z) (buckets : list pyval) : nat :=
  length (List.filter (bucket_holds col x) buckets).

(** The number of times [v] is given as a break point. *)
Definition occurrences (v : Z) (l : list Z) : nat :=
  length (List.filter (Z.eqb v) l).

(** No break point three times in a row. *)
Fixpoint no_triple (l : list Z) : bool :=
  match l with
  | b :: tl =>
      match tl with
      | c :: d :: _ => negb ((b =? c) && (c =? d)) && no_triple tl
      | _ => true
      end
  | [] => true
  end.

(** Whether [l] starts with [b]. *)
Definition starts_with (b : Z) (l : list Z) : bool :=
  match l with
  | c :: _ => b =? c
  | [] => false
  end.

(** * Properties *)

(** ** QueryTranslator *)

Lemma _parse_dict_unfold self items outer :
  _parse_dict self (PDict items) outer =
    match items with
    | [] => Ok None
    | _ => pairs ← parse_items self outer items ; Ok (finish_items pairs)
    end.
Proof. destruct items as [|[key value] rest]; reflexivity. Qed.

(** The examples of the docstrings, with the dictionaries in the order in
    which the docstrings show them to be iterated. *)
Example _parse_special_docstring_lte :
  _parse_special nf_fields "$lte" (PInt 5) (ColName "degree")
    = Ok (Some (Identifier "degree" +:+ " <= %s", [Plain (PInt 5)])).
Proof. reflexivity. Qed.

Example _parse_special_docstring_or :
  _parse_special nf_fields "$or"
    (PList [PDict [("degree", PDict [("$lte", PInt 5)])];
            PDict [("class_number", PDict [("$gte", PInt 3)])]]) NoCol
    = Ok (Some ("(" +:+ Identifier "degree" +:+ " <= %s OR "
                  +:+ Identifier "class_number" +:+ " >= %s)",
                [Plain (PInt 5); Plain (PInt 3)])).
Proof. reflexivity. Qed.

Example _parse_special_docstring_and_column :
  _parse_special nf_fields "$and"
    (PList [PDict [("$gte", PInt 5)]; PDict [("$lte", PInt 10)]]) (ColName "degree")
    = Ok (Some ("(" +:+ Identifier "degree" +:+ " >= %s AND "
                  +:+ Identifier "degree" +:+ " <= %s)",
                [Plain (PInt 5); Plain (PInt 10)])).
Proof. reflexivity. Qed.

Example _parse_dict_docstring_range :
  _parse_dict nf_fields
    (PDict [("r2", PInt 1);
            ("degree", PDict [("$lte", PInt 8); ("$gte", PInt 4)])]) NoCol
    = Ok (Some (Identifier "r2" +:+ " = %s AND " +:+ Identifier "degree"
                  +:+ " <= %s AND " +:+ Identifier "degree" +:+ " >= %s",
                [Plain (PInt 1); Plain (PInt 8); Plain (PInt 4)])).
Proof. reflexivity. Qed.

Example _parse_dict_docstring_empty :
  _parse_dict nf_fields (PDict []) NoCol = Ok None.
Proof. reflexivity. Qed.

Example _parse_dict_dotted_key :
  _parse_dict nf_fields (PDict [("ramps.1.b", PInt 7)]) NoCol
    = Ok (Some (Identifier "ramps" +:+ "->1->" +:+ squote +:+ "b" +:+ squote
                  +:+ " = %s", [Json (PInt 7)])).
Proof. reflexivity. Qed.

Example _build_query_docstring_limit :
  _build_query nf_fields [("class_number", PInt 1)] (Some 20) 0 None
    = Ok (" WHERE " +:+ Identifier "class_number" +:+ " = %s ORDER BY "
            +:+ Identifier "id" +:+ " LIMIT %s",
          [Plain (PInt 1); Plain (PInt 20)]).
Proof. reflexivity. Qed.

Lemma parse_items_cons self outer key value rest :
  parse_items self outer ((key, value) :: rest) =
    (here ← parse_item self outer key value ;
     more ← parse_items self outer rest ;
     Ok (match here with Some p => p :: more | None => more end)).
Proof. reflexivity. Qed.

Lemma plain_key_spec key :
  plain_key key = true ->
  String.eqb key "" = false /\ startswith_dollar key = false
    /\ contains_char "."%char key = false.
Proof.
  unfold plain_key. rewrite !andb_true_iff, !negb_true_iff. tauto.
Qed.

Lemma _parse_key_plain self key ty :
  contains_char "."%char key = false ->
  _col_type self !! key = Some ty ->
  (String.eqb key "id" || bool_decide (key ∈ _search_cols self)) = true ->
  _parse_key self key =
    Ok {| ki_expr := Identifier key; ki_outer := ColName key;
          ki_json := String.eqb ty "jsonb" |}.
Proof.
  intros Hdot Hty Hcol. unfold _parse_key. rewrite Hdot. cbn.
  rewrite Hty. cbn.
  destruct (String.eqb key "id"); cbn in *; [reflexivity|].
  rewrite Hcol. reflexivity.
Qed.

Lemma parse_item_equality self outer kv :
  equality_item self kv = true ->
  parse_item self outer kv.1 kv.2 = Ok (Some (eq_text kv, [eq_param self kv])).
Proof.
  destruct kv as [key value]. unfold equality_item. cbn [fst snd].
  rewrite !andb_true_iff. intros [[[Hkey Hlit] Hcol] Hty].
  apply plain_key_spec in Hkey as (Hne & Hd & Hdot).
  apply bool_decide_eq_true in Hty as [ty Hty].
  unfold parse_item. rewrite Hne, Hd.
  rewrite (_parse_key_plain self key ty Hdot Hty Hcol). cbn.
  unfold eq_text, eq_param. cbn [fst snd]. rewrite Hty.
  destruct value; try discriminate Hlit; destruct (String.eqb ty "jsonb"); reflexivity.
Qed.

Lemma parse_items_equalities self outer items :
  forallb (equality_item self) items = true ->
  parse_items self outer items =
    Ok ((fun kv => (eq_text kv, [eq_param self kv])) <$> items).
Proof.
  induction items as [|[key value] rest IH]; [reflexivity|].
  cbn [forallb]. rewrite andb_true_iff. intros [Hkv Hrest].
  rewrite parse_items_cons.
  pose proof (parse_item_equality self outer (key, value) Hkv) as Hitem.
  cbn [fst snd] in Hitem. rewrite Hitem.
  rewrite (IH Hrest). reflexivity.
Qed.

Lemma concat_singletons {A B} (f : A -> B) (l : list A) :
  concat ((fun x => [f x]) <$> l) = f <$> l.
Proof. induction l as [|x l IH]; cbn; [reflexivity|]. now rewrite IH. Qed.

(** C7 (as amended).  A query made of equality tests on declared columns
    translates to the conjunction of the tests in the order in which the
    dictionary yields its items, and the parameters are bound in that same
    order; the order in which the table declares its columns plays no
    part. *)
Theorem parse_dict_equalities_follow_iteration_order self items :
  items <> [] ->
  forallb (equality_item self) items = true ->
  _parse_dict self (PDict items) NoCol =
    Ok (Some (join " AND " (eq_text <$> items), eq_param self <$> items)).
Proof.
  intros Hne Hall. rewrite _parse_dict_unfold.
  destruct items as [|kv rest]; [congruence|].
  rewrite (parse_items_equalities self NoCol _ Hall).
  cbn [mbind result_bind]. f_equal.
  unfold finish_items. cbn [fmap list_fmap]. f_equal. f_equal.
  - f_equal. rewrite <- list_fmap_compose. reflexivity.
  - cbn [concat app fst snd]. f_equal.
    rewrite <- list_fmap_compose.
    apply (concat_singletons (eq_param self)).
Qed.

Lemma parse_dict_equalities_follow_iteration_order_witness :
  _parse_dict nf_fields (PDict [("class_number", PInt 6); ("degree", PInt 2)]) NoCol =
    Ok (Some (Identifier "class_number" +:+ " = %s AND " +:+ Identifier "degree" +:+ " = %s",
              [Plain (PInt 6); Plain (PInt 2)])).
Proof.
  apply (parse_dict_equalities_follow_iteration_order nf_fields
           [("class_number", PInt 6); ("degree", PInt 2)]).
  - discriminate.
  - vm_compute. reflexivity.
Defined.

(** C7 (as stated) fails: for the query of the docstring, which yields
    [class_number] before [degree], the parameters are [6, 2], while the
    table declares [degree] before [class_number]. *)
Lemma parse_dict_not_in_declaration_order :
  exists text params,
    _parse_dict nf_fields (PDict [("class_number", PInt 6); ("degree", PInt 2)]) NoCol
      = Ok (Some (text, params))
    /\ params = [Plain (PInt 6); Plain (PInt 2)]
    /\ declaration_order_params nf_fields [("class_number", PInt 6); ("degree", PInt 2)]
        = [Plain (PInt 2); Plain (PInt 6)]
    /\ params <> declaration_order_params nf_fields
                   [("class_number", PInt 6); ("degree", PInt 2)].
Proof.
  eexists _, _. split; [vm_compute; reflexivity|].
  split; [reflexivity|]. split; [vm_compute; reflexivity|].
  vm_compute. discriminate.
Qed.

(** A key that is neither [id] nor a search column is refused by
    [_parse_key], whether it is dotted or not. *)
Lemma _parse_key_unknown_column self key :
  contains_char "."%char key = false ->
  String.eqb key "id" = false ->
  key ∉ _search_cols self ->
  is_ok (_parse_key self key) = false.
Proof.
  intros Hdot Hid Hcol. unfold _parse_key. rewrite Hdot.
  destruct (col_is_jsonb self (Some key)) as [fj|e]; [|reflexivity].
  cbn. rewrite Hid. rewrite bool_decide_eq_false_2 by assumption. reflexivity.
Qed.

Lemma parse_items_raise self outer items key value :
  (key, value) ∈ items ->
  is_ok (parse_item self outer key value) = false ->
  is_ok (parse_items self outer items) = false.
Proof.
  intros Hin Hbad. induction items as [|[k v] rest IH].
  - inversion Hin.
  - rewrite parse_items_cons.
    destruct (parse_item self outer k v) as [here|e] eqn:Hhere; [|reflexivity].
    cbn. apply elem_of_cons in Hin as [Heq|Hin].
    + inversion Heq; subst. rewrite Hhere in Hbad. discriminate.
    + specialize (IH Hin).
      destruct (parse_items self outer rest); [discriminate|reflexivity].
Qed.

(** Translation raises when the dictionary has a key that is neither [id]
    nor a search column: the key is not ignored. *)
Lemma _parse_dict_unknown_column self outer items key value :
  (key, value) ∈ items ->
  plain_key key = true ->
  String.eqb key "id" = false ->
  key ∉ _search_cols self ->
  is_ok (_parse_dict self (PDict items) outer) = false.
Proof.
  intros Hin Hkey Hid Hcol. rewrite _parse_dict_unfold.
  destruct items as [|kv rest]; [inversion Hin|].
  apply plain_key_spec in Hkey as (Hne & Hd & Hdot).
  assert (is_ok (parse_item self outer key value) = false) as Hbad.
  { unfold parse_item. rewrite Hne, Hd.
    pose proof (_parse_key_unknown_column self key Hdot Hid Hcol) as Hk.
    destruct (_parse_key self key); [discriminate|reflexivity]. }
  pose proof (parse_items_raise self outer _ key value Hin Hbad) as Hr.
  destruct (parse_items self outer (kv :: rest)); [discriminate|reflexivity].
Qed.

(** C1.  [$nin] is translated to a text whose opening parenthesis is never
    closed, where the sibling operator [$in] gives a balanced text; the
    parameter list has one entry for the one placeholder in both cases. *)
Theorem parse_dict_nin_unbalanced :
  _parse_dict nf_fields (PDict [("degree", PDict [("$nin", PList [PInt 1; PInt 2])])]) NoCol
    = Ok (Some ("NOT (" +:+ Identifier "degree" +:+ " = ANY(%s)",
                [Array (PList [PInt 1; PInt 2])]))
  /\ paren_scan InCode 0 ("NOT (" +:+ Identifier "degree" +:+ " = ANY(%s)") = Some 1%nat
  /\ balanced ("NOT (" +:+ Identifier "degree" +:+ " = ANY(%s)") = false
  /\ placeholders ("NOT (" +:+ Identifier "degree" +:+ " = ANY(%s)") = 1%nat
  /\ _parse_dict nf_fields (PDict [("degree", PDict [("$in", PList [PInt 1; PInt 2])])]) NoCol
    = Ok (Some (Identifier "degree" +:+ " = ANY(%s)", [Array (PList [PInt 1; PInt 2])]))
  /\ balanced (Identifier "degree" +:+ " = ANY(%s)") = true.
Proof. repeat split; vm_compute; reflexivity. Qed.

(** ** ProjectionResolver *)

Example _parse_projection_docstring_list :
  _parse_projection nf_fields (ProjList ["label"; "unitsGmodule"])
    = Ok (["id"; "label"], ["unitsGmodule"], 1).
Proof. reflexivity. Qed.

Example _parse_projection_docstring_list_id :
  _parse_projection nf_fields (ProjList ["id"; "label"; "unitsGmodule"])
    = Ok (["id"; "label"], ["unitsGmodule"], 0).
Proof. reflexivity. Qed.

Example _parse_projection_docstring_exclude :
  _parse_projection curves (ProjDict [("rank", PBool false)])
    = Ok (["lmfdb_label"; "conductor"], [], 0).
Proof. reflexivity. Qed.

(** What projection 0 does for every table: it looks for a search column
    named [label] and never reads [_label_col]. *)
Lemma _parse_projection_0 self :
  _parse_projection self Proj0 =
    if bool_decide ("label" ∈ _search_cols self) then Ok (["label"], [], 0)
    else Raise (RuntimeError "label not column of %s").
Proof. unfold _parse_projection. destruct (bool_decide _); reflexivity. Qed.

(** C8.  Projection 0 ignores the label column the table declares: with
    the label in the column [lmfdb_label] it raises, and without a declared
    label column it resolves to a column that happens to be named
    [label]. *)
Theorem parse_projection_0_ignores_label_col :
  _label_col curves = Some "lmfdb_label"
  /\ "lmfdb_label" ∈ _search_cols curves
  /\ _parse_projection curves Proj0 = Raise (RuntimeError "label not column of %s")
  /\ _label_col plain_table = None
  /\ _parse_projection plain_table Proj0 = Ok (["label"], [], 0).
Proof.
  repeat split; try reflexivity.
  cbn. apply elem_of_cons. now left.
Qed.

Lemma remove_dups_constant (b : bool) (l : list bool) :
  Forall (fun x => x = b) l -> l <> [] -> remove_dups l = [b].
Proof.
  induction l as [|x l IH]; [congruence|].
  intros Hall _. apply Forall_cons in Hall as [-> Hall].
  cbn [remove_dups]. destruct (decide_rel elem_of b l) as [Hin|Hnin].
  - apply IH; [exact Hall|]. intros ->. inversion Hin.
  - destruct l as [|y l]; [reflexivity|]. exfalso. apply Hnin.
    apply Forall_cons in Hall as [-> _]. apply elem_of_cons. now left.
Qed.

Lemma projvals_of_constant (b : bool) (d : list (string * pyval)) :
  Forall (fun kv => truthy kv.2 = b) d -> d <> [] -> projvals_of d = [b].
Proof.
  intros Hall Hne. unfold projvals_of. apply remove_dups_constant.
  - apply Forall_fmap. exact Hall.
  - destruct d; [congruence|discriminate].
Qed.

Lemma filter_not_in_nil (d : list (string * pyval)) :
  filter (fun kv => kv.1 ∉ @nil string) d = d.
Proof.
  induction d as [|kv d IH]; [reflexivity|].
  rewrite filter_cons_True by apply not_elem_of_nil. now rewrite IH.
Qed.

Lemma proj_search_loop_rest including cols d :
  (proj_search_loop including cols d).2 = filter (fun kv => kv.1 ∉ cols) d.
Proof.
  revert d. induction cols as [|col cols IH]; intros d.
  - cbn. symmetry. apply filter_not_in_nil.
  - cbn [proj_search_loop].
    specialize (IH (dict_del col d)).
    destruct (proj_search_loop including cols (dict_del col d)) as [out d'].
    cbn [snd] in *. subst d'. unfold dict_del.
    rewrite list_filter_filter. apply list_filter_iff.
    intros kv. rewrite not_elem_of_cons. tauto.
Qed.

Lemma proj_extra_loop_rest including projvals cols d :
  (proj_extra_loop including projvals cols d).2 = filter (fun kv => kv.1 ∉ cols) d.
Proof.
  revert d. induction cols as [|col cols IH]; intros d.
  - cbn. symmetry. apply filter_not_in_nil.
  - cbn [proj_extra_loop].
    specialize (IH (dict_del col d)).
    destruct (proj_extra_loop including projvals cols (dict_del col d)) as [out d'].
    cbn [snd] in *. subst d'. unfold dict_del.
    rewrite list_filter_filter. apply list_filter_iff.
    intros kv. rewrite not_elem_of_cons. tauto.
Qed.

(** With the set of values emptied by [pop], the test [col in projvals]
    fails for every extras column: none is kept when including, all are
    kept when excluding. *)
Lemma proj_extra_loop_cols including cols d :
  (proj_extra_loop including [] cols d).1 = if including then [] else cols.
Proof.
  revert d. induction cols as [|col cols IH]; intros d.
  - destruct including; reflexivity.
  - cbn [proj_extra_loop]. specialize (IH (dict_del col d)).
    destruct (proj_extra_loop including [] cols (dict_del col d)) as [out d'].
    cbn [fst] in *. subst out. destruct including; reflexivity.
Qed.

Lemma filter_none {A} (P : A -> Prop) `{forall x, Decision (P x)} (l : list A) :
  (forall x, x ∈ l -> ~ P x) -> filter P l = [].
Proof.
  induction l as [|x l IH]; intros Hno; [reflexivity|].
  rewrite filter_cons_False by (apply Hno, elem_of_cons; now left).
  apply IH. intros y Hy. apply Hno, elem_of_cons. now right.
Qed.

(** The dictionary case of [_parse_projection] for a dictionary whose
    values all have the truth value [including], on a table with an extras
    table. *)
Lemma _parse_projection_dict_constant self e d including :
  extra_table self = Some e ->
  d <> [] ->
  Forall (fun kv => truthy kv.2 = including) d ->
  _parse_projection self (ProjDict d) =
    match filter (fun kv => kv.1 ∉ _extra_cols self)
                 (filter (fun kv => kv.1 ∉ _search_cols self) (dict_del "id" d)) with
    | [] =>
        Ok (proj_finish
              (proj_search_loop including (_search_cols self) (dict_del "id" d)).1
              (if including then [] else _extra_cols self)
              (match dict_get "id" d with Some v => truthy v | None => false end))
    | _ => Raise (ValueError "%s not column of %s")
    end.
Proof.
  intros He Hne Hall. unfold _parse_projection.
  destruct d as [|kv0 d0] eqn:Hd; [congruence|]. rewrite <- Hd in *.
  rewrite (projvals_of_constant including d Hall Hne).
  pose proof (proj_search_loop_rest including (_search_cols self) (dict_del "id" d)) as Hs.
  destruct (proj_search_loop including (_search_cols self) (dict_del "id" d))
    as [search_cols d1].
  cbn [fst snd] in *. subst d1. rewrite He.
  pose proof (proj_extra_loop_rest including [] (_extra_cols self)
                (filter (fun kv => kv.1 ∉ _search_cols self) (dict_del "id" d))) as Hx.
  pose proof (proj_extra_loop_cols including (_extra_cols self)
                (filter (fun kv => kv.1 ∉ _search_cols self) (dict_del "id" d))) as Hc.
  destruct (proj_extra_loop including [] (_extra_cols self)
              (filter (fun kv => kv.1 ∉ _search_cols self) (dict_del "id" d)))
    as [extra_cols d2].
  cbn [fst snd] in *. subst d2 extra_cols. reflexivity.
Qed.

(** C10.  On a table with an extras table, a dictionary of only true
    values resolves to no extras column and a dictionary of only false
    values resolves to all extras columns, whatever extras columns the
    dictionary names; and naming columns of the table (search columns,
    extras columns or [id]) raises no error. *)
Theorem parse_projection_dict_extras self e d including :
  extra_table self = Some e ->
  d <> [] ->
  Forall (fun kv => truthy kv.2 = including) d ->
  (forall sc ec off,
     _parse_projection self (ProjDict d) = Ok (sc, ec, off) ->
     ec = if including then [] else _extra_cols self)
  /\ ((forall kv, kv ∈ d ->
         kv.1 = "id" \/ kv.1 ∈ _search_cols self \/ kv.1 ∈ _extra_cols self) ->
      exists sc off,
        _parse_projection self (ProjDict d)
          = Ok (sc, (if including then [] else _extra_cols self), off)).
Proof.
  intros He Hne Hall.
  rewrite (_parse_projection_dict_constant self e d including He Hne Hall).
  split.
  - intros sc ec off.
    destruct (filter _ (filter _ (dict_del "id" d))); [|discriminate].
    unfold proj_finish. intros [= _ <- _]. reflexivity.
  - intros Hkeys.
    rewrite filter_none.
    + unfold proj_finish. eexists _, _. reflexivity.
    + intros kv Hin Hnx.
      apply list_elem_of_filter in Hin as [Hns Hin].
      unfold dict_del in Hin. apply list_elem_of_filter in Hin as [Hnid Hin].
      destruct (Hkeys kv Hin) as [?|[?|?]]; contradiction.
Qed.

Lemma parse_projection_dict_extras_witness :
  (exists sc off,
     _parse_projection nf_fields (ProjDict [("label", PBool true); ("reg", PBool true)])
       = Ok (sc, [], off))
  /\ (exists sc off,
        _parse_projection nf_fields (ProjDict [("label", PBool false); ("reg", PBool false)])
          = Ok (sc, ["unitsGmodule"; "reg"], off)).
Proof.
  split.
  - apply (parse_projection_dict_extras nf_fields "nf_fields_extras"
             [("label", PBool true); ("reg", PBool true)] true).
    + reflexivity.
    + discriminate.
    + repeat constructor.
    + intros kv Hin. apply elem_of_cons in Hin as [->|Hin].
      * right. left. cbn. apply elem_of_cons. now left.
      * apply list_elem_of_singleton in Hin as ->. right. right. cbn.
        apply elem_of_cons. right. apply elem_of_cons. now left.
  - apply (parse_projection_dict_extras nf_fields "nf_fields_extras"
             [("label", PBool false); ("reg", PBool false)] false).
    + reflexivity.
    + discriminate.
    + repeat constructor.
    + intros kv Hin. apply elem_of_cons in Hin as [->|Hin].
      * right. left. cbn. apply elem_of_cons. now left.
      * apply list_elem_of_singleton in Hin as ->. right. right. cbn.
        apply elem_of_cons. right. apply elem_of_cons. now left.
Defined.

(** ** The fresh column name of [resort] *)

Lemma append_empty_r (s : string) : s +:+ "" = s.
Proof.
  induction s as [|c s IH]; [reflexivity|].
  change (String c (s +:+ "") = String c s). now rewrite IH.
Qed.

Lemma append_assoc (s1 s2 s3 : string) : (s1 +:+ s2) +:+ s3 = s1 +:+ (s2 +:+ s3).
Proof.
  induction s1 as [|c s1 IH]; [reflexivity|].
  change (String c ((s1 +:+ s2) +:+ s3) = String c (s1 +:+ (s2 +:+ s3))).
  now rewrite IH.
Qed.

Lemma length_append (s1 s2 : string) :
  String.length (s1 +:+ s2) = (String.length s1 + String.length s2)%nat.
Proof.
  induction s1 as [|c s1 IH]; [reflexivity|].
  change (S (String.length (s1 +:+ s2))
          = S (String.length s1 + String.length s2)%nat).
  now rewrite IH.
Qed.

Lemma length_underscores (n : nat) : String.length (underscores n) = n.
Proof.
  induction n as [|n IH]; [reflexivity|].
  change (S (String.length (underscores n)) = S n). now rewrite IH.
Qed.

(** The loop stops at a name that is no column, or it has run out of
    rounds and every name it tried is a column. *)
Lemma fresh_name_spec (fuel : nat) (cols : list string) (name : string) :
  fresh_name fuel cols name ∉ cols
  \/ (fresh_name fuel cols name = name +:+ underscores fuel
      /\ forall i, (i < fuel)%nat -> name +:+ underscores i ∈ cols).
Proof.
  revert name. induction fuel as [|fuel IH]; intros name.
  - right. cbn [fresh_name underscores]. rewrite append_empty_r.
    split; [reflexivity|]. intros i Hi. lia.
  - cbn [fresh_name]. destruct (bool_decide (name ∈ cols)) eqn:Hin.
    + apply bool_decide_eq_true in Hin.
      destruct (IH (name +:+ "_")) as [Hfresh|[Heq Hall]]; [now left|].
      right. split.
      * rewrite Heq. cbn [underscores]. apply append_assoc.
      * intros [|i] Hi.
        -- cbn [underscores]. now rewrite append_empty_r.
        -- cbn [underscores]. rewrite <- append_assoc. apply Hall. lia.
    + apply bool_decide_eq_false in Hin. now left.
Qed.

(** As many rounds as there are columns are enough: the name [resort]
    takes for the new id column is no column of the table. *)
Lemma fresh_name_fresh (cols : list string) :
  fresh_name (length cols) cols "newid" ∉ cols.
Proof.
  destruct (fresh_name_spec (length cols) cols "newid") as [H|[Heq Hall]]; [exact H|].
  intros Hin. rewrite Heq in Hin.
  pose (names := (fun i => "newid" +:+ underscores i) <$> seq 0 (S (length cols))).
  assert (NoDup names) as Hnd.
  { apply NoDup_fmap_2_strong; [|apply NoDup_seq].
    intros i j _ _ Hij. apply (f_equal String.length) in Hij.
    rewrite !length_append, !length_underscores in Hij. lia. }
  assert (forall x, x ∈ names -> x ∈ cols) as Hsub.
  { intros x Hx. apply list_elem_of_fmap in Hx as (i & -> & Hi).
    apply elem_of_seq in Hi.
    destruct (decide (i = length cols)) as [->|Hne]; [exact Hin|].
    apply Hall. lia. }
  pose proof (submseteq_length _ _ (NoDup_submseteq _ _ Hnd Hsub)) as Hlen.
  unfold names in Hlen. rewrite length_fmap, length_seq in Hlen. lia.
Qed.

(** ** The stateful methods *)

Section EngineFacts.

Context {database : Type}.
Variable pg_execute :
  Composable -> list param -> database -> result (database * cursor).
Variable pg_copy_from :
  list (list pyval) -> string -> list string -> database -> result (database * Z).

Implicit Types w : world database.

Lemma _execute_ok sql values commit w db cur :
  pg_execute sql values (working w) = Ok (db, cur) ->
  _execute pg_execute sql values commit w = (Ok cur, executed sql values commit db w).
Proof.
  intros H. unfold _execute, executed. cbn. rewrite H. reflexivity.
Qed.

(** *** resort *)

(** C9.  On an id-ordered table that is not out of order, [resort] with
    its default arguments returns at once: nothing is sent to the
    connection, and the table object, the committed database and the
    working database are what they were. *)
Theorem resort_sorted_is_noop (commit : bool) (w : world database) :
  _id_ordered (self w) = true ->
  _out_of_order (self w) = false ->
  resort pg_execute None None commit w = (Ok tt, w).
Proof.
  intros Hid Hout. unfold resort, bind, get_self. cbn.
  rewrite Hid, Hout. reflexivity.
Qed.

(** *** count and max *)

Lemma count_empty (w : world database) : count pg_execute [] w = (Ok (total (self w)), w).
Proof. reflexivity. Qed.

(** [max('id')] is the cached total minus one; the database is not asked. *)
Lemma max_id (w : world database) :
  max pg_execute "id" w = (Ok (PInt (total (self w) - 1)), w).
Proof. reflexivity. Qed.

(** With a total of at most one, [random] asks [randint] for an empty
    range and fails before any lookup. *)
Lemma random_empty_range (rand : nat -> nat) (p : projection) (w : world database) :
  total (self w) <= 1 ->
  random pg_execute rand p w = (Raise (ValueError "empty range for randrange()"), w).
Proof.
  intros Ht. unfold random, bind. rewrite max_id.
  cbn. unfold bind, lift, randint.
  destruct (Z.ltb_spec (total (self w) - 1) 1) as [_|Hge]; [reflexivity|lia].
Qed.

(** The numbers [randint] draws lie in the range it is asked for. *)
Lemma randint_range (a b : Z) (raw : nat) :
  a <= b -> exists n, randint a (PInt b) raw = Ok n /\ a <= n <= b.
Proof.
  intros Hab. unfold randint. destruct (Z.ltb_spec b a) as [|_]; [lia|].
  eexists. split; [reflexivity|].
  pose proof (Z.mod_pos_bound (Z.of_nat raw) (b - a + 1)). lia.
Qed.

Lemma self_executed sql values commit db w :
  self (executed sql values commit db w) = self w.
Proof. unfold executed. destruct commit; reflexivity. Qed.

Lemma working_executed sql values commit db w :
  working (executed sql values commit db w) = db.
Proof. unfold executed. destruct commit; reflexivity. Qed.

Lemma committed_executed_commit sql values db w :
  committed (executed sql values true db w) = db.
Proof. reflexivity. Qed.

Lemma committed_executed_nocommit sql values db w :
  committed (executed sql values false db w) = committed w.
Proof. reflexivity. Qed.

Lemma log_executed_commit sql values db w :
  log (executed sql values true db w) = log w ++ [EExecute sql values; ECommit].
Proof. unfold executed. cbn. now rewrite <- app_assoc. Qed.

Lemma log_executed_nocommit sql values db w :
  log (executed sql values false db w) = log w ++ [EExecute sql values].
Proof. reflexivity. Qed.

Lemma quick_count_miss query w db1 :
  pg_execute (quick_count_sql (self w)) (quick_count_params query) (working w)
    = Ok (db1, []) ->
  quick_count pg_execute query w =
    (Ok None, executed (quick_count_sql (self w)) (quick_count_params query) true db1 w).
Proof.
  intros Hq. unfold quick_count, bind, get_self.
  rewrite (_execute_ok _ _ true w db1 _ Hq). reflexivity.
Qed.

Lemma quick_count_hit query w db1 v rec rows n :
  pg_execute (quick_count_sql (self w)) (quick_count_params query) (working w)
    = Ok (db1, (v :: rec) :: rows) ->
  py_int v = Ok n ->
  quick_count pg_execute query w =
    (Ok (Some n),
     executed (quick_count_sql (self w)) (quick_count_params query) true db1 w).
Proof.
  intros Hq Hn. unfold quick_count, bind, get_self.
  rewrite (_execute_ok _ _ true w db1 _ Hq).
  unfold rowcount. cbn [length negb Z.eqb Z.of_nat]. unfold lift.
  cbn [fetchone_0 first_col]. rewrite Hn. reflexivity.
Qed.

(** C3 (as amended).  [count] of the empty query is the cached total.  Of
    another query it is the cached count when the cache has a row for the
    query; otherwise it is the result of the full count, and the two
    SELECT statements are all that is executed: the result is not written
    to the count cache. *)
Theorem count_cases (query : list (string * pyval)) (w : world database) :
  (query = [] -> count pg_execute query w = (Ok (total (self w)), w))
  /\ (forall db1 v rec rows n,
        query <> [] ->
        pg_execute (quick_count_sql (self w)) (quick_count_params query) (working w)
          = Ok (db1, (v :: rec) :: rows) ->
        py_int v = Ok n ->
        exists w',
          count pg_execute query w = (Ok n, w')
          /\ self w' = self w
          /\ log w' = log w ++
               [EExecute (quick_count_sql (self w)) (quick_count_params query); ECommit])
  /\ (forall db1 c db2 v rec rows n,
        query <> [] ->
        pg_execute (quick_count_sql (self w)) (quick_count_params query) (working w)
          = Ok (db1, []) ->
        _parse_dict (self w) (PDict query) NoCol = Ok c ->
        pg_execute (count_sql (self w) c).1 (count_sql (self w) c).2 db1
          = Ok (db2, (v :: rec) :: rows) ->
        py_int v = Ok n ->
        exists w',
          count pg_execute query w = (Ok n, w')
          /\ self w' = self w
          /\ working w' = db2 /\ committed w' = db2
          /\ log w' = log w ++
               [EExecute (quick_count_sql (self w)) (quick_count_params query); ECommit;
                EExecute (count_sql (self w) c).1 (count_sql (self w) c).2; ECommit]).
Proof.
  split; [intros ->; reflexivity|]. split.
  - intros db1 v rec rows n Hne Hq Hn.
    destruct query as [|kv query]; [congruence|].
    eexists. unfold count, bind.
    rewrite (quick_count_hit _ w db1 v rec rows n Hq Hn).
    split; [reflexivity|]. split; [apply self_executed|].
    apply log_executed_commit.
  - intros db1 c db2 v rec rows n Hne Hq Hc Hs Hn.
    destruct query as [|kv query]; [congruence|].
    eexists. unfold count, bind.
    rewrite (quick_count_miss _ w db1 Hq).
    unfold _slow_count, bind, get_self, lift.
    rewrite self_executed, Hc.
    rewrite <- (working_executed (quick_count_sql (self w))
                  (quick_count_params (kv :: query)) true db1 w) in Hs.
    rewrite (_execute_ok _ _ true _ db2 _ Hs).
    cbn [fetchone_0 first_col ret]. rewrite Hn.
    split; [reflexivity|].
    rewrite !self_executed, !log_executed_commit, <- app_assoc.
    repeat (split; [reflexivity|]). reflexivity.
Qed.

(** *** reload *)

Variable restore_pkeys : string -> M database unit.
Variable restore_indexes : string -> M database unit.
Variable refresh_stats : string -> M database unit.
Variable _swap_in_tmp : list string -> bool -> M database unit.

(** A statement executed without commit leaves the table object and the
    committed database alone. *)
Lemma _execute_nocommit_frame sql values w r w' :
  _execute pg_execute sql values false w = (r, w') ->
  self w' = self w /\ committed w' = committed w
  /\ exists evs, log w' = log w ++ EExecute sql values :: evs
                 /\ forallb staging_event evs = true.
Proof.
  unfold _execute. cbn.
  destruct (pg_execute sql values (working w)) as [[db cur]|e].
  - intros [= <- <-]. cbn. repeat split. exists []. split; reflexivity.
  - destruct e; intros [= <- <-]; cbn; repeat split;
      try (exists []; split; reflexivity).
    exists [ERollback]. split; [|reflexivity]. now rewrite <- app_assoc.
Qed.

Lemma _clone_frame table tmp_table w r w' :
  _clone pg_execute table tmp_table w = (r, w') ->
  self w' = self w /\ committed w' = committed w
  /\ exists evs, log w' = log w ++ evs /\ forallb staging_event evs = true.
Proof.
  unfold _clone, bind.
  destruct (_execute pg_execute _ [] false w) as [r0 w0] eqn:He.
  apply _execute_nocommit_frame in He as (Hs & Hc & evs & Hl & Hev).
  intros H. assert (w' = w0) as -> by (destruct r0; inversion H; reflexivity).
  repeat split; try assumption.
  eexists. split; [exact Hl|]. cbn [forallb]. rewrite Hev.
  rewrite andb_true_r. reflexivity.
Qed.

Lemma _copy_from_frame f table columns cur_count includes_ids w r w' :
  _copy_from pg_copy_from f table columns cur_count includes_ids w = (r, w') ->
  self w' = self w /\ committed w' = committed w
  /\ exists evs, log w' = log w ++ evs /\ forallb staging_event evs = true.
Proof.
  unfold _copy_from. cbn.
  destruct (pg_copy_from _ table _ (working w)) as [[db n]|e];
    intros [= <- <-]; cbn; repeat split.
  - eexists [_]. split; reflexivity.
  - eexists [_; _]. split; [now rewrite <- app_assoc|reflexivity].
Qed.

(** The staging loop neither commits nor touches the table object, and
    all it sends to the connection is the cloning and the loading. *)
Lemma stage_files_frame todo includes_ids tables counts w r w' :
  stage_files pg_execute pg_copy_from todo includes_ids tables counts w = (r, w') ->
  self w' = self w /\ committed w' = committed w
  /\ exists evs, log w' = log w ++ evs /\ forallb staging_event evs = true.
Proof.
  revert tables counts w.
  induction todo as [|[[[table cols] addid] filename] rest IH]; intros tables counts w.
  - intros [= <- <-]. repeat split. exists []. now rewrite app_nil_r.
  - cbn [stage_files]. destruct filename as [f|]; [|apply IH].
    unfold bind at 1. unfold lift at 1.
    destruct table as [tb|].
    2:{ intros [= <- <-]. repeat split. exists []. now rewrite app_nil_r. }
    unfold bind at 1.
    destruct (_clone pg_execute tb (tb +:+ "_tmp") w) as [r1 w1] eqn:H1.
    apply _clone_frame in H1 as (Hs1 & Hc1 & ev1 & Hl1 & He1).
    destruct r1 as [[]|e].
    2:{ intros [= <- <-]. repeat split; try assumption. now exists ev1. }
    unfold bind at 1.
    destruct (_copy_from pg_copy_from f (tb +:+ "_tmp") _ 0 includes_ids w1)
      as [r2 w2] eqn:H2.
    apply _copy_from_frame in H2 as (Hs2 & Hc2 & ev2 & Hl2 & He2).
    destruct r2 as [n|e].
    2:{ intros [= <- <-]. repeat split; try congruence.
        exists (ev1 ++ ev2). rewrite Hl2, Hl1, <- app_assoc. split; [reflexivity|].
        rewrite forallb_app, He1, He2. reflexivity. }
    intros H. apply IH in H as (Hs3 & Hc3 & ev3 & Hl3 & He3).
    repeat split; try congruence.
    exists (ev1 ++ ev2 ++ ev3). rewrite Hl3, Hl2, Hl1, <- !app_assoc.
    split; [reflexivity|]. rewrite !forallb_app, He1, He2, He3. reflexivity.
Qed.

(** With only a search file and an extras file, the counts the staging
    loop records are the row counts [copy_from] reports for the two
    loads. *)
Lemma stage_two_files (sf ef : file) (includes_ids : bool) (w : world database)
    (e : string) (db1 db2 db3 db4 : database) (c1 c3 : cursor) (n m : Z) :
  extra_table (self w) = Some e ->
  search_table (self w) <> e ->
  let st := search_table (self w) in
  let clone tb := "CREATE TABLE " +:+ Identifier (tb +:+ "_tmp") +:+ " (LIKE "
                    +:+ Identifier tb +:+ ")" in
  let quoted cols := (fun col => dquote +:+ col +:+ dquote) <$> cols in
  let rows (f : file) :=
    if includes_ids then f
    else imap (fun i line => PInt (Z.of_nat i + 0 + 1) :: line) f in
  pg_execute (clone st) [] (working w) = Ok (db1, c1) ->
  pg_copy_from (rows sf) (st +:+ "_tmp") (quoted ("id" :: _search_cols (self w))) db1
    = Ok (db2, n) ->
  pg_execute (clone e) [] db2 = Ok (db3, c3) ->
  pg_copy_from (rows ef) (e +:+ "_tmp") (quoted ("id" :: _extra_cols (self w))) db3
    = Ok (db4, m) ->
  exists w1,
    stage_files pg_execute pg_copy_from
      (reload_files (self w) (Some sf) (Some ef) None None) includes_ids [] [] w
      = (Ok ([st; e], [(st, n); (e, m)]), w1)
    /\ working w1 = db4.
Proof.
  intros He Hne st clone quoted rows H1 H2 H3 H4.
  subst st clone quoted rows. cbn beta in *.
  unfold reload_files. rewrite He. cbn [stage_files].
  unfold _clone, _copy_from, _execute, bind, lift, ret. cbv beta.
  cbn [working record set_working self committed log].
  rewrite H1. cbn [working record set_working self committed log].
  rewrite H2. cbn [working record set_working self committed log].
  rewrite H3. cbn [working record set_working self committed log].
  rewrite H4. cbn [dict_set app].
  assert (String.eqb (search_table (self w)) e = false) as ->
    by (apply String.eqb_neq; exact Hne).
  eexists. split; reflexivity.
Qed.

(** C5.  When a search file and an extras file are given and the number
    of rows loaded into the staged search table differs from the number
    loaded into the staged extras table, [reload] rolls back and raises
    the mismatch error.  Up to then only clones were created and files
    loaded, without a commit: no primary key was built, nothing was
    re-sorted, re-indexed or re-counted, and no table was swapped,
    whatever those later steps are.  The table object and the committed
    database are unchanged, and the working database is the committed one
    again. *)
Theorem reload_row_count_mismatch
    (sf ef : file) (countsfile statsfile : option file) (includes_ids : bool)
    (resort_arg : option bool) (reindex : bool) (restat : option bool)
    (kwds : list (string * pyval)) (w w1 : world database) (e : string)
    (tables : list string) (counts : list (string * Z)) (n m : Z) :
  extra_table (self w) = Some e ->
  dict_has "columns" kwds = false ->
  stage_files pg_execute pg_copy_from
    (reload_files (self w) (Some sf) (Some ef) countsfile statsfile)
    includes_ids [] [] w = (Ok (tables, counts), w1) ->
  dict_get (search_table (self w)) counts = Some n ->
  dict_get e counts = Some m ->
  n <> m ->
  reload pg_execute pg_copy_from restore_pkeys restore_indexes refresh_stats
         _swap_in_tmp (Some sf) (Some ef) countsfile statsfile includes_ids
         resort_arg reindex restat kwds w
    = (Raise (RuntimeError "Different number of rows in searchfile and extrafile"),
       do_rollback w1)
  /\ self (do_rollback w1) = self w
  /\ committed (do_rollback w1) = committed w
  /\ working (do_rollback w1) = committed w
  /\ exists evs,
       log (do_rollback w1) = log w ++ evs ++ [ERollback]
       /\ forallb staging_event evs = true.
Proof.
  intros He Hk Hstage Hn Hm Hnm.
  pose proof (stage_files_frame _ _ _ _ _ _ _ Hstage) as (Hs & Hc & evs & Hl & Hev).
  split.
  - unfold reload, bind, get_self, lift. cbn [_check_file_input].
    rewrite He, Hk. cbn [bool_decide andb].
    rewrite !bool_decide_eq_true_2 by discriminate.
    rewrite !bool_decide_eq_false_2 by discriminate.
    cbn [andb]. rewrite Hstage. rewrite Hn, Hm. unfold ret.
    destruct (Z.eqb_spec n m) as [|_]; [contradiction|]. reflexivity.
  - cbn. repeat split; try congruence.
    exists evs. rewrite Hl, <- app_assoc. split; [reflexivity|exact Hev].
Qed.

(** *** search *)

Lemma dict_get_set_eq {V} (k : string) (v : V) (d : list (string * V)) :
  dict_get k (dict_set k v d) = Some v.
Proof.
  induction d as [|[k' v'] d IH]; cbn.
  - now rewrite String.eqb_refl.
  - destruct (String.eqb k' k) eqn:E; cbn.
    + now rewrite String.eqb_refl.
    + now rewrite E.
Qed.

Lemma dict_get_set_ne {V} (k k' : string) (v : V) (d : list (string * V)) :
  k <> k' -> dict_get k (dict_set k' v d) = dict_get k d.
Proof.
  intros Hne. assert (String.eqb k' k = false) as Hf.
  { apply String.eqb_neq. congruence. }
  induction d as [|[k0 v0] d IH]; cbn.
  - now rewrite Hf.
  - destruct (String.eqb k0 k') eqn:E; cbn.
    + rewrite Hf. apply String.eqb_eq in E as ->. now rewrite Hf.
    + destruct (String.eqb k0 k); [reflexivity|exact IH].
Qed.

(** The generator yields one result per record. *)
Lemma _search_iterator_length cur sc ec off p w res w' :
  _search_iterator pg_execute cur sc ec off p w = (Ok res, w') ->
  length res = length cur.
Proof.
  revert w res w'. induction cur as [|rec cur IH]; intros w res w'.
  - intros [= <- _]. reflexivity.
  - cbn [_search_iterator]. unfold bind at 1.
    destruct (yield_row pg_execute sc ec off p rec w) as [[r|e] w1]; [|discriminate].
    unfold bind at 1.
    destruct (_search_iterator pg_execute cur sc ec off p w1) as [[rs|e] w2] eqn:Hrest;
      [|discriminate].
    intros [= <- _]. cbn. f_equal. exact (IH _ _ _ Hrest).
Qed.

Lemma fetchmany_length (size : Z) (cur : cursor) :
  0 <= size -> Z.of_nat (length (fetchmany size cur)) <= size.
Proof.
  intros Hs. unfold fetchmany.
  destruct (Z.ltb_spec size 0) as [|_]; [lia|].
  rewrite length_take. lia.
Qed.

(** The last parameters of a query built with a limit are the limit and,
    when it is not zero, the offset. *)
Lemma _build_query_limit t query limit offset sort s values :
  _build_query t query (Some limit) offset sort = Ok (s, values) ->
  exists s0 vals0,
    s = (if offset =? 0 then s0 +:+ " LIMIT %s"
         else (s0 +:+ " LIMIT %s") +:+ " OFFSET %s")
    /\ values = (if offset =? 0 then vals0 ++ [Plain (PInt limit)]
                 else (vals0 ++ [Plain (PInt limit)]) ++ [Plain (PInt offset)]).
Proof.
  unfold _build_query.
  destruct (_parse_dict t (PDict query) NoCol) as [c|e]; [|discriminate].
  cbn [mbind result_bind].
  match goal with
  | |- (let '(_, _) := ?x in _) = _ -> _ => destruct x as [s1 vals1]
  end.
  match goal with
  | |- (?m ≫= _) = _ -> _ => destruct m as [[hs srt]|e]; [|discriminate]
  end.
  cbn [mbind result_bind].
  destruct (offset =? 0); cbn [negb]; intros [= <- <-]; eexists _, _; split; reflexivity.
Qed.

(** C4 (as amended).  [search] with a positive limit first asks the count
    cache ([quick_count]).  It then selects with the LIMIT [fetch_limit]:
    without a cached count that is the larger of the limit and the cutoff
    minus the offset.  It returns at most [limit] results, and when the
    caller passes an [info] dictionary it reports in it [exact_count],
    true when the count was cached and otherwise exactly when fewer rows
    came back than that LIMIT, and [number], the cached count or else the
    offset plus the number of rows that came back; without an [info]
    dictionary nothing is reported. *)
Theorem search_with_limit
    (query : list (string * pyval)) (p : projection) (limit offset : Z)
    (sort : option (list sortitem)) (info : option (list (string * pyval)))
    (w w1 w3 : world database) (nres : option Z)
    (sc ec : list string) (off : Z) (qstr : Composable) (values : list param)
    (db2 : database) (cur : cursor) (res : list pyval) :
  0 < limit ->
  _parse_projection (self w) p = Ok (sc, ec, off) ->
  quick_count pg_execute query w = (Ok nres, w1) ->
  _build_query (self w) query (Some (fetch_limit (self w) limit offset nres)) offset sort
    = Ok (qstr, values) ->
  pg_execute (select_sql sc (search_table (self w)) qstr) values (working w1)
    = Ok (db2, cur) ->
  _search_iterator pg_execute (fetchmany limit cur) sc ec off p
    (executed (select_sql sc (search_table (self w)) qstr) values true db2 w1)
    = (Ok res, w3) ->
  exists info',
    search pg_execute query p (Some limit) offset sort info w
      = (Ok (SearchList res, info'), w3)
    /\ Z.of_nat (length res) <= limit
    /\ (info = None -> info' = None)
    /\ (forall i, info = Some i ->
        exists i',
          info' = Some i'
          /\ dict_get "exact_count" i' =
               Some (PBool (match nres with
                            | None => rowcount cur <? fetch_limit (self w) limit offset nres
                            | Some _ => true
                            end))
          /\ dict_get "number" i' =
               Some (PInt (match nres with
                           | None => offset + rowcount cur
                           | Some n => n
                           end)))
    /\ exists s0 vals0,
         qstr = (if offset =? 0 then s0 +:+ " LIMIT %s"
                 else (s0 +:+ " LIMIT %s") +:+ " OFFSET %s")
         /\ values =
              (if offset =? 0
               then vals0 ++ [Plain (PInt (fetch_limit (self w) limit offset nres))]
               else (vals0 ++ [Plain (PInt (fetch_limit (self w) limit offset nres))])
                      ++ [Plain (PInt offset)]).
Proof.
  intros Hlim Hproj Hq Hbuild Hsel Hiter.
  assert ((limit =? 0) = false) as Hl0 by (apply Z.eqb_neq; lia).
  assert (Z.of_nat (length res) <= limit) as Hlen.
  { rewrite (_search_iterator_length _ _ _ _ _ _ _ _ Hiter).
    apply fetchmany_length. lia. }
  pose proof (_build_query_limit _ _ _ _ _ _ _ Hbuild) as Hshape.
  unfold search, bind, get_self, lift. rewrite Hproj, Hq.
  unfold fetch_limit in *.
  destruct info as [i|].
  - destruct nres as [n|].
    + rewrite Hbuild. rewrite (_execute_ok _ _ true w1 db2 cur Hsel).
      rewrite Hiter. rewrite Hl0.
      destruct (n <=? offset); unfold ret;
        (eexists; split; [reflexivity|]; split; [exact Hlen|];
         split; [discriminate|]; split; [|exact Hshape];
         intros i0 _; eexists; split; [reflexivity|];
         split; [apply dict_get_set_eq|];
         rewrite !(dict_get_set_ne "number") by discriminate;
         apply dict_get_set_eq).
    + rewrite Hbuild. rewrite (_execute_ok _ _ true w1 db2 cur Hsel).
      rewrite Hiter. rewrite Hl0.
      destruct (offset + rowcount cur <=? offset); unfold ret;
        (eexists; split; [reflexivity|]; split; [exact Hlen|];
         split; [discriminate|]; split; [|exact Hshape];
         intros i0 _; eexists; split; [reflexivity|];
         split; [apply dict_get_set_eq|];
         rewrite !(dict_get_set_ne "number") by discriminate;
         apply dict_get_set_eq).
  - destruct nres as [n|];
      rewrite Hbuild; rewrite (_execute_ok _ _ true w1 db2 cur Hsel);
      rewrite Hiter; unfold ret;
      (eexists; split; [reflexivity|]; split; [exact Hlen|];
       split; [reflexivity|]; split; [discriminate|exact Hshape]).
Qed.

(** *** upsert *)

Lemma statements_app (a b : list event) :
  statements (a ++ b) = statements a ++ statements b.
Proof. unfold statements. apply omap_app. Qed.

Lemma run_statements_app (a b : list (Composable * list param)) (db : database) :
  run_statements pg_execute (a ++ b) db =
    match run_statements pg_execute a db with
    | Ok db' => run_statements pg_execute b db'
    | Raise e => Raise e
    end.
Proof.
  revert db. induction a as [|[sql values] a IH]; intros db; [reflexivity|].
  cbn [app run_statements].
  destruct (pg_execute sql values db) as [[db' cur]|e]; [apply IH|reflexivity].
Qed.

(** A statement executed without commit, by what the engine makes of it. *)
Lemma _execute_run sql values w :
  match pg_execute sql values (working w) with
  | Ok (db, cur) =>
      _execute pg_execute sql values false w
        = (Ok cur, executed sql values false db w)
  | Raise e =>
      exists w', _execute pg_execute sql values false w = (Raise e, w')
                 /\ self w' = self w /\ committed w' = committed w
  end.
Proof.
  unfold _execute, executed. cbn.
  destruct (pg_execute sql values (working w)) as [[db cur]|e]; [reflexivity|].
  destruct e; eexists; (split; [reflexivity|]); split; reflexivity.
Qed.

(** The loop of the update branch against the engine run over its
    statements: when the engine accepts them all, the loop returns in the
    database the run ends in; when it refuses one, the loop raises what
    the engine raised, with nothing committed. *)
Lemma run_updates_run cases row_id w :
  match run_statements pg_execute (statements (update_events cases row_id)) (working w) with
  | Ok db2 =>
      exists w',
        run_updates pg_execute cases row_id w = (Ok tt, w')
        /\ self w' = self w /\ committed w' = committed w /\ working w' = db2
        /\ log w' = log w ++ update_events cases row_id
  | Raise e =>
      exists w',
        run_updates pg_execute cases row_id w = (Raise e, w')
        /\ self w' = self w /\ committed w' = committed w
  end.
Proof.
  revert w. induction cases as [|[table dat] cases IH]; intros w.
  - cbn. exists w. rewrite app_nil_r. repeat split.
  - cbn [update_events fmap list_fmap fst snd statements omap list_omap
         run_statements run_updates].
    fold (update_events cases row_id).
    fold (statements (update_events cases row_id)).
    pose proof (_execute_run (update_sql table dat)
                  (((fun kv => Plain kv.2) <$> dat) ++ [Plain row_id]) w) as Hx.
    unfold bind.
    destruct (pg_execute (update_sql table dat)
                (((fun kv => Plain kv.2) <$> dat) ++ [Plain row_id]) (working w))
      as [[db cur]|e].
    + rewrite Hx.
      specialize (IH (executed (update_sql table dat)
                        (((fun kv => Plain kv.2) <$> dat) ++ [Plain row_id]) false db w)).
      rewrite working_executed in IH.
      destruct (run_statements pg_execute (statements (update_events cases row_id)) db)
        as [db2|e].
      * destruct IH as (w' & Hr & Hs & Hc & Hw & Hl).
        exists w'. split; [exact Hr|]. split; [now rewrite Hs|].
        split; [now rewrite Hc|]. split; [exact Hw|].
        rewrite Hl. cbn. now rewrite <- app_assoc.
      * destruct IH as (w' & Hr & Hs & Hc).
        exists w'. split; [exact Hr|]. split; [now rewrite Hs|now rewrite Hc].
    + destruct Hx as (w' & -> & Hs & Hc). exists w'. repeat split; assumption.
Qed.

Lemma _break_order_run w :
  match run_statements pg_execute
          (statements (if negb (_out_of_order (self w))
                       then [EExecute break_order_sql [Plain (PStr (search_table (self w)))]]
                       else []))
          (working w) with
  | Ok db2 =>
      exists w',
        _break_order pg_execute w = (Ok tt, w')
        /\ total (self w') = total (self w)
        /\ _stats_valid (self w') = _stats_valid (self w)
        /\ search_table (self w') = search_table (self w)
        /\ committed w' = committed w /\ working w' = db2
        /\ log w' = log w ++
             (if negb (_out_of_order (self w))
              then [EExecute break_order_sql [Plain (PStr (search_table (self w)))]]
              else [])
  | Raise e =>
      exists w',
        _break_order pg_execute w = (Raise e, w')
        /\ total (self w') = total (self w) /\ committed w' = committed w
  end.
Proof.
  unfold _break_order, bind, get_self.
  destruct (_out_of_order (self w)); cbn [negb].
  - cbn. exists w. rewrite app_nil_r. repeat split.
  - cbn [statements omap list_omap run_statements].
    pose proof (_execute_run break_order_sql [Plain (PStr (search_table (self w)))] w)
      as Hx.
    destruct (pg_execute break_order_sql [Plain (PStr (search_table (self w)))]
                (working w)) as [[db cur]|e].
    + rewrite Hx. eexists. split; [reflexivity|]. cbn. repeat split.
    + destruct Hx as (w' & -> & Hs & Hc). exists w'.
      split; [reflexivity|]. split; [now rewrite Hs|exact Hc].
Qed.

Lemma _break_stats_run w :
  match run_statements pg_execute
          (statements (if _stats_valid (self w)
                       then [EExecute break_stats_sql [Plain (PStr (search_table (self w)))]]
                       else []))
          (working w) with
  | Ok db2 =>
      exists w',
        _break_stats pg_execute w = (Ok tt, w')
        /\ total (self w') = total (self w)
        /\ committed w' = committed w /\ working w' = db2
        /\ log w' = log w ++
             (if _stats_valid (self w)
              then [EExecute break_stats_sql [Plain (PStr (search_table (self w)))]]
              else [])
  | Raise e =>
      exists w',
        _break_stats pg_execute w = (Raise e, w')
        /\ total (self w') = total (self w) /\ committed w' = committed w
  end.
Proof.
  unfold _break_stats, bind, get_self.
  destruct (_stats_valid (self w)).
  - cbn [statements omap list_omap run_statements].
    pose proof (_execute_run break_stats_sql [Plain (PStr (search_table (self w)))] w)
      as Hx.
    destruct (pg_execute break_stats_sql [Plain (PStr (search_table (self w)))]
                (working w)) as [[db cur]|e].
    + rewrite Hx. eexists. split; [reflexivity|]. cbn. repeat split.
    + destruct Hx as (w' & -> & Hs & Hc). exists w'.
      split; [reflexivity|]. split; [now rewrite Hs|exact Hc].
  - cbn. exists w. rewrite app_nil_r. repeat split.
Qed.

(** C2 (as amended).  For a nonempty query and nonempty data that pass the
    column checks and translate to a WHERE clause, [upsert] looks the
    target up with a SELECT of at most two ids.  Two rows: it raises, and
    that SELECT is all that was executed.  One row: it issues one UPDATE
    by that row's id per physical table, each with the part of the data
    the table owns, and then the marks the flags call for; when the engine
    accepts every one of these statements it commits them and returns with
    the total unchanged, and when the engine refuses one it raises what
    the engine raised, with the total unchanged and nothing committed
    beyond the lookup.  No row and a query with the key [id]: it raises,
    and nothing is inserted. *)
Theorem upsert_by_match_count
    (query data sd ed : list (string * pyval)) (w : world database)
    (qstr : Composable) (values : list param) (db1 : database) (cur : cursor) :
  query <> [] ->
  data <> [] ->
  dict_has "id" data = false ->
  check_query_cols (self w) query = Ok tt ->
  split_data (self w) data = Ok (sd, ed) ->
  _parse_dict (self w) (PDict query) NoCol = Ok (Some (qstr, values)) ->
  pg_execute (upsert_select_sql (self w) qstr) values (working w) = Ok (db1, cur) ->
  let w1 := executed (upsert_select_sql (self w) qstr) values true db1 w in
  (self w1 = self w
   /\ log w1 = log w ++ [EExecute (upsert_select_sql (self w) qstr) values; ECommit])
  /\ (1 < rowcount cur ->
      upsert pg_execute query data w
        = (Raise (ValueError "Query %s does not specify a unique row"), w1))
  /\ (forall row_id rec,
        cur = [row_id :: rec] ->
        let issued := update_events (upsert_cases (self w) sd ed) row_id
                        ++ flag_events (self w) data in
        (forall db2,
           run_statements pg_execute (statements issued) db1 = Ok db2 ->
           exists w',
             upsert pg_execute query data w = (Ok tt, w')
             /\ total (self w') = total (self w)
             /\ committed w' = db2
             /\ working w' = db2
             /\ log w' = log w1 ++ issued ++ [ECommit])
        /\ (forall e,
              run_statements pg_execute (statements issued) db1 = Raise e ->
              exists w',
                upsert pg_execute query data w = (Raise e, w')
                /\ total (self w') = total (self w)
                /\ committed w' = db1))
  /\ (cur = [] ->
      dict_has "id" query = true ->
      upsert pg_execute query data w
        = (Raise (ValueError "Cannot specify an id for insertion"), w1)).
Proof.
  intros Hq Hd Hid Hcols Hsplit Hparse Hsel w1.
  assert (forall k : unit -> M database unit,
            upsert pg_execute query data w =
            bind (if 1 <? rowcount cur then
                    raise (ValueError "Query %s does not specify a unique row")
                  else if rowcount cur =? 1 then
                    bind (lift (fetchone_0 cur)) (fun row_id =>
                    bind (run_updates pg_execute (upsert_cases (self w) sd ed) row_id)
                         (fun _ =>
                    if negb (_out_of_order (self w)) && sets_sort_key (self w) data
                    then _break_order pg_execute else ret tt))
                  else
                    if dict_has "id" data || dict_has "id" query then
                      raise (ValueError "Cannot specify an id for insertion")
                    else
                      bind (run_inserts pg_execute
                              (upsert_cases (self w)
                                 (dict_set "id" (PInt (total (self w) + 1))
                                    (merge_query query sd))
                                 (match extra_table (self w) with
                                  | Some _ => dict_set "id" (PInt (total (self w) + 1)) ed
                                  | None => ed
                                  end)))
                           (fun _ =>
                      bind (_break_order pg_execute) (fun _ =>
                      modify_self (fun t => set_total (total t + 1) t))))
                 (fun _ => bind (_break_stats pg_execute) (fun _ => conn_commit)) w1)
    as Hup.
  { intros _. unfold upsert. unfold bind at 1. unfold get_self at 1.
    destruct query as [|q0 query']; [congruence|].
    destruct data as [|d0 data']; [congruence|].
    cbn [is_nil orb]. rewrite Hid.
    unfold bind at 1. unfold lift at 1. rewrite Hcols.
    unfold bind at 1. unfold lift at 1. rewrite Hsplit.
    unfold bind at 1. unfold lift at 1. rewrite Hparse.
    unfold bind at 1. unfold lift at 1.
    unfold bind at 1. rewrite (_execute_ok _ _ true w db1 cur Hsel).
    reflexivity. }
  specialize (Hup (fun _ => ret tt)).
  split; [split; [apply self_executed|apply log_executed_commit]|].
  split; [|split].
  - intros Hmany. rewrite Hup. unfold bind at 1.
    destruct (Z.ltb_spec 1 (rowcount cur)) as [_|]; [reflexivity|lia].
  - intros row_id rec -> issued. rewrite Hup. clear Hup.
    change (rowcount [row_id :: rec]) with 1.
    change (1 <? 1) with false. change (1 =? 1) with true. cbv iota.
    match goal with
    | |- context [bind ?m ?k w1] => set (E := bind m k w1)
    end.
    assert (E = match run_updates pg_execute (upsert_cases (self w) sd ed) row_id w1 with
                | (Ok _, w2) =>
                    bind (if negb (_out_of_order (self w)) && sets_sort_key (self w) data
                          then _break_order pg_execute else ret tt)
                         (fun _ => bind (_break_stats pg_execute) (fun _ => conn_commit)) w2
                | (Raise e, w2) => (Raise e, w2)
                end) as HE.
    { unfold E, bind, lift. cbn [fetchone_0 first_col].
      destruct (run_updates pg_execute (upsert_cases (self w) sd ed) row_id w1)
        as [[[]|e] w2]; reflexivity. }
    rewrite HE. clear HE E.
    assert (self w1 = self w) as Hs1 by apply self_executed.
    assert (working w1 = db1) as Hw1 by apply working_executed.
    assert (committed w1 = db1) as Hc1 by apply committed_executed_commit.
    unfold issued, flag_events. rewrite !statements_app, !run_statements_app.
    pose proof (run_updates_run (upsert_cases (self w) sd ed) row_id w1) as Hupd.
    rewrite Hw1 in Hupd.
    destruct (run_statements pg_execute
                (statements (update_events (upsert_cases (self w) sd ed) row_id)) db1)
      as [dbu|eu].
    2: { destruct Hupd as (w2 & -> & Hs2 & Hc2).
         split; [discriminate|]. intros e [= <-].
         exists w2. split; [reflexivity|]. split; congruence. }
    destruct Hupd as (w2 & -> & Hs2 & Hc2 & Hw2 & Hl2).
    assert (self w2 = self w) as Hs2' by congruence.
    unfold bind.
    destruct (negb (_out_of_order (self w)) && sets_sort_key (self w) data) eqn:Hflag.
    + apply andb_true_iff in Hflag as [Ho Hk].
      rewrite !run_statements_app.
      pose proof (_break_order_run w2) as Hbo.
      rewrite Hs2', Ho, Hw2 in Hbo.
      destruct (run_statements pg_execute
                  (statements [EExecute break_order_sql
                                 [Plain (PStr (search_table (self w)))]]) dbu)
        as [dbo|eo].
      2: { destruct Hbo as (w3 & -> & Ht3 & Hc3).
           split; [discriminate|]. intros e [= <-].
           exists w3. split; [reflexivity|]. split; congruence. }
      destruct Hbo as (w3 & -> & Ht3 & Hv3 & Hn3 & Hc3 & Hw3 & Hl3).
      pose proof (_break_stats_run w3) as Hbs.
      rewrite Hv3, Hn3, Hw3 in Hbs.
      destruct (run_statements pg_execute
                  (statements (if _stats_valid (self w)
                               then [EExecute break_stats_sql
                                       [Plain (PStr (search_table (self w)))]]
                               else [])) dbo) as [dbs|es].
      2: { destruct Hbs as (w4 & -> & Ht4 & Hc4).
           split; [discriminate|]. intros e [= <-].
           exists w4. split; [reflexivity|]. split; congruence. }
      destruct Hbs as (w4 & -> & Ht4 & Hc4 & Hw4 & Hl4).
      split; [|discriminate]. intros db2 [= <-].
      eexists. split; [reflexivity|]. cbn [self do_commit committed working log].
      split; [congruence|]. split; [exact Hw4|]. split; [exact Hw4|].
      rewrite Hl4, Hl3, Hl2. rewrite <- !app_assoc. reflexivity.
    + unfold ret at 1 2.
      change (statements []) with (@nil (Composable * list param)). cbn [app].
      pose proof (_break_stats_run w2) as Hbs.
      rewrite Hs2', Hw2 in Hbs.
      destruct (run_statements pg_execute
                  (statements (if _stats_valid (self w)
                               then [EExecute break_stats_sql
                                       [Plain (PStr (search_table (self w)))]]
                               else [])) dbu) as [dbs|es].
      2: { destruct Hbs as (w4 & -> & Ht4 & Hc4).
           split; [discriminate|]. intros e [= <-].
           exists w4. split; [reflexivity|]. split; congruence. }
      destruct Hbs as (w4 & -> & Ht4 & Hc4 & Hw4 & Hl4).
      split; [|discriminate]. intros db2 [= <-].
      eexists. split; [reflexivity|]. cbn [self do_commit committed working log].
      split; [congruence|]. split; [exact Hw4|]. split; [exact Hw4|].
      rewrite Hl4, Hl2. rewrite <- !app_assoc. reflexivity.
  - intros -> Hidq. rewrite Hup.
    change (rowcount []) with 0.
    change (1 <? 0) with false. change (0 =? 1) with false. cbv iota.
    rewrite Hidq, orb_true_r. reflexivity.
Qed.

End EngineFacts.

Lemma resort_sorted_is_noop_witness :
  resort toy_execute None None true (toy_world nf_fields toy_empty)
    = (Ok tt, toy_world nf_fields toy_empty).
Proof.
  apply (resort_sorted_is_noop toy_execute true (toy_world nf_fields toy_empty));
    reflexivity.
Defined.

Lemma count_cases_witness :
  exists w',
    count toy_execute degree_2 (toy_world nf_fields toy_nf) = (Ok 5, w')
    /\ log w' =
         [EExecute (quick_count_sql nf_fields) (quick_count_params degree_2); ECommit;
          EExecute ("SELECT COUNT(*) FROM " +:+ Identifier "nf_fields" +:+ " WHERE "
                      +:+ Identifier "degree" +:+ " = %s") [Plain (PInt 2)];
          ECommit].
Proof.
  destruct (count_cases toy_execute degree_2 (toy_world nf_fields toy_nf))
    as (_ & _ & H).
  destruct (H toy_nf (Some (Identifier "degree" +:+ " = %s", [Plain (PInt 2)]))
              toy_nf (PInt 5) [] [] 5) as (w' & Hc & _ & _ & _ & Hl);
    [discriminate | reflexivity | reflexivity | reflexivity | reflexivity |].
  exists w'. split; [exact Hc | exact Hl].
Defined.

(** C3 (as stated) fails: after [count] of a query the cache has no row
    for, the count cache is as empty as before and the next lookup of the
    query misses again; [_slow_count] with [record=True], which [count]
    does not ask for, is what would store the result. *)
Lemma count_leaves_cache_empty :
  exists w1,
    count toy_execute degree_2 (toy_world nf_fields toy_nf) = (Ok 5, w1)
    /\ toy_counts (working w1) = []
    /\ toy_counts (committed w1) = []
    /\ (exists w2, quick_count toy_execute degree_2 w1 = (Ok None, w2))
    /\ (exists w2 w3,
          _slow_count toy_execute degree_2 true (toy_world nf_fields toy_nf)
            = (Ok (PInt 5), w2)
          /\ quick_count toy_execute degree_2 w2 = (Ok (Some 5), w3)).
Proof.
  eexists. split; [vm_compute; reflexivity|].
  split; [reflexivity|]. split; [reflexivity|]. split.
  - eexists. vm_compute. reflexivity.
  - eexists _, _. split; vm_compute; reflexivity.
Qed.

(** C6.  [random] takes the cached total minus one for the largest id.  On
    a table of three rows every number drawn is 1 or 2 and never 3; on a
    table with its single row of id 1, which a lookup by id finds, [random]
    fails with an empty range before any lookup. *)
Theorem random_draws_below_the_total :
  max toy_execute "id" (toy_world nf_fields toy_nf)
    = (Ok (PInt 2), toy_world nf_fields toy_nf)
  /\ (forall raw, exists n, randint 1 (PInt 2) raw = Ok n /\ 1 <= n <= 2)
  /\ (exists w',
        lucky toy_execute [("id", PInt 1)] Proj1 0 (toy_world curves toy_curves)
          = (Ok (PDict [("lmfdb_label", PStr "11.a1"); ("conductor", PInt 11);
                        ("rank", PInt 0)]), w'))
  /\ (forall rand,
        random toy_execute rand Proj1 (toy_world curves toy_curves)
          = (Raise (ValueError "empty range for randrange()"),
             toy_world curves toy_curves)).
Proof.
  split; [reflexivity|]. split.
  - intros raw. apply randint_range. lia.
  - split.
    + eexists. vm_compute. reflexivity.
    + intros rand. apply random_empty_range. cbn. lia.
Qed.

Lemma reload_row_count_mismatch_witness :
  exists w',
    reload toy_execute toy_copy_from
           (fun suffix => toy_step ("restore_pkeys" +:+ suffix))
           (fun suffix => toy_step ("restore_indexes" +:+ suffix))
           (fun suffix => toy_step ("refresh_stats" +:+ suffix))
           (fun _ _ => toy_step "swap_in_tmp")
           (Some search_file_100) (Some extras_file_99) None None
           true None true None [] (toy_world nf_fields toy_empty)
      = (Raise (RuntimeError "Different number of rows in searchfile and extrafile"), w')
    /\ self w' = nf_fields
    /\ committed w' = toy_empty
    /\ working w' = toy_empty.
Proof.
  eexists.
  destruct (reload_row_count_mismatch toy_execute toy_copy_from
               (fun suffix => toy_step ("restore_pkeys" +:+ suffix))
               (fun suffix => toy_step ("restore_indexes" +:+ suffix))
               (fun suffix => toy_step ("refresh_stats" +:+ suffix))
               (fun _ _ => toy_step "swap_in_tmp")
               search_file_100 extras_file_99 None None true None true None []
               (toy_world nf_fields toy_empty)
               (stage_files toy_execute toy_copy_from
                  (reload_files nf_fields (Some search_file_100) (Some extras_file_99)
                                None None)
                  true [] [] (toy_world nf_fields toy_empty)).2
               "nf_fields_extras" ["nf_fields"; "nf_fields_extras"]
               [("nf_fields", 100); ("nf_fields_extras", 99)] 100 99)
    as (Hr & Hs & Hc & Hw & _).
  - reflexivity.
  - reflexivity.
  - vm_compute. reflexivity.
  - reflexivity.
  - reflexivity.
  - lia.
  - split; [exact Hr|]. split; [exact Hs|]. split; [exact Hc|exact Hw].
Defined.

Lemma search_with_limit_witness :
  exists res i' w',
    search toy_execute ramps_2_7 Proj1 (Some 4) 0 None (Some [])
           (toy_world nf_fields toy_ramps)
      = (Ok (SearchList res, Some i'), w')
    /\ Z.of_nat (length res) <= 4
    /\ dict_get "exact_count" i' = Some (PBool false)
    /\ dict_get "number" i' = Some (PInt 1000).
Proof.
  pose (w := toy_world nf_fields toy_ramps).
  pose (w1 := (quick_count toy_execute ramps_2_7 w).2).
  pose (w2 := executed ramps_select.1 ramps_select.2 true toy_ramps w1).
  pose (cur := ramps_row <$> seq 0 1000).
  pose (it := _search_iterator toy_execute (fetchmany 4 cur)
                (_search_cols nf_fields) [] 0 Proj1 w2).
  pose (res := match it.1 with Ok r => r | Raise _ => [] end).
  destruct (search_with_limit toy_execute ramps_2_7 Proj1 4 0 None (Some []) w w1 it.2
              None (_search_cols nf_fields) [] 0
              (" WHERE " +:+ Identifier "ramps" +:+ " @> %s ORDER BY "
                 +:+ Identifier "id" +:+ " LIMIT %s")
              [Json (PList [PInt 2; PInt 7]); Plain (PInt 1000)]
              toy_ramps cur res)
    as (info' & Hs & Hlen & _ & Hinfo & _).
  - lia.
  - reflexivity.
  - reflexivity.
  - reflexivity.
  - vm_compute. reflexivity.
  - vm_compute. reflexivity.
  - destruct (Hinfo [] eq_refl) as (i' & -> & Hex & Hnum).
    exists res, i', it.2. split; [exact Hs|]. split; [exact Hlen|].
    split; [exact Hex|exact Hnum].
Defined.

(** C4 (as stated) fails for a limit that is not positive.  With limit 0,
    an [info] dictionary and a query no row matches, the paging
    arithmetic divides by the limit and [search] raises instead of
    returning; with limit -1 on the database of scenario B the select is
    made with LIMIT 1000 and all of its 1000 rows are returned. *)
Lemma search_limit_not_positive :
  (exists w',
     search toy_execute degree_2 Proj1 (Some 0) 0 None (Some [])
            (toy_world nf_fields toy_empty)
       = (Raise ZeroDivisionError, w'))
  /\ (exists res i' w',
        search toy_execute ramps_2_7 Proj1 (Some (-1)) 0 None (Some [])
               (toy_world nf_fields toy_ramps)
          = (Ok (SearchList res, Some i'), w')
        /\ length res = 1000%nat
        /\ ~ Z.of_nat (length res) <= -1).
Proof.
  split.
  - eexists. vm_compute. reflexivity.
  - pose (r := search toy_execute ramps_2_7 Proj1 (Some (-1)) 0 None (Some [])
                      (toy_world nf_fields toy_ramps)).
    assert (exists res i' w', r = (Ok (SearchList res, Some i'), w')
                              /\ length res = 1000%nat) as (res & i' & w' & Hr & Hlen).
    { vm_compute. eexists _, _, _. split; reflexivity. }
    exists res, i', w'. split; [exact Hr|]. split; [exact Hlen|].
    rewrite Hlen. lia.
Qed.

Lemma upsert_by_match_count_witness :
  (exists w',
     upsert toy_execute label_query [("degree", PInt 3)]
            (toy_world nf_fields toy_one_match) = (Ok tt, w')
     /\ total (self w') = 3
     /\ log w' =
          [EExecute (upsert_select_sql nf_fields (Identifier "label" +:+ " = %s"))
                    [Plain (PStr "2.2.5.1")];
           ECommit;
           EExecute (update_sql "nf_fields" [("degree", PInt 3)])
                    [Plain (PInt 3); Plain (PInt 17)];
           EExecute (update_sql "nf_fields_extras" []) [Plain (PInt 17)];
           EExecute break_order_sql [Plain (PStr "nf_fields")];
           EExecute break_stats_sql [Plain (PStr "nf_fields")];
           ECommit])
  /\ (exists w',
        upsert picky_execute label_query [("degree", PInt 3)]
               (toy_world nf_fields toy_one_match) = (Raise DatabaseError, w')
        /\ total (self w') = 3
        /\ committed w' = toy_one_match)
  /\ (exists w',
        upsert toy_execute label_query [("degree", PInt 3); ("reg", PInt 1)]
               (toy_world nf_fields toy_two_matches)
          = (Raise (ValueError "Query %s does not specify a unique row"), w')
        /\ self w' = nf_fields
        /\ log w' =
             [EExecute (upsert_select_sql nf_fields (Identifier "label" +:+ " = %s"))
                       [Plain (PStr "2.2.5.1")];
              ECommit]).
Proof.
  split; [|split].
  - destruct (upsert_by_match_count toy_execute
                label_query [("degree", PInt 3)]
                [("degree", PInt 3)] []
                (toy_world nf_fields toy_one_match)
                (Identifier "label" +:+ " = %s") [Plain (PStr "2.2.5.1")]
                toy_one_match [[PInt 17]])
      as (_ & _ & Hone & _);
      [discriminate | discriminate | reflexivity | reflexivity | reflexivity
      | reflexivity | reflexivity |].
    destruct (Hone (PInt 17) [] eq_refl) as [Hok _].
    destruct (Hok toy_one_match) as (w' & Hr & Ht & _ & _ & Hl);
      [vm_compute; reflexivity|].
    exists w'. split; [exact Hr|]. split; [exact Ht|exact Hl].
  - destruct (upsert_by_match_count picky_execute
                label_query [("degree", PInt 3)]
                [("degree", PInt 3)] []
                (toy_world nf_fields toy_one_match)
                (Identifier "label" +:+ " = %s") [Plain (PStr "2.2.5.1")]
                toy_one_match [[PInt 17]])
      as (_ & _ & Hone & _);
      [discriminate | discriminate | reflexivity | reflexivity | reflexivity
      | reflexivity | vm_compute; reflexivity |].
    destruct (Hone (PInt 17) [] eq_refl) as [_ Hfail].
    destruct (Hfail DatabaseError) as (w' & Hr & Ht & Hc);
      [vm_compute; reflexivity|].
    exists w'. split; [exact Hr|]. split; [exact Ht|exact Hc].
  - destruct (upsert_by_match_count toy_execute
                label_query [("degree", PInt 3); ("reg", PInt 1)]
                [("degree", PInt 3)] [("reg", PInt 1)]
                (toy_world nf_fields toy_two_matches)
                (Identifier "label" +:+ " = %s") [Plain (PStr "2.2.5.1")]
                toy_two_matches [[PInt 17]; [PInt 18]])
      as ((Hs & Hl) & Htwo & _);
      [discriminate | discriminate | reflexivity | reflexivity | reflexivity
      | reflexivity | reflexivity |].
    eexists. split; [apply Htwo; reflexivity|]. split; [exact Hs|exact Hl].
Defined.

(** C2 (as stated) fails: with no row of id 7, [upsert({"id": 7}, data)]
    raises instead of inserting a row with the successor id; the lookup is
    all that was executed and the total is what it was. *)
Lemma upsert_by_id_does_not_insert :
  exists w',
    upsert toy_execute [("id", PInt 7)] [("degree", PInt 2)]
           (toy_world nf_fields toy_empty)
      = (Raise (ValueError "Cannot specify an id for insertion"), w')
    /\ total (self w') = total nf_fields
    /\ log w' =
         [EExecute (upsert_select_sql nf_fields (Identifier "id" +:+ " = %s"))
                   [Plain (PInt 7)];
          ECommit]
    /\ committed w' = toy_empty
    /\ working w' = toy_empty.
Proof.
  eexists. split; [vm_compute; reflexivity|].
  repeat split.
Qed.

(** * Further properties *)

(** ** QueryTranslator *)

Lemma _parse_special_unfold self key value col :
  _parse_special self key value col =
    if String.eqb key "$or" || String.eqb key "$and" then
      rs ← match value with
           | PList l => parse_each self col l
           | _ => cs ← py_iter value ; parse_each_other cs
           end ;
      Ok (join_pairs (if String.eqb key "$or" then " OR " else " AND ") (keep_pairs rs))
    else
      '(c, fj) ← special_col self col ;
      r ← _parse_special_op key value c fj ;
      Ok (Some r).
Proof. destruct value; reflexivity. Qed.

Lemma parse_each_cons self col c cs :
  parse_each self col (c :: cs) =
    (r ← _parse_dict self c col ; rs ← parse_each self col cs ; Ok (r :: rs)).
Proof. reflexivity. Qed.

Lemma parse_items_app self outer a b :
  parse_items self outer (a ++ b) =
    (pa ← parse_items self outer a ;
     pb ← parse_items self outer b ;
     Ok (pa ++ pb)).
Proof.
  induction a as [|[key value] a IH].
  - cbn. destruct (parse_items self outer b); reflexivity.
  - rewrite <- app_comm_cons, !parse_items_cons.
    destruct (parse_item self outer key value) as [here|e]; [|reflexivity].
    cbn [mbind result_bind]. rewrite IH.
    destruct (parse_items self outer a) as [pa|e]; [|reflexivity].
    cbn [mbind result_bind].
    destruct (parse_items self outer b) as [pb|e]; [|reflexivity].
    cbn [mbind result_bind]. destruct here; reflexivity.
Qed.

Lemma join_app (sep : string) (l1 l2 : list string) :
  l1 <> [] -> l2 <> [] ->
  join sep (l1 ++ l2) = join sep l1 +:+ sep +:+ join sep l2.
Proof.
  intros H1 H2. induction l1 as [|x l1 IH]; [congruence|].
  destruct l1 as [|y l1].
  - destruct l2 as [|z l2]; [congruence|]. reflexivity.
  - change (join sep ((x :: y :: l1) ++ l2))
      with (x +:+ sep +:+ join sep ((y :: l1) ++ l2)).
    rewrite IH by discriminate.
    change (join sep (x :: y :: l1)) with (x +:+ sep +:+ join sep (y :: l1)).
    rewrite !append_assoc. reflexivity.
Qed.

Lemma finish_items_Some pairs t p :
  finish_items pairs = Some (t, p) ->
  pairs <> [] /\ t = join " AND " (fst <$> pairs) /\ p = concat (snd <$> pairs).
Proof.
  destruct pairs as [|x pairs]; [discriminate|].
  intros [= <- <-]. repeat split. discriminate.
Qed.

Lemma _parse_dict_Some self outer items c :
  _parse_dict self (PDict items) outer = Ok (Some c) ->
  exists pairs, parse_items self outer items = Ok pairs /\ finish_items pairs = Some c.
Proof.
  rewrite _parse_dict_unfold. destruct items as [|kv rest]; [discriminate|].
  destruct (parse_items self outer (kv :: rest)) as [pairs|e]; [|discriminate].
  cbn [mbind result_bind]. intros [= H]. eauto.
Qed.

(** X1.  Conjunction composes: when two dictionaries each translate to a
    constraint, the dictionary that yields the items of the first and then
    those of the second translates to the two texts joined by [AND], with
    the parameters of the first followed by those of the second. *)
Theorem parse_dict_conjunction self outer a b ta pa tb pb :
  _parse_dict self (PDict a) outer = Ok (Some (ta, pa)) ->
  _parse_dict self (PDict b) outer = Ok (Some (tb, pb)) ->
  _parse_dict self (PDict (a ++ b)) outer =
    Ok (Some (ta +:+ " AND " +:+ tb, pa ++ pb)).
Proof.
  intros Ha Hb.
  apply _parse_dict_Some in Ha as (qa & Hqa & Hfa).
  apply _parse_dict_Some in Hb as (qb & Hqb & Hfb).
  apply finish_items_Some in Hfa as (Hna & -> & ->).
  apply finish_items_Some in Hfb as (Hnb & -> & ->).
  rewrite _parse_dict_unfold.
  destruct (a ++ b) as [|kv rest] eqn:Hab.
  { apply app_eq_nil in Hab as [-> _]. cbn in Hqa. congruence. }
  rewrite <- Hab, parse_items_app, Hqa, Hqb. cbn [mbind result_bind].
  f_equal. unfold finish_items.
  destruct (qa ++ qb) as [|x l] eqn:Hq.
  { apply app_eq_nil in Hq as [-> _]. congruence. }
  rewrite <- Hq, !fmap_app, concat_app.
  rewrite join_app; [reflexivity| |].
  - destruct qa; [congruence|discriminate].
  - destruct qb; [congruence|discriminate].
Qed.

Lemma parse_dict_conjunction_witness :
  _parse_dict nf_fields
    (PDict ([("r2", PInt 1)] ++ [("degree", PDict [("$lte", PInt 8); ("$gte", PInt 4)])]))
    NoCol
  = Ok (Some ((Identifier "r2" +:+ " = %s") +:+ " AND "
                +:+ (Identifier "degree" +:+ " <= %s AND " +:+ Identifier "degree"
                       +:+ " >= %s"),
              [Plain (PInt 1)] ++ [Plain (PInt 8); Plain (PInt 4)])).
Proof.
  apply (parse_dict_conjunction nf_fields NoCol); vm_compute; reflexivity.
Defined.

Lemma known_col_plain self key ty :
  plain_key key = true ->
  known_col self key = true ->
  _col_type self !! key = Some ty ->
  String.eqb key "" = false /\ startswith_dollar key = false
  /\ _parse_key self key =
       Ok {| ki_expr := Identifier key; ki_outer := ColName key;
             ki_json := String.eqb ty "jsonb" |}.
Proof.
  intros Hkey Hcol Hty. apply plain_key_spec in Hkey as (Hne & Hd & Hdot).
  repeat split; try assumption.
  apply _parse_key_plain; assumption.
Qed.

(** X2.  The membership operators are refused on a column of type [jsonb]:
    a query that starts with [{col: {"$in": v}}] or [{col: {"$nin": v}}]
    for such a column raises the [ValueError] of the source, whatever [v]
    is and whatever follows. *)
Theorem parse_dict_membership_on_jsonb_raises self outer key op value rest :
  plain_key key = true ->
  known_col self key = true ->
  _col_type self !! key = Some "jsonb" ->
  op = "$in" \/ op = "$nin" ->
  _parse_dict self (PDict ((key, PDict [(op, value)]) :: rest)) outer =
    Raise (ValueError "$in and $nin operators not supported for jsonb").
Proof.
  intros Hkey Hcol Hty Hop.
  destruct (known_col_plain self key _ Hkey Hcol Hty) as (Hne & Hd & Hk).
  rewrite _parse_dict_unfold, parse_items_cons.
  assert (parse_item self outer key (PDict [(op, value)]) =
            Raise (ValueError "$in and $nin operators not supported for jsonb")) as ->;
    [|reflexivity].
  unfold parse_item. rewrite Hne, Hd, Hk. cbn [mbind result_bind ki_outer].
  assert (all_special [(op, value)] = true) as ->
    by (destruct Hop as [-> | ->]; reflexivity).
  rewrite _parse_dict_unfold, parse_items_cons.
  assert (parse_item self (ColName key) op value =
            Raise (ValueError "$in and $nin operators not supported for jsonb")) as ->;
    [|reflexivity].
  unfold parse_item.
  assert (String.eqb op "" = false /\ startswith_dollar op = true
          /\ (String.eqb op "$or" || String.eqb op "$and") = false) as (-> & -> & Hor)
    by (destruct Hop as [-> | ->]; repeat split; reflexivity).
  rewrite _parse_special_unfold, Hor.
  unfold special_col, col_is_jsonb. rewrite Hty. cbn [mbind result_bind].
  destruct Hop as [-> | ->]; reflexivity.
Qed.

Lemma parse_dict_membership_on_jsonb_raises_witness :
  _parse_dict nf_fields
    (PDict [("ramps", PDict [("$in", PList [PInt 2; PInt 7])]); ("degree", PInt 2)]) NoCol
  = Raise (ValueError "$in and $nin operators not supported for jsonb").
Proof.
  apply (parse_dict_membership_on_jsonb_raises nf_fields NoCol "ramps" "$in");
    [reflexivity | reflexivity | reflexivity | left; reflexivity].
Defined.

Lemma parse_each_empty_dicts self col l :
  Forall (fun c => c = PDict []) l ->
  exists rs, parse_each self col l = Ok rs /\ keep_pairs rs = [].
Proof.
  induction 1 as [|c l -> _ (rs & Hrs & Hkeep)].
  - exists []. split; reflexivity.
  - exists (None :: rs). rewrite parse_each_cons, Hrs. split; [reflexivity|].
    exact Hkeep.
Qed.

(** X3.  An [$or] or [$and] whose sub-queries are all empty (in particular
    one over the empty list) puts no constraint into the statement and
    binds no parameter: the query translates as if the item were not
    there. *)
Theorem parse_dict_vacuous_connective self outer key l rest :
  key = "$or" \/ key = "$and" ->
  Forall (fun c => c = PDict []) l ->
  _parse_dict self (PDict ((key, PList l) :: rest)) outer =
    _parse_dict self (PDict rest) outer.
Proof.
  intros Hkey Hl.
  destruct (parse_each_empty_dicts self outer l Hl) as (rs & Hrs & Hkeep).
  assert (parse_item self outer key (PList l) = Ok None) as Hitem.
  { unfold parse_item.
    assert (String.eqb key "" = false /\ startswith_dollar key = true
            /\ (String.eqb key "$or" || String.eqb key "$and") = true) as (-> & -> & Hor)
      by (destruct Hkey as [-> | ->]; repeat split; reflexivity).
    rewrite _parse_special_unfold, Hor, Hrs. cbn [mbind result_bind].
    rewrite Hkeep. reflexivity. }
  rewrite (_parse_dict_unfold self ((key, PList l) :: rest)).
  rewrite parse_items_cons, Hitem. cbn [mbind result_bind].
  rewrite _parse_dict_unfold.
  destruct rest as [|kv rest]; [reflexivity|].
  destruct (parse_items self outer (kv :: rest)); reflexivity.
Qed.

Lemma parse_dict_vacuous_connective_witness :
  _parse_dict nf_fields
    (PDict [("$or", PList [PDict []; PDict []]); ("degree", PInt 2)]) NoCol
  = _parse_dict nf_fields (PDict [("degree", PInt 2)]) NoCol.
Proof.
  apply (parse_dict_vacuous_connective nf_fields NoCol "$or").
  - left; reflexivity.
  - repeat constructor.
Defined.

(** X4.  The null tests bind no parameter: [{col: None}] is [col IS NULL],
    and [{col: {"$exists": v}}] is [col IS NOT NULL] when [v] is true and
    [col IS NULL] when it is false; the value [v] itself is never bound. *)
Theorem parse_dict_null_tests self key ty value :
  plain_key key = true ->
  known_col self key = true ->
  _col_type self !! key = Some ty ->
  _parse_dict self (PDict [(key, PNone)]) NoCol =
    Ok (Some (Identifier key +:+ " IS NULL", []))
  /\ _parse_dict self (PDict [(key, PDict [("$exists", value)])]) NoCol =
    Ok (Some (Identifier key +:+ (if truthy value then " IS NOT NULL" else " IS NULL"),
              [])).
Proof.
  intros Hkey Hcol Hty.
  destruct (known_col_plain self key _ Hkey Hcol Hty) as (Hne & Hd & Hk).
  split.
  - rewrite _parse_dict_unfold, parse_items_cons. unfold parse_item.
    rewrite Hne, Hd, Hk. reflexivity.
  - rewrite _parse_dict_unfold, parse_items_cons. unfold parse_item at 1.
    rewrite Hne, Hd, Hk. cbn [mbind result_bind ki_outer].
    change (all_special [("$exists", value)]) with true. cbv iota.
    rewrite _parse_dict_unfold, parse_items_cons. unfold parse_item.
    change (String.eqb "$exists" "") with false.
    change (startswith_dollar "$exists") with true. cbv iota.
    rewrite _parse_special_unfold.
    change (String.eqb "$exists" "$or" || String.eqb "$exists" "$and") with false.
    cbv iota. unfold special_col, col_is_jsonb. rewrite Hty.
    cbn [mbind result_bind]. unfold _parse_special_op.
    change (String.eqb "$exists" "$exists") with true. cbv iota.
    destruct (truthy value); reflexivity.
Qed.

Lemma parse_dict_null_tests_witness :
  _parse_dict nf_fields (PDict [("class_group", PNone)]) NoCol =
    Ok (Some (Identifier "class_group" +:+ " IS NULL", []))
  /\ _parse_dict nf_fields (PDict [("class_group", PDict [("$exists", PBool true)])]) NoCol =
    Ok (Some (Identifier "class_group" +:+ " IS NOT NULL", [])).
Proof.
  apply (parse_dict_null_tests nf_fields "class_group" "jsonb" (PBool true));
    reflexivity.
Defined.

Lemma parse_each_raise self col l c :
  c ∈ l ->
  is_ok (_parse_dict self c col) = false ->
  is_ok (parse_each self col l) = false.
Proof.
  intros Hin Hbad. induction l as [|c' l IH]; [inversion Hin|].
  rewrite parse_each_cons.
  destruct (_parse_dict self c' col) as [r|e] eqn:Hc'; [|reflexivity].
  cbn [mbind result_bind]. apply elem_of_cons in Hin as [->|Hin].
  - rewrite Hc' in Hbad. discriminate.
  - specialize (IH Hin). destruct (parse_each self col l); [discriminate|reflexivity].
Qed.

Lemma _parse_dict_item_raise self outer items key value :
  (key, value) ∈ items ->
  is_ok (parse_item self outer key value) = false ->
  is_ok (_parse_dict self (PDict items) outer) = false.
Proof.
  intros Hin Hbad. rewrite _parse_dict_unfold.
  destruct items as [|kv rest]; [inversion Hin|].
  pose proof (parse_items_raise self outer _ key value Hin Hbad) as Hr.
  destruct (parse_items self outer (kv :: rest)); [discriminate|reflexivity].
Qed.

(** X5.  A column the search table does not have is never ignored: a
    query that names one, at the top or inside [$or] and [$and] lists at
    any depth, raises instead of translating. *)
Theorem parse_dict_rejects_unknown_column self D :
  names_unknown_column self D ->
  forall outer, is_ok (_parse_dict self D outer) = false.
Proof.
  induction 1 as [items key value Hin Hkey Hcol
                 |items key l c Hin Hkey Hc _ IH]; intros outer.
  - unfold known_col in Hcol. apply orb_false_iff in Hcol as [Hid Hcol].
    apply bool_decide_eq_false in Hcol.
    exact (_parse_dict_unknown_column self outer items key value Hin Hkey Hid Hcol).
  - apply (_parse_dict_item_raise self outer items key (PList l) Hin).
    unfold parse_item.
    assert (String.eqb key "" = false /\ startswith_dollar key = true
            /\ (String.eqb key "$or" || String.eqb key "$and") = true) as (-> & -> & Hor)
      by (destruct Hkey as [-> | ->]; repeat split; reflexivity).
    rewrite _parse_special_unfold, Hor.
    pose proof (parse_each_raise self outer l c Hc (IH outer)) as Hr.
    destruct (parse_each self outer l); [discriminate|reflexivity].
Qed.

Lemma parse_dict_rejects_unknown_column_witness :
  is_ok (_parse_dict nf_fields
           (PDict [("degree", PInt 2);
                   ("$or", PList [PDict [("cm", PBool true)];
                                  PDict [("conductor", PInt 11)]])]) NoCol) = false.
Proof.
  apply (parse_dict_rejects_unknown_column nf_fields).
  apply (unknown_below nf_fields _ "$or"
           [PDict [("cm", PBool true)]; PDict [("conductor", PInt 11)]]
           (PDict [("conductor", PInt 11)])).
  - apply list_elem_of_further, list_elem_of_here.
  - left. reflexivity.
  - apply list_elem_of_further, list_elem_of_here.
  - apply (unknown_here nf_fields _ "conductor" (PInt 11)).
    + apply list_elem_of_here.
    + reflexivity.
    + vm_compute. reflexivity.
Defined.

(** *** Placeholders and parameters *)

Lemma pyval_nested_ind (P : pyval -> Prop) :
  P PNone -> (forall b, P (PBool b)) -> (forall z, P (PInt z)) ->
  (forall s, P (PStr s)) ->
  (forall l, Forall P l -> P (PList l)) ->
  (forall d, Forall (fun kv => P kv.2) d -> P (PDict d)) ->
  forall v, P v.
Proof.
  intros HN HB HI HS HL HD. fix IH 1. intros [ |b|z|s|l|d].
  - exact HN.
  - apply HB.
  - apply HI.
  - apply HS.
  - apply HL. induction l as [|x l IHl]; constructor; [apply IH|exact IHl].
  - apply HD. induction d as [|[k x] d IHd]; constructor; [apply IH|exact IHd].
Qed.

Lemma placeholders_skip (c : Ascii.ascii) (s : string) :
  Ascii.eqb c "%"%char = false -> placeholders (String c s) = placeholders s.
Proof.
  destruct c as [[] [] [] [] [] [] [] []]; intros H; try reflexivity; discriminate H.
Qed.

Lemma counted_nil : counted "" 0.
Proof. intros rest. reflexivity. Qed.

Lemma counted_app a b n m : counted a n -> counted b m -> counted (a +:+ b) (n + m).
Proof.
  intros Ha Hb rest. rewrite append_assoc, Ha, Hb. lia.
Qed.

Lemma counted_no_percent s : no_percent s = true -> counted s 0.
Proof.
  unfold no_percent. rewrite negb_true_iff. intros H rest.
  induction s as [|c s IH]; [reflexivity|].
  cbn in H. apply orb_false_iff in H as [Hc Hs].
  change (String c s +:+ rest) with (String c (s +:+ rest)).
  rewrite placeholders_skip by exact Hc. apply IH, Hs.
Qed.

Lemma counted_placeholders t n : counted t n -> placeholders t = n.
Proof.
  intros H. specialize (H ""). rewrite append_empty_r in H. cbn in H. lia.
Qed.

Lemma contains_char_app c a b :
  contains_char c (a +:+ b) = contains_char c a || contains_char c b.
Proof.
  induction a as [|x a IH]; [reflexivity|].
  change (String x a +:+ b) with (String x (a +:+ b)). cbn.
  rewrite IH, orb_assoc. reflexivity.
Qed.

Lemma contains_char_double c q s :
  contains_char c (double_char q s) = contains_char c s.
Proof.
  induction s as [|x s IH]; [reflexivity|]. cbn.
  destruct (Ascii.eqb x q); cbn; rewrite IH; destruct (Ascii.eqb x c); reflexivity.
Qed.

Lemma no_percent_app a b :
  no_percent (a +:+ b) = no_percent a && no_percent b.
Proof. unfold no_percent. rewrite contains_char_app, negb_orb. reflexivity. Qed.

Lemma no_percent_Identifier k : no_percent k = true -> no_percent (Identifier k) = true.
Proof.
  intros H. unfold Identifier. rewrite !no_percent_app.
  unfold no_percent at 2. rewrite contains_char_double. fold (no_percent k).
  rewrite H. reflexivity.
Qed.

Lemma contains_char_pretty_N_go x s :
  contains_char "%"%char (pretty_N_go x s) = contains_char "%"%char s.
Proof.
  revert s. induction (N.lt_wf_0 x) as [x _ IH]; intros s.
  assert (x = 0 \/ 0 < x)%N as [->|Hx] by lia.
  - rewrite pretty_N_go_0. reflexivity.
  - rewrite pretty_N_go_step by exact Hx.
    rewrite IH by (apply N.div_lt; lia).
    cbn. unfold pretty_N_char. repeat case_match; reflexivity.
Qed.

Lemma no_percent_pretty_N (x : N) : no_percent (pretty x) = true.
Proof.
  unfold pretty, pretty_N. destruct (decide (x = 0%N)); [reflexivity|].
  unfold no_percent. rewrite contains_char_pretty_N_go. reflexivity.
Qed.

Lemma no_percent_pretty_Z (z : Z) : no_percent (pretty z) = true.
Proof.
  destruct z as [|p|p].
  - reflexivity.
  - apply (no_percent_pretty_N (N.pos p)).
  - change (pretty (Z.neg p)) with ("-" +:+ pretty (N.pos p)).
    rewrite no_percent_app, no_percent_pretty_N. reflexivity.
Qed.

Lemma no_percent_Literal p :
  match p with SegStr s => no_percent s = true | SegInt _ => True end ->
  no_percent (Literal p) = true.
Proof.
  destruct p as [z|s]; intros H.
  - apply no_percent_pretty_Z.
  - unfold Literal. rewrite !no_percent_app.
    unfold no_percent at 2. rewrite contains_char_double. fold (no_percent s).
    rewrite H. reflexivity.
Qed.

Lemma contains_char_rev_app c a b :
  contains_char c (String.rev_app a b) = contains_char c a || contains_char c b.
Proof.
  revert b. induction a as [|x a IH]; intros b; [reflexivity|].
  cbn. rewrite IH. cbn. destruct (Ascii.eqb x c), (contains_char c a); reflexivity.
Qed.

Lemma split_dot_aux_no_percent acc s :
  no_percent acc = true -> no_percent s = true ->
  Forall (fun p => no_percent p = true) (split_dot_aux acc s).
Proof.
  revert acc. induction s as [|x s IH]; intros acc Hacc Hs.
  - cbn. constructor; [|constructor].
    unfold no_percent, String.rev. rewrite contains_char_rev_app.
    unfold no_percent in Hacc. apply negb_true_iff in Hacc. rewrite Hacc. reflexivity.
  - unfold no_percent in Hs. cbn in Hs. rewrite negb_orb in Hs.
    apply andb_true_iff in Hs as [Hx Hs].
    cbn. destruct (Ascii.eqb x "."%char).
    + constructor.
      * unfold no_percent, String.rev. rewrite contains_char_rev_app.
        unfold no_percent in Hacc. apply negb_true_iff in Hacc. rewrite Hacc.
        reflexivity.
      * apply IH; [reflexivity|exact Hs].
    + apply IH; [|exact Hs].
      unfold no_percent. cbn. rewrite negb_orb, Hx. exact Hacc.
Qed.

Lemma no_percent_join sep l :
  no_percent sep = true -> Forall (fun p => no_percent p = true) l ->
  no_percent (join sep l) = true.
Proof.
  intros Hsep Hl. induction Hl as [|x l Hx Hl IH]; [reflexivity|].
  destruct l as [|y l]; [exact Hx|].
  change (join sep (x :: y :: l)) with (x +:+ sep +:+ join sep (y :: l)).
  rewrite !no_percent_app, Hx, Hsep, IH. reflexivity.
Qed.

Lemma _parse_key_clean self key ki :
  no_percent key = true ->
  _parse_key self key = Ok ki ->
  no_percent (ki_expr ki) = true /\ outer_clean (ki_outer ki).
Proof.
  intros Hkey. unfold _parse_key.
  destruct (contains_char "."%char key).
  - pose proof (split_dot_aux_no_percent "" key eq_refl Hkey) as Hsegs.
    fold (split_dot key) in Hsegs.
    destruct (split_dot key) as [|p0 path]; [discriminate|].
    cbn [fmap list_fmap]. unfold to_segment at 1.
    destruct (isdigit p0); [discriminate|].
    apply Forall_cons in Hsegs as [Hp0 Hpath].
    destruct (negb (String.eqb p0 "id") && negb (bool_decide (p0 ∈ _search_cols self)));
      [discriminate|].
    intros [= <-]. cbn [ki_expr ki_outer outer_clean].
    assert (no_percent (Identifier p0 +:+
              join "" ((fun p => "->" +:+ Literal p) <$> (to_segment <$> path))) = true)
      as H; [|split; exact H].
    rewrite no_percent_app, no_percent_Identifier by exact Hp0.
    apply no_percent_join; [reflexivity|].
    rewrite <- list_fmap_compose. apply Forall_fmap.
    eapply Forall_impl; [exact Hpath|]. intros p Hp. cbn.
    rewrite no_percent_app. change (no_percent "->") with true.
    apply no_percent_Literal. unfold to_segment. destruct (isdigit p); [exact I|exact Hp].
  - destruct (col_is_jsonb self (Some key)) as [fj|e]; [|discriminate].
    cbn [mbind result_bind].
    destruct (negb (String.eqb key "id") && negb (bool_decide (key ∈ _search_cols self)));
      [discriminate|].
    intros [= <-]. cbn [ki_expr ki_outer outer_clean].
    split; [apply no_percent_Identifier|]; exact Hkey.
Qed.

Lemma py_len_iter v n vs : py_len v = Ok n -> py_iter v = Ok vs -> length vs = n.
Proof.
  destruct v as [ |b|z|s|l|d]; try discriminate; intros [= <-] [= <-].
  - rewrite length_fmap. induction s as [|c s IH]; [reflexivity|]. cbn. now rewrite IH.
  - reflexivity.
  - apply length_fmap.
Qed.

Lemma counted_join_replicate sep piece n :
  counted sep 0 -> counted piece 1 -> counted (join sep (replicate n piece)) n.
Proof.
  intros Hsep Hpiece. induction n as [|n IH]; [exact counted_nil|].
  destruct n as [|n]; [exact Hpiece|].
  change (join sep (replicate (S (S n)) piece))
    with (piece +:+ sep +:+ join sep (replicate (S n) piece)).
  exact (counted_app _ _ 1 _ Hpiece (counted_app _ _ 0 _ Hsep IH)).
Qed.

Lemma counted_join sep (pairs : list (Composable * list param)) :
  counted sep 0 ->
  Forall counted_clause pairs ->
  counted (join sep (fst <$> pairs)) (length (concat (snd <$> pairs))).
Proof.
  intros Hsep Hl. induction Hl as [|[t p] l Hx Hl IH]; [exact counted_nil|].
  destruct l as [|y l].
  - cbn. rewrite app_nil_r. exact Hx.
  - change (join sep (fst <$> (t, p) :: y :: l))
      with (t +:+ sep +:+ join sep (fst <$> y :: l)).
    change (concat (snd <$> (t, p) :: y :: l)) with (p ++ concat (snd <$> y :: l)).
    rewrite length_app.
    exact (counted_app _ _ _ _ Hx (counted_app _ _ 0 _ Hsep IH)).
Qed.

Lemma counted_literal_tail col post n :
  counted col 0 -> counted post n -> counted (col +:+ post) n.
Proof. intros Hcol Hpost. exact (counted_app col post 0 n Hcol Hpost). Qed.

Lemma counted_wrapped pre col post n :
  counted pre 0 -> counted col n -> counted post 0 -> counted (pre +:+ col +:+ post) n.
Proof.
  intros Hpre Hcol Hpost.
  apply (counted_literal_tail pre (col +:+ post) n Hpre).
  replace n with (n + 0)%nat by lia. exact (counted_app col post n 0 Hcol Hpost).
Qed.

Lemma _parse_special_op_counted key value col fj r :
  no_percent col = true ->
  _parse_special_op key value col fj = Ok r ->
  counted_clause r.
Proof.
  intros Hcol. apply counted_no_percent in Hcol. unfold _parse_special_op.
  destruct (String.eqb key "$exists").
  { destruct (truthy value); intros [= <-];
      apply (counted_literal_tail col _ 0 Hcol); intros rest; reflexivity. }
  destruct (String.eqb key "$notcontains").
  { destruct (py_len value) as [n|e] eqn:Hn; [|discriminate]. cbn [mbind result_bind].
    destruct (py_iter value) as [vs|e] eqn:Hvs; [|discriminate]. cbn [mbind result_bind].
    intros [= <-]. unfold counted_clause. cbn [fst snd].
    rewrite length_map, (py_len_iter _ _ _ Hn Hvs).
    apply counted_join_replicate; [intros rest; reflexivity|].
    apply (counted_literal_tail "NOT " _ 1); [intros rest; reflexivity|].
    apply (counted_literal_tail col _ 1 Hcol). intros rest; reflexivity. }
  destruct fj;
    repeat match goal with
           | |- context [String.eqb key ?op] => destruct (String.eqb key op)
           end;
    cbn [mbind result_bind]; try discriminate; intros [= <-];
    (apply (counted_literal_tail _ _ 1); [intros rest; reflexivity|]);
    apply (counted_literal_tail col _ 1 Hcol); intros rest; reflexivity.
Qed.

Lemma special_col_clean self col c fj :
  outer_clean col -> special_col self col = Ok (c, fj) -> no_percent c = true.
Proof.
  destruct col as [ |s|e]; unfold special_col, outer_clean.
  - discriminate.
  - intros Hs. destruct (col_is_jsonb self (Some s)); [|discriminate].
    cbn [mbind result_bind]. intros [= <- _]. apply no_percent_Identifier, Hs.
  - intros He [= <- _]. exact He.
Qed.

Lemma parse_each_other_none cs rs :
  parse_each_other cs = Ok rs -> keep_pairs rs = [].
Proof.
  revert rs. induction cs as [|c cs IH]; intros rs.
  - intros [= <-]. reflexivity.
  - change (parse_each_other (c :: cs))
      with (r ← _parse_dict_other c ; rs ← parse_each_other cs ; Ok (r :: rs)).
    destruct (_parse_dict_other c) as [r|e] eqn:Hc; [|discriminate].
    cbn [mbind result_bind].
    destruct (parse_each_other cs) as [rs'|e]; [|discriminate].
    cbn [mbind result_bind]. intros [= <-].
    assert (r = None) as ->.
    { destruct c as [ |b|z|s|l|d]; cbn in Hc; try discriminate.
      - destruct (String.eqb s ""); [congruence|discriminate].
      - destruct l; [congruence|discriminate]. }
    exact (IH rs' eq_refl).
Qed.

Lemma join_pairs_counted joiner pairs c :
  counted joiner 0 ->
  Forall counted_clause pairs ->
  join_pairs joiner pairs = Some c ->
  counted_clause c.
Proof.
  intros Hj Hp. destruct pairs as [|x pairs]; [discriminate|]. intros [= <-].
  unfold counted_clause. cbn [fst snd].
  apply counted_wrapped; [intros rest; reflexivity| |intros rest; reflexivity].
  exact (counted_join joiner (x :: pairs) Hj Hp).
Qed.

Lemma parse_each_counted self col l rs :
  Forall (fun x => forall c, _parse_dict self x col = Ok (Some c) -> counted_clause c) l ->
  parse_each self col l = Ok rs ->
  Forall counted_clause (keep_pairs rs).
Proof.
  intros Hl. revert rs. induction Hl as [|x l Hx _ IH]; intros rs.
  - intros [= <-]. constructor.
  - rewrite parse_each_cons.
    destruct (_parse_dict self x col) as [r|e] eqn:Hr; [|discriminate].
    cbn [mbind result_bind].
    destruct (parse_each self col l) as [rs'|e]; [|discriminate].
    cbn [mbind result_bind]. intros [= <-].
    specialize (IH rs' eq_refl).
    destruct r as [c|]; [|exact IH].
    change (keep_pairs (Some c :: rs')) with (c :: keep_pairs rs').
    constructor; [apply Hx; reflexivity|exact IH].
Qed.

Lemma _parse_special_counted self key v col c :
  outer_clean col ->
  (forall l, v = PList l ->
     Forall (fun x => forall c, _parse_dict self x col = Ok (Some c) -> counted_clause c) l) ->
  _parse_special self key v col = Ok (Some c) ->
  counted_clause c.
Proof.
  intros Hcol Hl. rewrite _parse_special_unfold.
  destruct (String.eqb key "$or" || String.eqb key "$and").
  - assert (forall rs,
              (cs ← py_iter v ; parse_each_other cs) = Ok rs -> keep_pairs rs = []) as Hother.
    { intros rs. destruct (py_iter v) as [cs|e]; [|discriminate].
      cbn [mbind result_bind]. apply parse_each_other_none. }
    assert (forall rs, keep_pairs rs = [] ->
              Ok (join_pairs (if String.eqb key "$or" then " OR " else " AND ")
                             (keep_pairs rs)) = Ok (Some c) -> counted_clause c) as Hnone.
    { intros rs ->. discriminate. }
    destruct v as [ |b|z|s|l|d].
    1-4,6: match goal with
           | |- (?m ≫= _) = _ -> _ =>
               destruct m as [rs|e]; [|discriminate];
               cbn [mbind result_bind]; exact (Hnone rs (Hother rs eq_refl))
           end.
    destruct (parse_each self col l) as [rs|e] eqn:Hrs; [|discriminate].
    cbn [mbind result_bind]. intros [= H].
    eapply join_pairs_counted; [| |exact H].
    + destruct (String.eqb key "$or"); intros rest; reflexivity.
    + exact (parse_each_counted self col l rs (Hl l eq_refl) Hrs).
  - destruct (special_col self col) as [[e fj]|err] eqn:Hsc; [|discriminate].
    cbn [mbind result_bind].
    destruct (_parse_special_op key v e fj) as [r|err] eqn:Hop; [|discriminate].
    cbn [mbind result_bind]. intros [= <-].
    exact (_parse_special_op_counted key v e fj r
             (special_col_clean self col e fj Hcol Hsc) Hop).
Qed.

Lemma parse_item_counted self outer key value c :
  outer_clean outer ->
  no_percent key = true ->
  translates_counted self value ->
  parse_item self outer key value = Ok (Some c) ->
  counted_clause c.
Proof.
  intros Hout Hkey [Hdict Hspecial]. unfold parse_item.
  destruct (String.eqb key ""); [discriminate|].
  destruct (startswith_dollar key); [apply Hspecial, Hout|].
  destruct (_parse_key self key) as [ki|e] eqn:Hki; [|discriminate].
  cbn [mbind result_bind].
  destruct (_parse_key_clean self key ki Hkey Hki) as [Hexpr Hko].
  assert (forall x : param, counted_clause (ki_expr ki +:+ " = %s", [x])) as Heq.
  { intros x. apply (counted_literal_tail _ _ 1 (counted_no_percent _ Hexpr)).
    intros rest; reflexivity. }
  destruct value as [ |b|z|s|l|d]; try (intros [= <-]; apply Heq).
  - intros [= <-]. apply (counted_literal_tail _ _ 0 (counted_no_percent _ Hexpr)).
    intros rest; reflexivity.
  - destruct (all_special d); [apply Hdict, Hko|].
    intros [= <-]; apply Heq.
Qed.

Lemma parse_items_counted self outer items pairs :
  outer_clean outer ->
  Forall (fun kv => no_percent kv.1 = true /\ translates_counted self kv.2) items ->
  parse_items self outer items = Ok pairs ->
  Forall counted_clause pairs.
Proof.
  intros Hout Hitems. revert pairs.
  induction Hitems as [|[key value] items [Hkey Hval] _ IH]; intros pairs.
  - intros [= <-]. constructor.
  - rewrite parse_items_cons.
    destruct (parse_item self outer key value) as [here|e] eqn:Hhere; [|discriminate].
    cbn [mbind result_bind].
    destruct (parse_items self outer items) as [more|e]; [|discriminate].
    cbn [mbind result_bind]. intros [= <-].
    specialize (IH more eq_refl).
    destruct here as [c|]; [|exact IH].
    constructor; [|exact IH].
    exact (parse_item_counted self outer key value c Hout Hkey Hval Hhere).
Qed.

Lemma _parse_dict_other_counted self v :
  match v with PDict _ => False | _ => True end ->
  forall outer c, _parse_dict self v outer = Ok (Some c) -> counted_clause c.
Proof.
  intros Hv outer c.
  destruct v as [ |b|z|s|l|d]; try discriminate; [| |destruct Hv].
  - cbn. destruct (String.eqb s ""); discriminate.
  - cbn. destruct l; discriminate.
Qed.

Lemma translation_counted self v :
  keys_clean v = true -> translates_counted self v.
Proof.
  induction v as [ |b|z|s|l IH|d IH] using pyval_nested_ind; intros Hclean.
  1-4: split;
       [intros outer c _; apply _parse_dict_other_counted; exact I
       |intros key col c Hcol; apply _parse_special_counted; [exact Hcol|discriminate]].
  - split; [intros outer c _; apply _parse_dict_other_counted; exact I|].
    intros key col c Hcol. apply _parse_special_counted; [exact Hcol|].
    intros l' [= <-]. cbn in Hclean. rewrite forallb_forall in Hclean.
    rewrite Forall_forall in IH |- *. intros x Hx c' Hc'.
    apply list_elem_of_In in Hx as Hx'.
    destruct (IH x Hx (Hclean x Hx')) as [Hdict _].
    destruct col; exact (Hdict _ c' Hcol Hc').
  - split; [|intros key col c Hcol; apply _parse_special_counted;
             [exact Hcol|discriminate]].
    intros outer c Hout Hc.
    apply _parse_dict_Some in Hc as (pairs & Hpairs & Hfin).
    destruct c as [t p].
    apply finish_items_Some in Hfin as (_ & -> & ->).
    apply counted_join; [intros rest; reflexivity|].
    apply (parse_items_counted self outer d pairs Hout); [|exact Hpairs].
    cbn in Hclean. rewrite forallb_forall in Hclean.
    rewrite Forall_forall in IH |- *. intros kv Hkv.
    apply list_elem_of_In in Hkv as Hkv'.
    specialize (Hclean kv Hkv'). apply andb_true_iff in Hclean as [Hk Hv].
    split; [exact Hk|exact (IH kv Hkv Hv)].
Qed.

(** X6.  Placeholders and parameters agree: when no key of the query has
    a percent sign, the WHERE text the translator gives has exactly as
    many [%s] placeholders as the parameter list has entries. *)
Theorem parse_dict_placeholders_match_parameters self D text params :
  keys_clean D = true ->
  _parse_dict self D NoCol = Ok (Some (text, params)) ->
  placeholders text = length params.
Proof.
  intros Hclean HD.
  destruct (translation_counted self D Hclean) as [Hdict _].
  exact (counted_placeholders _ _ (Hdict NoCol (text, params) I HD)).
Qed.

Lemma parse_dict_placeholders_match_parameters_witness :
  placeholders
    (Identifier "r2" +:+ " = %s AND " +:+ Identifier "degree" +:+ " <= %s AND "
       +:+ Identifier "degree" +:+ " >= %s")
  = length [Plain (PInt 1); Plain (PInt 8); Plain (PInt 4)].
Proof.
  apply (parse_dict_placeholders_match_parameters nf_fields
           (PDict [("r2", PInt 1);
                   ("degree", PDict [("$lte", PInt 8); ("$gte", PInt 4)])])).
  - reflexivity.
  - reflexivity.
Defined.

(** ** ProjectionResolver *)

Lemma Ok_inj {A} (a b : A) : Ok a = Ok b -> a = b.
Proof. intros [= H]. exact H. Qed.

Lemma proj_search_loop_subset including cols d :
  Forall (fun c => c ∈ cols) (proj_search_loop including cols d).1.
Proof.
  revert d. induction cols as [|col cols IH]; intros d; [constructor|].
  cbn [proj_search_loop]. specialize (IH (dict_del col d)).
  destruct (proj_search_loop including cols (dict_del col d)) as [out d'].
  cbn [fst] in *.
  assert (Forall (fun c => c ∈ col :: cols) out) as Hout.
  { eapply Forall_impl; [exact IH|]. intros c Hc. apply elem_of_cons. now right. }
  destruct (Bool.eqb (dict_has col d) including); [|exact Hout].
  constructor; [apply list_elem_of_here|exact Hout].
Qed.

Lemma proj_extra_loop_subset including projvals cols d :
  Forall (fun c => c ∈ cols) (proj_extra_loop including projvals cols d).1.
Proof.
  revert d. induction cols as [|col cols IH]; intros d; [constructor|].
  cbn [proj_extra_loop]. specialize (IH (dict_del col d)).
  destruct (proj_extra_loop including projvals cols (dict_del col d)) as [out d'].
  cbn [fst] in *.
  assert (Forall (fun c => c ∈ col :: cols) out) as Hout.
  { eapply Forall_impl; [exact IH|]. intros c Hc. apply elem_of_cons. now right. }
  destruct (Bool.eqb (str_in_bools col projvals) including); [|exact Hout].
  constructor; [apply list_elem_of_here|exact Hout].
Qed.

Lemma proj_list_loop_subset self l sc ec inc :
  proj_list_loop self l = Ok (sc, ec, inc) ->
  Forall (fun c => c ∈ _search_cols self) sc /\ Forall (fun c => c ∈ _extra_cols self) ec.
Proof.
  revert sc ec inc. induction l as [|col l IH]; intros sc ec inc.
  - intros [= <- <- _]. split; constructor.
  - cbn [proj_list_loop].
    destruct (proj_list_loop self l) as [[[sc' ec'] inc']|e].
    2: { repeat case_bool_decide; try discriminate.
         destruct (String.eqb col "id"); discriminate. }
    destruct (IH sc' ec' inc' eq_refl) as [Hsc Hec].
    case_bool_decide as Hs; [|case_bool_decide as Hx].
    + intros [= <- <- _]. split; [constructor|]; assumption.
    + intros [= <- <- _]. split; [|constructor]; assumption.
    + destruct (String.eqb col "id"); [|discriminate].
      intros [= <- <- _]. split; assumption.
Qed.

Lemma proj_finish_sound self search_cols extra_cols include_id sc ec off :
  Forall (fun c => c ∈ _search_cols self) search_cols ->
  Forall (fun c => c ∈ _extra_cols self) extra_cols ->
  proj_finish search_cols extra_cols include_id = (sc, ec, off) ->
  Forall (fun c => c = "id" \/ c ∈ _search_cols self) sc
  /\ Forall (fun c => c ∈ _extra_cols self) ec
  /\ (ec <> [] \/ off = 1 -> exists rest, sc = "id" :: rest)
  /\ (off = 0 \/ off = 1).
Proof.
  intros Hsc Hec. unfold proj_finish. intros [= <- <- <-].
  assert (Forall (fun c => c = "id" \/ c ∈ _search_cols self) search_cols) as Hsc'.
  { eapply Forall_impl; [exact Hsc|]. intros c Hc. now right. }
  repeat split.
  - destruct (include_id || _); [constructor; [now left|]|]; exact Hsc'.
  - exact Hec.
  - destruct include_id, extra_cols; cbn; intros [H|H];
      try congruence; try discriminate; eauto.
  - destruct include_id, extra_cols; cbn; auto.
Qed.

(** X7.  Whatever form the projection has, what it resolves to names
    only columns the table declares: every search column returned is [id]
    or a search column of the table, every extras column returned is an
    extras column of the table, the id offset is 0 or 1, and whenever an
    extras column is returned (or the offset is 1) the first search
    column is [id], the key the extras are fetched by. *)
Theorem parse_projection_sound self p sc ec off :
  _parse_projection self p = Ok (sc, ec, off) ->
  Forall (fun c => c = "id" \/ c ∈ _search_cols self) sc
  /\ Forall (fun c => c ∈ _extra_cols self) ec
  /\ (ec <> [] \/ off = 1 -> exists rest, sc = "id" :: rest)
  /\ (off = 0 \/ off = 1).
Proof.
  assert (Forall (fun c => c = "id" \/ c ∈ _search_cols self) (_search_cols self)) as Hall.
  { apply Forall_forall. intros c Hc. now right. }
  assert (Forall (fun c => c ∈ _extra_cols self) (_extra_cols self)) as Hallx.
  { apply Forall_forall. intros c Hc. exact Hc. }
  assert (forall cols, Forall (fun c => c = "id" \/ c ∈ _search_cols self) cols ->
            Forall (fun c => c = "id" \/ c ∈ _search_cols self) cols
            /\ Forall (fun c => c ∈ _extra_cols self) []
            /\ (@nil string <> [] \/ 0 = 1 -> exists rest, cols = "id" :: rest)
            /\ (0 = 0 \/ 0 = 1)) as Hplain.
  { intros cols Hcols. split; [exact Hcols|]. split; [constructor|].
    split; [intros [H|H]; [congruence|discriminate]|now left]. }
  destruct p as [ | | | |d|l|s]; unfold _parse_projection.
  - case_bool_decide as Hl; [|discriminate]. cbn. intros [= <- <- <-].
    apply Hplain. constructor; [now right|constructor].
  - intros [= <- <- <-]. apply Hplain, Hall.
  - intros [= <- <- <-]. apply Hplain. constructor; [now left|exact Hall].
  - destruct (extra_table self); intros [= <- <- <-]; [|apply Hplain, Hall].
    split; [constructor; [now left|exact Hall]|].
    split; [exact Hallx|]. split; [eauto|now right].
  - destruct d as [|kv0 d0] eqn:Hd; [discriminate|]. rewrite <- Hd. clear Hd kv0 d0.
    destruct (projvals_of d) as [|including [|b l]]; try discriminate.
    pose proof (proj_search_loop_subset including (_search_cols self) (dict_del "id" d))
      as Hs.
    destruct (proj_search_loop including (_search_cols self) (dict_del "id" d))
      as [search_cols d1]. cbn [fst] in Hs.
    assert (exists extra_cols d2,
              match extra_table self with
              | Some _ => proj_extra_loop including [] (_extra_cols self) d1
              | None => ([], d1)
              end = (extra_cols, d2)
              /\ Forall (fun c => c ∈ _extra_cols self) extra_cols)
      as (extra_cols & d2 & -> & Hx).
    { destruct (extra_table self).
      - pose proof (proj_extra_loop_subset including [] (_extra_cols self) d1) as Hx.
        destruct (proj_extra_loop including [] (_extra_cols self) d1) as [x d2].
        eauto.
      - eexists _, _. split; [reflexivity|constructor]. }
    destruct d2; [|discriminate]. intros H.
    apply Ok_inj in H. exact (proj_finish_sound self _ _ _ _ _ _ Hs Hx H).
  - destruct l as [|c0 l0] eqn:Hl; [discriminate|]. rewrite <- Hl. clear Hl c0 l0.
    destruct (proj_list_loop self l) as [[[sc' ec'] inc']|e] eqn:Hloop; [|discriminate].
    cbn [mbind result_bind]. intros H.
    destruct (proj_list_loop_subset self l _ _ _ Hloop) as [Hs Hx].
    apply Ok_inj in H. exact (proj_finish_sound self _ _ _ _ _ _ Hs Hx H).
  - destruct (String.eqb s ""); [discriminate|].
    destruct (proj_list_loop self [s]) as [[[sc' ec'] inc']|e] eqn:Hloop; [|discriminate].
    cbn [mbind result_bind]. intros H.
    destruct (proj_list_loop_subset self [s] _ _ _ Hloop) as [Hs Hx].
    apply Ok_inj in H. exact (proj_finish_sound self _ _ _ _ _ _ Hs Hx H).
Qed.

Lemma parse_projection_sound_witness :
  Forall (fun c => c = "id" \/ c ∈ _search_cols nf_fields) ["id"; "label"]
  /\ Forall (fun c => c ∈ _extra_cols nf_fields) ["unitsGmodule"]
  /\ (["unitsGmodule"] <> [] \/ 1 = 1 -> exists rest, ["id"; "label"] = "id" :: rest)
  /\ (1 = 0 \/ 1 = 1).
Proof.
  apply (parse_projection_sound nf_fields (ProjList ["label"; "unitsGmodule"])).
  reflexivity.
Defined.

(** X8.  A projection dictionary that both includes and excludes is
    refused: when one of its values is true and another is false,
    [_parse_projection] raises the [ValueError] of the source. *)
Theorem parse_projection_mixed_dict_raises self d k1 v1 k2 v2 :
  (k1, v1) ∈ d -> (k2, v2) ∈ d ->
  truthy v1 = true -> truthy v2 = false ->
  _parse_projection self (ProjDict d) =
    Raise (ValueError "You cannot both include and exclude.").
Proof.
  intros H1 H2 Ht Hf. unfold _parse_projection.
  destruct d as [|kv0 d0] eqn:Hd; [inversion H1|]. rewrite <- Hd in *. clear Hd kv0 d0.
  assert (true ∈ projvals_of d) as Htrue.
  { unfold projvals_of. apply elem_of_remove_dups, list_elem_of_fmap.
    exists (k1, v1). split; [symmetry; exact Ht|exact H1]. }
  assert (false ∈ projvals_of d) as Hfalse.
  { unfold projvals_of. apply elem_of_remove_dups, list_elem_of_fmap.
    exists (k2, v2). split; [symmetry; exact Hf|exact H2]. }
  destruct (projvals_of d) as [|b [|b' l]]; try reflexivity.
  apply list_elem_of_singleton in Htrue, Hfalse. congruence.
Qed.

Lemma parse_projection_mixed_dict_raises_witness :
  _parse_projection nf_fields (ProjDict [("label", PBool true); ("degree", PBool false)]) =
    Raise (ValueError "You cannot both include and exclude.").
Proof.
  apply (parse_projection_mixed_dict_raises nf_fields _ "label" (PBool true)
           "degree" (PBool false)).
  - apply list_elem_of_here.
  - apply list_elem_of_further, list_elem_of_here.
  - reflexivity.
  - reflexivity.
Defined.

(** ** [_build_query] *)

Lemma no_percent__sort_str l :
  forallb (fun c => no_percent (sort_col c)) l = true ->
  no_percent (_sort_str l) = true.
Proof.
  intros Hl. unfold _sort_str. apply no_percent_join; [reflexivity|].
  apply Forall_fmap, Forall_forall. intros c Hc.
  rewrite forallb_forall in Hl. specialize (Hl c (proj1 (list_elem_of_In _ _) Hc)).
  destruct c as [col|col dir]; cbn in *.
  - apply no_percent_Identifier, Hl.
  - destruct (dir =? 1); [apply no_percent_Identifier, Hl|].
    rewrite no_percent_app, no_percent_Identifier by exact Hl. reflexivity.
Qed.

Lemma _build_query_tail_counted self (query : list (string * pyval)) (limit : option Z)
    (offset : Z) (sort : option (list sortitem)) s0 (values0 : list param) s values :
  counted s0 (length values0) ->
  sort_clean self sort = true ->
  (hs ←
     match sort return result (bool * Composable) with
     | None =>
         match _sort self with
         | None =>
             if match limit with
                | Some l => negb ((l =? 1) && (offset =? 0))
                | None => false
                end
             then Raise (ValueError "You must specify a sort order")
             else Ok (false, "")
         | Some own =>
             if match _primary_sort self with
                | Some p => dict_has p query
                | None => false
                end || _out_of_order self
             then Ok (true, own)
             else Ok (true, Identifier "id")
         end
     | Some l => Ok (match l with [] => false | _ => true end, _sort_str l)
     end ;
   let '(has_sort, sort) := (hs : bool * Composable) in
   let s := if has_sort then s0 +:+ " ORDER BY " +:+ sort else s0 in
   match limit with
   | None => Ok (s, values0)
   | Some l =>
       let s := s +:+ " LIMIT %s" in
       let values := values0 ++ [Plain (PInt l)] in
       if negb (offset =? 0)
       then Ok (s +:+ " OFFSET %s", values ++ [Plain (PInt offset)])
       else Ok (s, values)
   end) = Ok (s, values) ->
  placeholders s = length values.
Proof.
  intros Hs0 Hsort.
  match goal with
  | |- (?m ≫= _) = _ -> _ => destruct m as [[has_sort srt]|e] eqn:Hhs; [|discriminate]
  end.
  cbn [mbind result_bind].
  assert (has_sort = true -> no_percent srt = true) as Hsrt.
  { intros ->. destruct sort as [l|].
    - injection Hhs as _ <-. apply no_percent__sort_str, Hsort.
    - unfold sort_clean in Hsort. destruct (_sort self) as [own|].
      + destruct (_ || _); injection Hhs as <-; [exact Hsort|reflexivity].
      + destruct (match limit with Some _ => _ | None => _ end); discriminate. }
  assert (counted (if has_sort then s0 +:+ " ORDER BY " +:+ srt else s0) (length values0))
    as Hs1.
  { destruct has_sort; [|exact Hs0].
    replace (length values0) with (length values0 + 0)%nat by lia.
    apply (counted_app _ _ _ 0 Hs0).
    apply (counted_literal_tail " ORDER BY " _ 0 ltac:(intros rest; reflexivity)).
    apply counted_no_percent, Hsrt. reflexivity. }
  clear Hhs Hsrt Hs0.
  set (s1 := if has_sort then s0 +:+ " ORDER BY " +:+ srt else s0) in *.
  destruct limit as [l|].
  - assert (counted (s1 +:+ " LIMIT %s") (length (values0 ++ [Plain (PInt l)]))) as Hs2.
    { rewrite length_app. apply (counted_app _ _ _ 1 Hs1). intros rest; reflexivity. }
    destruct (negb (offset =? 0)); intros [= <- <-].
    + apply counted_placeholders. rewrite (length_app (values0 ++ _)).
      apply (counted_app _ _ _ 1 Hs2). intros rest; reflexivity.
    + apply counted_placeholders, Hs2.
  - intros [= <- <-]. apply counted_placeholders, Hs1.
Qed.

(** X9.  The statement text and its values agree all the way: when no key
    of the query and no sort column has a percent sign, what
    [_build_query] returns has exactly as many [%s] placeholders as
    values, the limit and the offset included. *)
Theorem build_query_placeholders_match_values self query limit offset sort s values :
  keys_clean (PDict query) = true ->
  sort_clean self sort = true ->
  _build_query self query limit offset sort = Ok (s, values) ->
  placeholders s = length values.
Proof.
  intros Hclean Hsort. unfold _build_query.
  destruct (_parse_dict self (PDict query) NoCol) as [c|e] eqn:Hc; [|discriminate].
  cbn [mbind result_bind].
  destruct c as [[qstr vs]|].
  - apply (_build_query_tail_counted self query limit offset sort
             (" WHERE " +:+ qstr) vs); [|exact Hsort].
    destruct (translation_counted self (PDict query) Hclean) as [Hdict _].
    apply (counted_literal_tail " WHERE " _ _ ltac:(intros rest; reflexivity)).
    exact (Hdict NoCol (qstr, vs) I Hc).
  - apply (_build_query_tail_counted self query limit offset sort "" []);
      [exact counted_nil|exact Hsort].
Qed.

Lemma build_query_placeholders_match_values_witness :
  placeholders (" WHERE " +:+ Identifier "class_number" +:+ " = %s ORDER BY "
                  +:+ Identifier "id" +:+ " LIMIT %s")
  = length [Plain (PInt 1); Plain (PInt 20)].
Proof.
  apply (build_query_placeholders_match_values nf_fields [("class_number", PInt 1)]
           (Some 20) 0 None); reflexivity.
Defined.

(** X10.  On a table without a default sort order, a query with a limit
    and no sort order is refused, unless it asks for the first row alone
    (limit 1, offset 0); without a limit it is built, unsorted. *)
Theorem build_query_needs_sort_order self query limit offset :
  _sort self = None ->
  is_ok (_parse_dict self (PDict query) NoCol) = true ->
  (limit <> 1 \/ offset <> 0 ->
   _build_query self query (Some limit) offset None =
     Raise (ValueError "You must specify a sort order"))
  /\ is_ok (_build_query self query (Some 1) 0 None) = true
  /\ is_ok (_build_query self query None offset None) = true.
Proof.
  intros Hsort Hq. unfold _build_query. rewrite Hsort.
  destruct (_parse_dict self (PDict query) NoCol) as [c|e]; [|discriminate].
  cbn [mbind result_bind].
  destruct c as [[qstr vs]|]; (split; [|split]); try reflexivity.
  all: intros Hlim;
    assert ((limit =? 1) && (offset =? 0) = false) as ->;
    [apply andb_false_iff; destruct Hlim; [left|right]; lia|reflexivity].
Qed.

Lemma build_query_needs_sort_order_witness :
  (20 <> 1 \/ 0 <> 0 ->
   _build_query plain_table [("n", PInt 3)] (Some 20) 0 None =
     Raise (ValueError "You must specify a sort order"))
  /\ is_ok (_build_query plain_table [("n", PInt 3)] (Some 1) 0 None) = true
  /\ is_ok (_build_query plain_table [("n", PInt 3)] None 0 None) = true.
Proof.
  apply (build_query_needs_sort_order plain_table [("n", PInt 3)] 20 0); reflexivity.
Defined.

(** ** Reads *)

Section ReadFacts.

Context {database : Type}.
Variable pg_execute :
  Composable -> list param -> database -> result (database * cursor).

Implicit Types w : world database.

(** X11.  [exists] is decided by the select alone: when the statement for
    the first row of the query comes back with [cur], [exists] is true
    exactly when [cur] has a row, whatever the row holds. *)
Theorem exists_iff_row_returned query w qstr values db cur :
  _build_query (self w) query (Some 1) 0 None = Ok (qstr, values) ->
  pg_execute (select_sql (_search_cols (self w)) (search_table (self w)) qstr)
             values (working w) = Ok (db, cur) ->
  exists_ pg_execute query w =
    (Ok (negb (is_nil cur)),
     executed (select_sql (_search_cols (self w)) (search_table (self w)) qstr)
              values true db w).
Proof.
  intros Hq Hx. unfold exists_, lucky, bind, get_self, lift, ret.
  cbn [_parse_projection]. rewrite Hq.
  rewrite (_execute_ok pg_execute _ _ true w db cur Hx).
  destruct cur as [|rec rest]; reflexivity.
Qed.



Section EmptyTables.

Hypothesis no_rows :
  forall sql values db, exists db', pg_execute sql values db = Ok (db', []).




End EmptyTables.


End ReadFacts.

Lemma exists_iff_row_returned_witness :
  exists_ toy_execute [("id", PInt 1)] (toy_world curves toy_curves) =
    (Ok (negb (is_nil [[PStr "11.a1"; PInt 11; PInt 0]])),
     executed
       (select_sql (_search_cols (self (toy_world curves toy_curves)))
          (search_table (self (toy_world curves toy_curves)))
          (" WHERE " +:+ Identifier "id" +:+ " = %s ORDER BY " +:+ Identifier "id"
             +:+ " LIMIT %s"))
       [Plain (PInt 1); Plain (PInt 1)] true toy_curves
       (toy_world curves toy_curves)).
Proof.
  apply (exists_iff_row_returned toy_execute); vm_compute; reflexivity.
Defined.



(** ** Writes *)

Section Respects.

Context {database : Type}.
Variable R : relation (world database).
Context `{!PreOrder R}.

Lemma respects_ret {A} (a : A) : respects R (ret a).
Proof. intros w r w' [= <- <-]. reflexivity. Qed.

Lemma respects_raise {A} (e : exn) : respects R (@raise database A e).
Proof. intros w r w' [= <- <-]. reflexivity. Qed.

Lemma respects_lift {A} (x : result A) : respects R (lift x).
Proof. intros w r w' [= <- <-]. reflexivity. Qed.

Lemma respects_get_self : respects R (@get_self database).
Proof. intros w r w' [= <- <-]. reflexivity. Qed.

Lemma respects_bind {A B} (m : M database A) (k : A -> M database B) :
  respects R m -> (forall a, respects R (k a)) -> respects R (bind m k).
Proof.
  intros Hm Hk w r w'. unfold bind.
  destruct (m w) as [[a|e] w1] eqn:Hmw.
  - intros Hkw. transitivity w1; [exact (Hm _ _ _ Hmw)|exact (Hk a _ _ _ Hkw)].
  - intros [= <- <-]. exact (Hm _ _ _ Hmw).
Qed.

End Respects.

Section WriteFacts.

Context {database : Type}.
Variable pg_execute :
  Composable -> list param -> database -> result (database * cursor).

Implicit Types w : world database.

#[local] Instance same_committed_preorder : PreOrder (@same_committed database).
Proof.
  split.
  - intros w. reflexivity.
  - intros w1 w2 w3 H12 H23. unfold same_committed in *. congruence.
Qed.

#[local] Instance log_grows_preorder : PreOrder (@log_grows database).
Proof.
  split.
  - intros w. exists []. now rewrite app_nil_r.
  - intros w1 w2 w3 [e1 H1] [e2 H2]. exists (e1 ++ e2).
    rewrite H2, H1, app_assoc. reflexivity.
Qed.

Lemma _execute_same_committed sql values :
  respects same_committed (_execute pg_execute sql values false).
Proof.
  intros w r w' H. apply _execute_nocommit_frame in H as (_ & Hc & _). exact Hc.
Qed.

Lemma _execute_log_grows sql values commit :
  respects log_grows (_execute pg_execute sql values commit).
Proof.
  intros w r w'. unfold _execute, log_grows. cbn.
  destruct (pg_execute sql values (working w)) as [[db cur]|e].
  - intros [= <- <-]. destruct commit; cbn; rewrite <- ?app_assoc; eexists; reflexivity.
  - destruct e; intros [= <- <-]; cbn; rewrite <- ?app_assoc; eexists; reflexivity.
Qed.

Lemma modify_self_same_committed f :
  respects same_committed (@modify_self database f).
Proof. intros w r w' [= <- <-]. reflexivity. Qed.

Lemma modify_self_log_grows f : respects log_grows (@modify_self database f).
Proof. intros w r w' [= <- <-]. exists []. cbn. now rewrite app_nil_r. Qed.

Lemma conn_commit_log_grows : respects log_grows (@conn_commit database).
Proof. intros w r w' [= <- <-]. eexists. reflexivity. Qed.

(** *** upsert *)

Lemma check_query_cols_unknown t (query : list (string * pyval)) key value :
  (key, value) ∈ query ->
  known_col t key = false ->
  check_query_cols t query = Raise (ValueError "%s is not a column of %s").
Proof.
  intros Hin Hbad. induction query as [|[k v] query IH]; [inversion Hin|].
  cbn [check_query_cols]. fold (known_col t k). rewrite <- negb_orb.
  change (String.eqb k "id" || bool_decide (k ∈ _search_cols t)) with (known_col t k).
  destruct (known_col t k) eqn:Hk; [|reflexivity]. cbn [negb].
  apply elem_of_cons in Hin as [Heq|Hin]; [|exact (IH Hin)].
  injection Heq as -> ->. congruence.
Qed.

Lemma split_data_unknown t (data : list (string * pyval)) key value :
  (key, value) ∈ data ->
  key ∉ _search_cols t -> key ∉ _extra_cols t ->
  split_data t data = Raise (ValueError "%s is not a column of %s").
Proof.
  intros Hin Hs Hx. induction data as [|[k v] data IH]; [inversion Hin|].
  cbn [split_data].
  apply elem_of_cons in Hin as [Heq|Hin].
  - injection Heq as <- <-.
    rewrite (bool_decide_eq_false_2 _ Hs), (bool_decide_eq_false_2 _ Hx).
    destruct (extra_table t); reflexivity.
  - rewrite (IH Hin).
    destruct (extra_table t); repeat case_bool_decide; reflexivity.
Qed.

(** X14.  [upsert] checks its arguments before it touches the connection:
    an empty query or empty data, data that set [id], a query key that is
    neither [id] nor a search column, or a data key that is no column of
    either table make it raise a [ValueError], with nothing executed and
    the table object as it was. *)
Theorem upsert_rejects_before_executing (query data : list (string * pyval)) w :
  (query = [] \/ data = [] ->
   upsert pg_execute query data w
     = (Raise (ValueError "Both query and data must be nonempty"), w))
  /\ (query <> [] -> data <> [] -> dict_has "id" data = true ->
      upsert pg_execute query data w = (Raise (ValueError "Cannot set id"), w))
  /\ (query <> [] -> data <> [] -> dict_has "id" data = false ->
      (exists key value,
         ((key, value) ∈ query /\ known_col (self w) key = false)
         \/ ((key, value) ∈ data /\ (key ∉ _search_cols (self w))
             /\ (key ∉ _extra_cols (self w)))) ->
      upsert pg_execute query data w
        = (Raise (ValueError "%s is not a column of %s"), w)).
Proof.
  split; [|split].
  - intros [-> | ->]; unfold upsert, bind, get_self; [reflexivity|].
    destruct query; reflexivity.
  - intros Hq Hd Hid. unfold upsert, bind, get_self.
    destruct query; [congruence|]. destruct data; [congruence|].
    cbn [is_nil orb]. rewrite Hid. reflexivity.
  - intros Hq Hd Hid (key & value & Hbad). unfold upsert, bind, get_self, lift.
    assert (is_nil query = false) as -> by (destruct query; [congruence|reflexivity]).
    assert (is_nil data = false) as -> by (destruct data; [congruence|reflexivity]).
    cbn [orb]. rewrite Hid.
    destruct Hbad as [[Hin Hk]|(Hin & Hs & Hx)].
    + rewrite (check_query_cols_unknown _ _ _ _ Hin Hk). reflexivity.
    + rewrite (split_data_unknown _ _ _ _ Hin Hs Hx).
      destruct (check_query_cols (self w) query) as [[]|e] eqn:Hc; [reflexivity|].
      assert (e = ValueError "%s is not a column of %s") as ->; [|reflexivity].
      clear -Hc. induction query as [|[k v] query IH]; [discriminate|].
      cbn [check_query_cols] in Hc.
      destruct (negb (String.eqb k "id")
                && negb (bool_decide (k ∈ _search_cols (self w))));
        [congruence|exact (IH Hc)].
Qed.

Lemma upsert_after_lookup (query data sd ed : list (string * pyval)) w
    (qstr : Composable) (values : list param) (db1 : database) (cur : cursor) :
  query <> [] ->
  data <> [] ->
  dict_has "id" data = false ->
  check_query_cols (self w) query = Ok tt ->
  split_data (self w) data = Ok (sd, ed) ->
  _parse_dict (self w) (PDict query) NoCol = Ok (Some (qstr, values)) ->
  pg_execute (upsert_select_sql (self w) qstr) values (working w) = Ok (db1, cur) ->
  upsert pg_execute query data w =
    bind (if 1 <? rowcount cur then
            raise (ValueError "Query %s does not specify a unique row")
          else if rowcount cur =? 1 then
            bind (lift (fetchone_0 cur)) (fun row_id =>
            bind (run_updates pg_execute (upsert_cases (self w) sd ed) row_id)
                 (fun _ =>
            if negb (_out_of_order (self w)) && sets_sort_key (self w) data
            then _break_order pg_execute else ret tt))
          else
            if dict_has "id" data || dict_has "id" query then
              raise (ValueError "Cannot specify an id for insertion")
            else
              bind (run_inserts pg_execute
                      (upsert_cases (self w)
                         (dict_set "id" (PInt (total (self w) + 1))
                            (merge_query query sd))
                         (match extra_table (self w) with
                          | Some _ => dict_set "id" (PInt (total (self w) + 1)) ed
                          | None => ed
                          end)))
                   (fun _ =>
              bind (_break_order pg_execute) (fun _ =>
              modify_self (fun t => set_total (total t + 1) t))))
         (fun _ => bind (_break_stats pg_execute) (fun _ => conn_commit))
         (executed (upsert_select_sql (self w) qstr) values true db1 w).
Proof.
  intros Hq Hd Hid Hcols Hsplit Hparse Hsel.
  unfold upsert. unfold bind at 1. unfold get_self at 1.
  destruct query as [|q0 query']; [congruence|].
  destruct data as [|d0 data']; [congruence|].
  cbn [is_nil orb]. rewrite Hid.
  unfold bind at 1. unfold lift at 1. rewrite Hcols.
  unfold bind at 1. unfold lift at 1. rewrite Hsplit.
  unfold bind at 1. unfold lift at 1. rewrite Hparse.
  unfold bind at 1. unfold lift at 1.
  unfold bind at 1. rewrite (_execute_ok _ _ _ true w db1 cur Hsel).
  reflexivity.
Qed.

Lemma run_inserts_log_grows cases : respects log_grows (run_inserts pg_execute cases).
Proof.
  induction cases as [|[table dat] cases IH]; cbn [run_inserts].
  - apply respects_ret; apply _.
  - apply respects_bind; [apply _|apply _execute_log_grows|intros _; exact IH].
Qed.

Lemma _break_order_log_grows : respects log_grows (_break_order pg_execute).
Proof.
  unfold _break_order. apply respects_bind; [apply _|apply respects_get_self; apply _|].
  intros t. destruct (negb (_out_of_order t)); [|apply respects_ret; apply _].
  apply respects_bind; [apply _|apply _execute_log_grows|].
  intros _. apply modify_self_log_grows.
Qed.

Lemma _break_stats_log_grows : respects log_grows (_break_stats pg_execute).
Proof.
  unfold _break_stats. apply respects_bind; [apply _|apply respects_get_self; apply _|].
  intros t. destruct (_stats_valid t); [|apply respects_ret; apply _].
  apply respects_bind; [apply _|apply _execute_log_grows|].
  intros _. apply modify_self_log_grows.
Qed.

Lemma dict_get_set_id {V} (v : V) (d : list (string * V)) :
  dict_get "id" (dict_set "id" v d) = Some v.
Proof. apply dict_get_set_eq. Qed.

(** X15.  The insertion branch of [upsert] sends the template itself: when
    the lookup finds no row and neither the query nor the data name [id],
    the statement that follows the lookup is the text
    [INSERT INTO {0} ({1}) VALUES ({2})], which has no placeholder, bound
    to the values of the row to insert: the data of the search table, the
    fields of the query the data do not set, and [id] = total + 1. *)
Theorem upsert_insertion_sends_template (query data sd ed : list (string * pyval)) w
    (qstr : Composable) (values : list param) (db1 : database) :
  query <> [] ->
  data <> [] ->
  dict_has "id" data = false ->
  dict_has "id" query = false ->
  check_query_cols (self w) query = Ok tt ->
  split_data (self w) data = Ok (sd, ed) ->
  _parse_dict (self w) (PDict query) NoCol = Ok (Some (qstr, values)) ->
  pg_execute (upsert_select_sql (self w) qstr) values (working w) = Ok (db1, []) ->
  let w1 := executed (upsert_select_sql (self w) qstr) values true db1 w in
  let row := dict_set "id" (PInt (total (self w) + 1)) (merge_query query sd) in
  exists r w' evs,
    upsert pg_execute query data w = (r, w')
    /\ log w' = log w1 ++ EExecute insert_sql (insert_values row) :: evs
    /\ placeholders insert_sql = 0%nat
    /\ dict_get "id" row = Some (PInt (total (self w) + 1)).
Proof.
  intros Hq Hd Hid Hidq Hcols Hsplit Hparse Hsel w1 row.
  rewrite (upsert_after_lookup query data sd ed w qstr values db1 []
             Hq Hd Hid Hcols Hsplit Hparse Hsel).
  fold w1. change (rowcount []) with 0.
  change (1 <? 0) with false. change (0 =? 1) with false. cbv iota.
  rewrite Hid, Hidq. cbn [orb]. fold row.
  unfold upsert_cases at 1. cbn [run_inserts]. fold (insert_values row).
  match goal with
  | |- context [bind (bind (bind (_execute pg_execute insert_sql (insert_values row) false)
                                 ?k1) ?k2) ?k3 w1] =>
      set (K1 := k1); set (K2 := k2); set (K3 := k3)
  end.
  assert (forall c, respects log_grows (bind (bind (K1 c) K2) K3)) as Hrest.
  { intros c. apply respects_bind; [apply _| |].
    - apply respects_bind; [apply _|apply run_inserts_log_grows|].
      intros ?. unfold K2.
      apply respects_bind; [apply _|apply _break_order_log_grows|].
      intros _. apply modify_self_log_grows.
    - intros ?. unfold K3.
      apply respects_bind; [apply _|apply _break_stats_log_grows|].
      intros _. apply conn_commit_log_grows. }
  destruct (_execute pg_execute insert_sql (insert_values row) false w1)
    as [r0 w2] eqn:Hx.
  pose proof Hx as Hfr. apply _execute_nocommit_frame in Hfr as (_ & _ & evs0 & Hl0 & _).
  assert (forall r w', bind (bind (bind (_execute pg_execute insert_sql
                                           (insert_values row) false) K1) K2) K3 w1
                       = (r, w') ->
                       exists evs, log w' = log w1 ++ EExecute insert_sql (insert_values row)
                                                  :: evs) as Hlog.
  { intros r w'. unfold bind at 1 2 3. rewrite Hx. destruct r0 as [c0|e0].
    - intros Hk.
      destruct (Hrest c0 w2 r w' Hk) as [evs Hevs].
      exists (evs0 ++ evs). rewrite Hevs, Hl0, <- app_assoc. reflexivity.
    - intros [= <- <-]. exists evs0. exact Hl0. }
  destruct (bind (bind (bind (_execute pg_execute insert_sql (insert_values row) false)
                             K1) K2) K3 w1) as [r w'] eqn:Hup.
  destruct (Hlog r w' eq_refl) as [evs Hevs].
  exists r, w', evs. split; [reflexivity|]. split; [exact Hevs|].
  split; [reflexivity|]. apply dict_get_set_id.
Qed.

(** *** resort *)

Lemma all_or_nothing_bind {A} commit (m : M database A) (k : A -> M database unit) :
  respects same_committed m ->
  (forall a, all_or_nothing commit (k a)) ->
  all_or_nothing commit (bind m k).
Proof.
  intros Hm Hk w r w'. unfold bind.
  destruct (m w) as [[a|e] w1] eqn:Hmw.
  - intros Hkw. pose proof (Hm _ _ _ Hmw) as Hc. unfold same_committed in Hc.
    destruct (Hk a _ _ _ Hkw) as [H|H]; [left; congruence|right; exact H].
  - intros [= <- <-]. left. exact (Hm _ _ _ Hmw).
Qed.

Lemma all_or_nothing_ret commit : all_or_nothing commit (@ret database unit tt).
Proof. intros w r w' [= <- <-]. now left. Qed.

Lemma _set_ordered_then_commit commit :
  all_or_nothing commit
    (bind (_set_ordered pg_execute false)
          (fun _ => if commit then conn_commit else ret tt)).
Proof.
  intros w r w'. unfold bind at 1. unfold _set_ordered.
  unfold bind at 1. unfold get_self at 1. unfold bind at 1.
  destruct (_execute pg_execute _ _ false w) as [r0 w1] eqn:Hx.
  apply _execute_nocommit_frame in Hx as (_ & Hc & _).
  destruct r0 as [cur|e]; [|intros [= <- <-]; now left].
  unfold modify_self. destruct commit.
  - intros [= <- <-]. right. repeat split.
  - intros [= <- <-]. left. exact Hc.
Qed.

(** X16.  [resort] commits at its very end or not at all: however the
    engine answers, either the committed database is what it was before
    the call, or [resort] has returned, was asked to commit, has committed
    everything it did, and has left the table marked as ordered.  A
    failure part of the way through therefore leaves no committed
    change. *)
Theorem resort_commits_all_or_nothing search extra commit w r w' :
  resort pg_execute search extra commit w = (r, w') ->
  committed w' = committed w
  \/ (r = Ok tt /\ commit = true /\ committed w' = working w'
      /\ _out_of_order (self w') = false).
Proof.
  revert w r w'. change (all_or_nothing commit (resort pg_execute search extra commit)).
  unfold resort.
  apply all_or_nothing_bind; [apply respects_get_self; apply _|]. intros t.
  destruct (_id_ordered t && (bool_decide (search <> None) || _out_of_order t));
    [|apply all_or_nothing_ret].
  apply all_or_nothing_bind; [apply respects_lift; apply _|]. intros [st et].
  apply all_or_nothing_bind; [apply _execute_same_committed|]. intros _.
  apply all_or_nothing_bind; [apply respects_lift; apply _|]. intros srt.
  apply all_or_nothing_bind; [apply _execute_same_committed|]. intros _.
  apply all_or_nothing_bind.
  { destruct et as [et|]; [|apply respects_ret; apply _].
    repeat (apply respects_bind;
            [apply _|apply _execute_same_committed|intros _]).
    apply respects_ret; apply _. }
  intros _.
  apply all_or_nothing_bind; [apply _execute_same_committed|]. intros _.
  apply all_or_nothing_bind; [apply _execute_same_committed|]. intros _.
  apply all_or_nothing_bind; [apply _execute_same_committed|]. intros _.
  apply _set_ordered_then_commit.
Qed.

End WriteFacts.

Lemma upsert_rejects_before_executing_witness :
  upsert toy_execute label_query [("id", PInt 3)] (toy_world nf_fields toy_empty)
    = (Raise (ValueError "Cannot set id"), toy_world nf_fields toy_empty).
Proof.
  apply (proj1 (proj2 (upsert_rejects_before_executing toy_execute label_query
                         [("id", PInt 3)] (toy_world nf_fields toy_empty))));
    [discriminate|discriminate|reflexivity].
Defined.

Lemma upsert_insertion_sends_template_witness :
  exists r w' evs,
    upsert toy_execute label_query [("degree", PInt 2)] (toy_world nf_fields toy_empty)
      = (r, w')
    /\ log w' =
         log (executed (upsert_select_sql (self (toy_world nf_fields toy_empty))
                          (Identifier "label" +:+ " = %s"))
                       [Plain (PStr "2.2.5.1")] true toy_empty
                       (toy_world nf_fields toy_empty))
           ++ EExecute insert_sql
                (insert_values
                   (dict_set "id" (PInt (total (self (toy_world nf_fields toy_empty)) + 1))
                      (merge_query label_query [("degree", PInt 2)]))) :: evs
    /\ placeholders insert_sql = 0%nat
    /\ dict_get "id"
         (dict_set "id" (PInt (total (self (toy_world nf_fields toy_empty)) + 1))
            (merge_query label_query [("degree", PInt 2)]))
       = Some (PInt (total (self (toy_world nf_fields toy_empty)) + 1)).
Proof.
  apply (upsert_insertion_sends_template toy_execute label_query [("degree", PInt 2)]
           [("degree", PInt 2)] [] (toy_world nf_fields toy_empty)
           (Identifier "label" +:+ " = %s") [Plain (PStr "2.2.5.1")] toy_empty);
    try discriminate; reflexivity.
Defined.

Lemma resort_commits_all_or_nothing_witness :
  committed (resort toy_execute None None true
               (toy_world (set_out_of_order true nf_fields) toy_empty)).2
    = committed (toy_world (set_out_of_order true nf_fields) toy_empty)
  \/ ((resort toy_execute None None true
         (toy_world (set_out_of_order true nf_fields) toy_empty)).1 = Ok tt
      /\ true = true
      /\ committed (resort toy_execute None None true
                      (toy_world (set_out_of_order true nf_fields) toy_empty)).2
         = working (resort toy_execute None None true
                      (toy_world (set_out_of_order true nf_fields) toy_empty)).2
      /\ _out_of_order (self (resort toy_execute None None true
                               (toy_world (set_out_of_order true nf_fields) toy_empty)).2)
         = false).
Proof.
  apply (resort_commits_all_or_nothing toy_execute None None true
           (toy_world (set_out_of_order true nf_fields) toy_empty)).
  apply surjective_pairing.
Defined.

(** ** The temporary id column of [resort] *)

Lemma fresh_name_shape (fuel : nat) (cols : list string) (name : string) :
  exists n, fresh_name fuel cols name = name +:+ underscores n.
Proof.
  revert name. induction fuel as [|fuel IH]; intros name.
  - exists 0%nat. cbn. now rewrite append_empty_r.
  - cbn [fresh_name]. case_bool_decide.
    + destruct (IH (name +:+ "_")) as [n Hn]. exists (S n). rewrite Hn.
      cbn [underscores]. apply append_assoc.
    + exists 0%nat. cbn. now rewrite append_empty_r.
Qed.

(** X17.  The name [resort] takes for its temporary id column is [newid]
    followed by underscores, and it is no search column and no extras
    column of the table: as many rounds of the loop as the table has
    columns always reach a free name. *)
Theorem resort_new_id_column_is_fresh (t : PostgresTable) :
  (fresh_name (length (_search_cols t ++ _extra_cols t))
              (_search_cols t ++ _extra_cols t) "newid" ∉ _search_cols t)
  /\ (fresh_name (length (_search_cols t ++ _extra_cols t))
                 (_search_cols t ++ _extra_cols t) "newid" ∉ _extra_cols t)
  /\ exists n, fresh_name (length (_search_cols t ++ _extra_cols t))
                          (_search_cols t ++ _extra_cols t) "newid"
               = "newid" +:+ underscores n.
Proof.
  pose proof (fresh_name_fresh (_search_cols t ++ _extra_cols t)) as Hfresh.
  rewrite elem_of_app in Hfresh.
  split; [tauto|]. split; [tauto|]. apply fresh_name_shape.
Qed.

(** ** The key of the count cache *)

Lemma insert_item_perm kv l : insert_item kv l ≡ₚ kv :: l.
Proof.
  induction l as [|kv' l IH]; [reflexivity|]. cbn [insert_item].
  destruct (String.leb kv.1 kv'.1); [reflexivity|].
  rewrite IH. apply Permutation_swap.
Qed.

Lemma sorted_items_perm d : sorted_items d ≡ₚ d.
Proof.
  induction d as [|kv d IH]; [reflexivity|].
  cbn [sorted_items foldr]. fold (sorted_items d).
  rewrite insert_item_perm, IH. reflexivity.
Qed.

#[local] Instance key_le_transitive : Transitive key_le.
Proof. intros a b c. unfold key_le. apply transitivity. Qed.

Lemma insert_item_sorted kv l : Sorted key_le l -> Sorted key_le (insert_item kv l).
Proof.
  induction l as [|kv' l IH]; intros Hl.
  - repeat constructor.
  - cbn [insert_item]. destruct (String.leb kv.1 kv'.1) eqn:Hle.
    + constructor; [exact Hl|]. constructor. unfold key_le, String.le.
      rewrite Hle. exact I.
    + apply Sorted_inv in Hl as [Hl Hhd].
      constructor; [exact (IH Hl)|].
      assert (key_le kv' kv) as Hge.
      { unfold key_le, String.le.
        destruct (String.leb_total kv.1 kv'.1) as [H|H]; [congruence|].
        rewrite H. exact I. }
      destruct l as [|kv'' l]; cbn [insert_item].
      * constructor. exact Hge.
      * destruct (String.leb kv.1 kv''.1); constructor; [exact Hge|].
        inversion Hhd; assumption.
Qed.

Lemma sorted_items_sorted d : StronglySorted key_le (sorted_items d).
Proof.
  apply Sorted_StronglySorted; [apply _|].
  induction d as [|kv d IH]; [constructor|].
  cbn [sorted_items foldr]. apply insert_item_sorted, IH.
Qed.

(** X18.  The key under which a count is cached does not depend on the
    order in which the query dictionary yields its items: two orderings
    of the same items, with distinct keys, give the same lists of columns
    and values. *)
Theorem split_dict_order_insensitive (D D' : list (string * pyval)) :
  NoDup D.*1 -> D ≡ₚ D' -> _split_dict D = _split_dict D'.
Proof.
  intros Hnd Hperm. unfold _split_dict.
  assert (sorted_items D = sorted_items D') as ->; [|reflexivity].
  apply (StronglySorted_unique_strong key_le);
    [|apply sorted_items_sorted|apply sorted_items_sorted|].
  - intros x1 x2 H1 H2 H12 H21.
    assert (x1.1 = x2.1) as Hk.
    { unfold key_le in *. apply (anti_symm String.le); assumption. }
    rewrite sorted_items_perm in H1. rewrite sorted_items_perm, <- Hperm in H2.
    destruct x1 as [k1 v1], x2 as [k2 v2]. cbn in Hk. subst k2.
    f_equal. clear -Hnd H1 H2.
    induction D as [|[k v] D IH]; [inversion H1|].
    cbn in Hnd. apply NoDup_cons in Hnd as [Hk HD].
    apply elem_of_cons in H1 as [E1|H1], H2 as [E2|H2].
    + congruence.
    + exfalso. apply Hk. injection E1 as <- <-.
      apply list_elem_of_fmap. exists (k1, v2). split; [reflexivity|exact H2].
    + exfalso. apply Hk. injection E2 as <- <-.
      apply list_elem_of_fmap. exists (k1, v1). split; [reflexivity|exact H1].
    + exact (IH HD H1 H2).
  - rewrite !sorted_items_perm. exact Hperm.
Qed.

Lemma split_dict_order_insensitive_witness :
  _split_dict [("degree", PInt 2); ("class_number", PInt 6)]
    = _split_dict [("class_number", PInt 6); ("degree", PInt 2)].
Proof.
  apply split_dict_order_insensitive.
  - apply (bool_decide_eq_true_1 _). vm_compute. reflexivity.
  - apply Permutation_swap.
Defined.

(** ** Schema changes *)



Section SchemaFacts.

Context {database : Type}.
Variable pg_execute :
  Composable -> list param -> database -> result (database * cursor).
Variable param_type_match : string -> bool.

Implicit Types w : world database.


(** X20.  What [add_column] refuses: a name the table already has (in
    the search or the extras table) and a datatype outside the whitelist
    raise a [ValueError] with nothing executed and the table object as it
    was; asking for an extras column on a table without an extras table
    raises too, with nothing executed, but only after the type of the
    column has been recorded in [_col_type]. *)
Theorem add_column_refusals name datatype extra commit w :
  (name ∈ _search_cols (self w) \/ name ∈ _extra_cols (self w) ->
   add_column pg_execute param_type_match name datatype extra commit w
     = (Raise (ValueError "%s already has column %s"), w))
  /\ (name ∉ _search_cols (self w) -> name ∉ _extra_cols (self w) ->
      str_lower datatype ∉ types_whitelist ->
      param_type_match (str_lower datatype) = false ->
      add_column pg_execute param_type_match name datatype extra commit w
        = (Raise (ValueError "%s is not a valid type"), w))
  /\ (name ∉ _search_cols (self w) -> name ∉ _extra_cols (self w) ->
      str_lower datatype ∈ types_whitelist
        \/ param_type_match (str_lower datatype) = true ->
      extra_table (self w) = None ->
      add_column pg_execute param_type_match name datatype true commit w
        = (Raise (ValueError "No extra table"),
           {| self := set_col_type (<[name := datatype]> (_col_type (self w))) (self w);
              committed := committed w; working := working w; log := log w |})).
Proof.
  split; [|split].
  - intros Hin. unfold add_column, bind, get_self.
    case_bool_decide as Hs; [reflexivity|].
    destruct Hin as [Hin|Hin]; [contradiction|].
    rewrite (bool_decide_eq_true_2 _ Hin). reflexivity.
  - intros Hs Hx Hw Hm. unfold add_column, bind, get_self.
    rewrite (bool_decide_eq_false_2 _ Hs), (bool_decide_eq_false_2 _ Hx),
      (bool_decide_eq_false_2 _ Hw), Hm. reflexivity.
  - intros Hs Hx Hvalid He. unfold add_column, bind, get_self, modify_self.
    rewrite (bool_decide_eq_false_2 _ Hs), (bool_decide_eq_false_2 _ Hx).
    assert (negb (bool_decide (str_lower datatype ∈ types_whitelist))
            && negb (param_type_match (str_lower datatype)) = false) as ->.
    { destruct Hvalid as [H|H].
      - rewrite (bool_decide_eq_true_2 _ H). reflexivity.
      - rewrite H. apply andb_false_r. }
    rewrite He. reflexivity.
Qed.

(** X21.  What [drop_column] refuses and what it leaves behind: a column
    the default sort order depends on, and a name that is no column of
    either table, raise a [ValueError] with nothing executed and the table
    object as it was; and when the engine refuses the DROP COLUMN of a
    search column with a [DatabaseError], the transaction is rolled back
    but the column has already left the column list of the table
    object. *)
Theorem drop_column_refusals name commit w :
  (name ∈ _sort_keys (self w) ->
   drop_column pg_execute name commit w
     = (Raise (ValueError "Sorting for %s depends on %s; change default sort order with set_sort() before dropping column"), w))
  /\ (name ∉ _sort_keys (self w) -> name ∉ _search_cols (self w) ->
      name ∉ _extra_cols (self w) ->
      drop_column pg_execute name commit w
        = (Raise (ValueError "%s is not a column of %s"), w))
  /\ (forall db1 cur1,
        name ∉ _sort_keys (self w) -> name ∈ _search_cols (self w) ->
        pg_execute drop_indexes_sql
          [Plain (PStr (search_table (self w))); Plain (PList [PStr name])] (working w)
          = Ok (db1, cur1) ->
        pg_execute (drop_column_sql (search_table (self w)) name) [] db1
          = Raise DatabaseError ->
        exists w',
          drop_column pg_execute name commit w = (Raise DatabaseError, w')
          /\ working w' = committed w
          /\ committed w' = committed w
          /\ _search_cols (self w') = list_remove name (_search_cols (self w))
          /\ _col_type (self w') = _col_type (self w)).
Proof.
  split; [|split].
  - intros Hk. unfold drop_column, bind, get_self.
    rewrite (bool_decide_eq_true_2 _ Hk). reflexivity.
  - intros Hk Hs Hx. unfold drop_column, bind, get_self.
    rewrite (bool_decide_eq_false_2 _ Hk), (bool_decide_eq_false_2 _ Hs),
      (bool_decide_eq_false_2 _ Hx). reflexivity.
  - intros db1 cur1 Hk Hs H1 H2.
    unfold drop_column, bind, get_self, modify_self, ret, lift, _execute.
    rewrite (bool_decide_eq_false_2 _ Hk), (bool_decide_eq_true_2 _ Hs).
    cbn. rewrite H1. cbn. rewrite H2.
    eexists. split; [reflexivity|]. cbn. repeat split.
Qed.

End SchemaFacts.


Lemma add_column_refusals_witness :
  add_column toy_execute (fun _ => false) "reg" "numeric" true true
             (toy_world curves toy_empty)
    = (Raise (ValueError "No extra table"),
       {| self := set_col_type (<["reg" := "numeric"]> (_col_type curves)) curves;
          committed := toy_empty; working := toy_empty; log := [] |}).
Proof.
  apply (proj2 (proj2 (add_column_refusals toy_execute (fun _ => false)
                         "reg" "numeric" true true (toy_world curves toy_empty)))).
  - apply (bool_decide_eq_true_1 _). vm_compute. reflexivity.
  - apply (bool_decide_eq_true_1 _). vm_compute. reflexivity.
  - left. apply (bool_decide_eq_true_1 _). vm_compute. reflexivity.
  - reflexivity.
Defined.

Lemma drop_column_refusals_witness :
  drop_column toy_execute "degree" true (toy_world nf_fields toy_empty)
    = (Raise (ValueError "Sorting for %s depends on %s; change default sort order with set_sort() before dropping column"),
       toy_world nf_fields toy_empty).
Proof.
  apply (proj1 (drop_column_refusals toy_execute "degree" true
                  (toy_world nf_fields toy_empty))).
  apply (bool_decide_eq_true_1 _). vm_compute. reflexivity.
Defined.

(** ** Result dictionaries *)

Lemma dict_set_no_null k v (D : list (string * pyval)) :
  v <> PNone -> no_null D -> no_null (dict_set k v D).
Proof.
  intros Hv HD. induction HD as [|[k' v'] D Hkv HD IH]; cbn.
  - repeat constructor. exact Hv.
  - destruct (String.eqb k' k); constructor; assumption.
Qed.

Lemma is_none_false v : is_none v = false -> v <> PNone.
Proof. destruct v; [discriminate|..]; intros _; discriminate. Qed.

Lemma row_dict_no_null cols rec : no_null (row_dict cols rec).
Proof.
  unfold row_dict.
  assert (forall (l : list (string * pyval)) D0,
            Forall (fun kv => is_none kv.2 = false) l -> no_null D0 ->
            no_null (foldl (fun d kv => dict_set kv.1 kv.2 d) D0 l)) as Hfold.
  { induction l as [|kv l IH]; intros D0 Hl HD0; [exact HD0|].
    apply Forall_cons in Hl as [Hkv Hl]. cbn [foldl].
    apply IH; [exact Hl|]. apply dict_set_no_null; [|exact HD0].
    apply is_none_false, Hkv. }
  apply Hfold; [|constructor].
  apply Forall_forall. intros kv Hin. apply list_elem_of_filter in Hin as [H _]. exact H.
Qed.

Lemma extras_fold_no_null (l : list (string * pyval)) D0 :
  no_null D0 ->
  no_null (foldl (fun d kv => if is_none kv.2 then d else dict_set kv.1 kv.2 d) D0 l).
Proof.
  revert D0. induction l as [|kv l IH]; intros D0 HD0; [exact HD0|].
  cbn [foldl]. apply IH. destruct (is_none kv.2) eqn:Hn; [exact HD0|].
  apply dict_set_no_null; [apply is_none_false, Hn|exact HD0].
Qed.

Section ResultFacts.

Context {database : Type}.
Variable pg_execute :
  Composable -> list param -> database -> result (database * cursor).

Implicit Types w : world database.

Lemma fetch_extras_no_null extra_cols rec D0 w D w' :
  no_null D0 ->
  fetch_extras pg_execute extra_cols rec D0 w = (Ok D, w') ->
  no_null D.
Proof.
  intros HD0. unfold fetch_extras, bind, get_self, lift, ret, raise.
  destruct (extra_table (self w)); [|discriminate].
  destruct (first_col rec); [|discriminate].
  destruct (_execute pg_execute _ _ true w) as [[[|extra_rec cur]|e] w1];
    try discriminate.
  intros [= <- _]. apply extras_fold_no_null, HD0.
Qed.

Lemma yield_row_no_null sc ec off p rec w D w' :
  is_proj0 p = false -> is_projstr p = false ->
  yield_row pg_execute sc ec off p rec w = (Ok (PDict D), w') ->
  no_null D.
Proof.
  intros H0 Hs. unfold yield_row. rewrite H0, Hs. cbn [orb andb].
  unfold bind.
  destruct (is_nil ec).
  - unfold ret. destruct p; try discriminate; intros [= <- _]; apply row_dict_no_null.
  - destruct (fetch_extras pg_execute ec rec _ w) as [[D1|e] w1] eqn:Hx; [|discriminate].
    apply fetch_extras_no_null in Hx; [|apply row_dict_no_null].
    unfold ret. destruct p; try discriminate; intros [= <- _]; exact Hx.
Qed.

Lemma yield_row_dict sc ec off p rec w r w' :
  is_proj0 p = false -> is_projstr p = false ->
  yield_row pg_execute sc ec off p rec w = (Ok r, w') ->
  exists D, r = PDict D.
Proof.
  intros H0 Hs. unfold yield_row. rewrite H0, Hs. cbn [orb andb].
  unfold bind.
  destruct (is_nil ec).
  - unfold ret. destruct p; try discriminate; intros [= <- _]; eauto.
  - destruct (fetch_extras pg_execute ec rec _ w) as [[D1|e] w1]; [|discriminate].
    unfold ret. destruct p; try discriminate; intros [= <- _]; eauto.
Qed.

(** X22.  Result dictionaries hold no [None]: for a projection that asks
    for dictionaries (not 0 and not a single column name), the dictionary
    [lucky] returns and every result [_search_iterator] yields is a
    dictionary without a [None] value; a column that is NULL, in the
    search table or in the extras table, is left out. *)
Theorem result_dictionaries_omit_null p :
  is_proj0 p = false -> is_projstr p = false ->
  (forall query offset w D w',
     lucky pg_execute query p offset w = (Ok (PDict D), w') -> no_null D)
  /\ (forall cur sc ec off w res w',
        _search_iterator pg_execute cur sc ec off p w = (Ok res, w') ->
        Forall (fun r => exists D, r = PDict D /\ no_null D) res).
Proof.
  intros H0 Hs. split.
  - intros query offset w D w'. unfold lucky, bind, get_self, lift.
    destruct (_parse_projection (self w) p) as [[[sc ec] off]|e]; [|discriminate].
    destruct (_build_query (self w) query (Some 1) offset None) as [[qstr values]|e];
      [|discriminate].
    destruct (_execute pg_execute _ values true w) as [[[|rec cur]|e] w1];
      try discriminate.
    rewrite H0, Hs.
    destruct (is_nil ec); cbn [negb].
    + unfold ret. intros [= <- _]. apply row_dict_no_null.
    + destruct (fetch_extras pg_execute ec rec _ w1) as [[D1|e] w2] eqn:Hx;
        [|discriminate].
      apply fetch_extras_no_null in Hx; [|apply row_dict_no_null].
      unfold ret. destruct p; try discriminate; intros [= <- _]; exact Hx.
  - intros cur sc ec off. induction cur as [|rec cur IH]; intros w res w'.
    + intros [= <- _]. constructor.
    + cbn [_search_iterator]. unfold bind at 1.
      destruct (yield_row pg_execute sc ec off p rec w) as [[r|e] w1] eqn:Hrow;
        [|discriminate].
      unfold bind at 1.
      destruct (_search_iterator pg_execute cur sc ec off p w1) as [[rs|e] w2] eqn:Hrest;
        [|discriminate].
      intros [= <- _]. constructor; [|exact (IH _ _ _ Hrest)].
      destruct (yield_row_dict _ _ _ _ _ _ _ _ H0 Hs Hrow) as [D ->].
      exists D. split; [reflexivity|].
      exact (yield_row_no_null _ _ _ _ _ _ _ _ H0 Hs Hrow).
Qed.

End ResultFacts.

Lemma result_dictionaries_omit_null_witness :
  no_null [("lmfdb_label", PStr "11.a1"); ("conductor", PInt 11); ("rank", PInt 0)].
Proof.
  refine (proj1 (result_dictionaries_omit_null toy_execute Proj1 eq_refl eq_refl)
                [("id", PInt 1)] 0 (toy_world curves toy_curves) _ _ _).
  vm_compute. reflexivity.
Defined.

(** ** Buckets *)

Lemma windows_cons (a b c d : option Z) (l : list (option Z)) :
  windows (a :: b :: c :: d :: l) = (a, b, c, d) :: windows (b :: c :: d :: l).
Proof.
  unfold windows. cbn [length].
  replace (S (S (S (S (length l)))) - 3)%nat with (S (length l)) by lia.
  replace (S (S (S (S (length l)))) - 2)%nat with (S (S (length l))) by lia.
  replace (S (S (S (S (length l)))) - 1)%nat with (S (S (S (length l)))) by lia.
  replace (S (S (S (length l))) - 3)%nat with (length l) by lia.
  replace (S (S (S (length l))) - 2)%nat with (S (length l)) by lia.
  replace (S (S (S (length l))) - 1)%nat with (S (S (length l))) by lia.
  cbn [take drop zip zip_with]. reflexivity.
Qed.

Lemma windows_three (a b c : option Z) : windows [a; b; c] = [].
Proof. reflexivity. Qed.

(** The windows over a list of break points, one step at a time. *)
Lemma windows_step (a : option Z) (b c : Z) (tl : list Z) :
  windows (a :: (Some <$> (b :: c :: tl)) ++ [None])
  = (a, Some b, Some c, head tl)
      :: windows (Some b :: (Some <$> (c :: tl)) ++ [None]).
Proof.
  destruct tl as [|d tl]; cbn [fmap list_fmap app head].
  - rewrite windows_cons. reflexivity.
  - rewrite windows_cons. reflexivity.
Qed.

Lemma bucket_holds_point (col : string) (iu : bool) (a d : option Z) (b x : Z) :
  bucket_holds col x (bucket_of col iu (a, Some b, Some b, d)) = (x =? b).
Proof.
  unfold bucket_of. rewrite bool_decide_eq_true_2 by reflexivity.
  cbn [bucket_holds py_of_bound]. rewrite String.eqb_refl. reflexivity.
Qed.

Lemma bucket_holds_upper (col : string) (a d : option Z) (b c x : Z) :
  b <> c ->
  bucket_holds col x (bucket_of col true (a, Some b, Some c, d))
  = (b <? x) && (if bool_decide (Some c = d) then x <? c else x <=? c).
Proof.
  intros Hbc. unfold bucket_of.
  rewrite bool_decide_eq_false_2 by congruence.
  cbn [bucket_holds py_of_bound]. rewrite String.eqb_refl.
  destruct (bool_decide (Some c = d)); cbn; rewrite ?andb_true_r; reflexivity.
Qed.

Lemma buckets_holding_cons (col : string) (x : Z) (b : pyval) (bs : list pyval) :
  buckets_holding col x (b :: bs)
  = ((if bucket_holds col x b then 1 else 0) + buckets_holding col x bs)%nat.
Proof.
  unfold buckets_holding. cbn [List.filter].
  destruct (bucket_holds col x b); reflexivity.
Qed.

Lemma last_cons_default (tl : list Z) :
  forall b c, List.last (c :: tl) b = List.last tl c.
Proof.
  induction tl as [|d tl IH]; intros b c; [reflexivity|].
  change (List.last (c :: d :: tl) b) with (List.last (d :: tl) b).
  rewrite (IH b d), (IH c d). reflexivity.
Qed.

Lemma last_ge_head (l : list Z) :
  forall b, Sorted Z.le (b :: l) -> b <= List.last l b.
Proof.
  induction l as [|c l IH]; intros b Hs; [cbn; lia|].
  inversion Hs as [|? ? Hs' Hhd]; subst. inversion Hhd; subst.
  specialize (IH c Hs'). rewrite last_cons_default. lia.
Qed.

Ltac order_cases :=
  repeat match goal with
    | |- context [?a <? ?b] => destruct (Z.ltb_spec a b)
    | |- context [?a <=? ?b] => destruct (Z.leb_spec a b)
    | |- context [?a =? ?b] => destruct (Z.eqb_spec a b)
    end;
  cbn; try reflexivity; try lia.

(** With [include_upper], the buckets over sorted break points in which none
    comes three times in a row hold [x] once when it lies above the first
    and not above the last, once when it is the first and that is given
    twice, and otherwise not at all. *)
Lemma buckets_holding_sorted (col : string) (x : Z) (l : list Z) :
  forall (a : option Z) (b : Z),
    Sorted Z.le (b :: l) -> no_triple (b :: l) = true ->
    buckets_holding col x
      (bucket_of col true <$> windows (a :: (Some <$> (b :: l)) ++ [None]))
    = if (b <? x) && (x <=? List.last l b) then 1%nat
      else if (x =? b) && starts_with b l then 1%nat else 0%nat.
Proof.
  induction l as [|c tl IH]; intros a b Hs Hn.
  - cbn [fmap list_fmap app]. rewrite windows_three. cbn.
    rewrite andb_false_r. order_cases.
  - inversion Hs as [|? ? Hs' Hhd]; subst. inversion Hhd as [|? ? Hbc]; subst.
    rewrite windows_step. rewrite fmap_cons, buckets_holding_cons.
    assert (no_triple (c :: tl) = true) as Hn'.
    { cbn [no_triple] in Hn. destruct tl as [|d tl]; [reflexivity|].
      apply andb_true_iff in Hn as [_ Hn]. exact Hn. }
    rewrite (IH (Some b) c Hs' Hn').
    pose proof (last_ge_head tl c Hs') as Hlast.
    pose proof (last_cons_default tl b c) as Hl.
    rewrite Hl. cbn [starts_with].
    destruct (Z.eq_dec b c) as [->|Hne].
    + rewrite bucket_holds_point.
      assert (starts_with c tl = false) as ->.
      { destruct tl as [|d tl]; [reflexivity|]. cbn [no_triple] in Hn. cbn [starts_with].
        apply andb_true_iff in Hn as [Hn _]. rewrite Z.eqb_refl in Hn. cbn in Hn.
        destruct (c =? d); [discriminate|reflexivity]. }
      rewrite Z.eqb_refl, andb_false_r, andb_true_r.
      order_cases.
    + rewrite (bucket_holds_upper col a (head tl) b c x Hne).
      assert (bool_decide (Some c = head tl) = starts_with c tl) as ->.
      { destruct tl as [|d tl]; cbn [head starts_with].
        - apply bool_decide_eq_false_2. discriminate.
        - destruct (c =? d) eqn:E.
          + apply Z.eqb_eq in E. apply bool_decide_eq_true_2. f_equal. exact E.
          + apply Z.eqb_neq in E. apply bool_decide_eq_false_2. intros [= ->]. apply E. reflexivity. }
      assert ((b =? c) = false) as -> by (apply Z.eqb_neq; exact Hne).
      rewrite andb_false_r.
      destruct (starts_with c tl); order_cases.
Qed.

Lemma occurrences_cons (v d : Z) (l : list Z) :
  occurrences v (d :: l) = ((if (v =? d)%Z then 1 else 0) + occurrences v l)%nat.
Proof. unfold occurrences. cbn [List.filter]. destruct (v =? d); reflexivity. Qed.

Lemma occurrences_Permutation (v : Z) (l1 l2 : list Z) :
  l1 ≡ₚ l2 -> occurrences v l1 = occurrences v l2.
Proof.
  induction 1 as [|d l1 l2 _ IH|d e l|l1 l2 l3 _ IH1 _ IH2].
  - reflexivity.
  - rewrite !occurrences_cons, IH. reflexivity.
  - rewrite !occurrences_cons. lia.
  - congruence.
Qed.

Lemma occurrences_absent (v : Z) (l : list Z) :
  (forall d, d ∈ l -> d <> v) -> occurrences v l = 0%nat.
Proof.
  induction l as [|d l IH]; intros H; [reflexivity|].
  rewrite occurrences_cons, IH.
  - assert ((v =? d) = false) as ->; [|reflexivity].
    apply Z.eqb_neq. intros ->. apply (H d); [apply list_elem_of_here|reflexivity].
  - intros e He. apply H. apply list_elem_of_further. exact He.
Qed.

Lemma no_triple_of_occurrences (l : list Z) :
  (forall v, (occurrences v l <= 2)%nat) -> no_triple l = true.
Proof.
  induction l as [|b tl IH]; intros H; [reflexivity|].
  assert (no_triple tl = true) as Htl.
  { apply IH. intros v. specialize (H v). rewrite occurrences_cons in H. lia. }
  cbn [no_triple]. destruct tl as [|c [|d tl]]; try reflexivity.
  rewrite Htl, andb_true_r.
  destruct (Z.eqb_spec b c) as [->|]; [|reflexivity].
  destruct (Z.eqb_spec c d) as [->|]; [|reflexivity].
  specialize (H d). rewrite !occurrences_cons, Z.eqb_refl in H. lia.
Qed.

Lemma sorted_below_last (l : list Z) :
  forall b d, Sorted Z.le (b :: l) -> d ∈ b :: l -> d <= List.last l b.
Proof.
  induction l as [|c l IH]; intros b d Hs Hd.
  - apply list_elem_of_singleton in Hd as ->. cbn. lia.
  - rewrite last_cons_default.
    inversion Hs as [|? ? Hs' Hhd]; subst. inversion Hhd; subst.
    apply elem_of_cons in Hd as [->|Hd].
    + pose proof (last_ge_head l c Hs'). lia.
    + apply IH; assumption.
Qed.

Lemma sorted_above_head (l : list Z) (b d : Z) :
  Sorted Z.le (b :: l) -> d ∈ b :: l -> b <= d.
Proof.
  intros Hs Hd. apply Sorted_StronglySorted in Hs; [|intros ? ? ?; lia].
  inversion Hs as [|? ? _ Hall]; subst.
  apply elem_of_cons in Hd as [->|Hd]; [lia|].
  rewrite List.Forall_forall in Hall. apply Hall. apply list_elem_of_In. exact Hd.
Qed.

(** X23. [_split_buckets] with [include_upper]: for two or more break
    points of a column, none given more than twice, the buckets formed
    partition the values above the least break point and up to the
    greatest: such a value lies in exactly one bucket, a value above all
    break points lies in none, and a value below or equal to all of them
    lies in one bucket when it is a break point given twice and in none
    otherwise. *)
Theorem split_buckets_partition (col : string) (divisions : list Z) :
  (2 <= length divisions)%nat ->
  (forall v, (occurrences v divisions <= 2)%nat) ->
  exists bs,
    expand_divisions col divisions true = Ok bs /\
    forall x,
      ((exists lo hi, lo ∈ divisions /\ hi ∈ divisions /\ lo < x <= hi) ->
         buckets_holding col x bs = 1%nat) /\
      ((forall d, d ∈ divisions -> d < x) -> buckets_holding col x bs = 0%nat) /\
      ((forall d, d ∈ divisions -> x <= d) ->
         buckets_holding col x bs = (occurrences x divisions - 1)%nat).
Proof.
  intros Hlen Hocc. unfold expand_divisions.
  assert ((length divisions <? 2)%nat = false) as -> by (apply Nat.ltb_ge; exact Hlen).
  eexists. split; [reflexivity|]. intros x.
  pose proof (merge_sort_Permutation Z.le divisions) as Hperm.
  assert (Sorted Z.le (merge_sort Z.le divisions)) as Hsorted
    by (apply (Sorted_merge_sort Z.le)).
  assert (forall v, (occurrences v (merge_sort Z.le divisions) <= 2)%nat) as Hocc'
    by (intros v; rewrite (occurrences_Permutation v _ _ Hperm); apply Hocc).
  assert (forall d, d ∈ divisions <-> d ∈ merge_sort Z.le divisions) as Hin
    by (intros d; rewrite Hperm; reflexivity).
  rewrite <- (occurrences_Permutation x _ _ Hperm).
  destruct (merge_sort Z.le divisions) as [|b l] eqn:Es.
  { apply Permutation_length in Hperm. cbn in Hperm. lia. }
  change ([None] ++ (Some <$> b :: l) ++ [None])
    with (None :: (Some <$> b :: l) ++ [None]).
  rewrite (buckets_holding_sorted col x l None b Hsorted (no_triple_of_occurrences _ Hocc')).
  pose proof (fun d H => sorted_above_head l b d Hsorted H) as Hmin.
  pose proof (fun d H => sorted_below_last l b d Hsorted H) as Hmax.
  assert (List.last l b ∈ b :: l) as Hlast.
  { clear. revert b. induction l as [|c l IH]; intros b; [apply list_elem_of_here|].
    rewrite last_cons_default. apply list_elem_of_further. apply IH. }
  split; [|split].
  - intros (lo & hi & Hlo & Hhi & Hx).
    apply Hin in Hlo, Hhi. apply Hmin in Hlo. apply Hmax in Hhi.
    order_cases.
  - intros Habove.
    pose proof (Habove _ (proj2 (Hin _) Hlast)).
    pose proof (Habove b (proj2 (Hin _) (list_elem_of_here _ _))).
    order_cases.
  - intros Hbelow.
    pose proof (Hbelow b (proj2 (Hin _) (list_elem_of_here _ _))) as Hb.
    assert ((b <? x) = false) as -> by (apply Z.ltb_ge; exact Hb).
    cbn [andb]. destruct (Z.eqb_spec x b) as [->|Hne]; cbn [andb].
    + rewrite occurrences_cons, Z.eqb_refl.
      destruct l as [|c l']; cbn [starts_with]; [reflexivity|].
      destruct (Z.eqb_spec b c) as [<-|Hbc].
      * specialize (Hocc' b). rewrite !occurrences_cons, Z.eqb_refl in Hocc'.
        rewrite occurrences_cons, Z.eqb_refl. lia.
      * rewrite occurrences_absent; [reflexivity|].
        intros d Hd ->.
        inversion Hsorted as [|? ? Hs' _]; subst.
        pose proof (sorted_above_head l' c b Hs' Hd).
        pose proof (Hmin c (list_elem_of_further _ _ _ (list_elem_of_here _ _))). lia.
    + rewrite occurrences_absent; [reflexivity|].
      intros d Hd ->. apply Hmin in Hd. lia.
Qed.

Lemma split_buckets_partition_witness :
  expand_divisions "degree" [10; 1; 5; 5] true
  = Ok [PDict [("degree", PDict [("$gt", PInt 1); ("$lt", PInt 5)])];
        PDict [("degree", PInt 5)];
        PDict [("degree", PDict [("$gt", PInt 5); ("$lte", PInt 10)])]]
  /\ exists bs,
       expand_divisions "degree" [10; 1; 5; 5] true = Ok bs /\
       forall x,
         ((exists lo hi, lo ∈ [10; 1; 5; 5] /\ hi ∈ [10; 1; 5; 5] /\ lo < x <= hi) ->
            buckets_holding "degree" x bs = 1%nat) /\
         ((forall d, d ∈ [10; 1; 5; 5] -> d < x) -> buckets_holding "degree" x bs = 0%nat) /\
         ((forall d, d ∈ [10; 1; 5; 5] -> x <= d) ->
            buckets_holding "degree" x bs = (occurrences x [10; 1; 5; 5]%Z - 1)%nat).
Proof.
  split; [vm_compute; reflexivity|].
  apply (split_buckets_partition "degree" [10; 1; 5; 5]).
  - cbn. lia.
  - intros v. unfold occurrences. cbn [List.filter].
    destruct (Z.eqb_spec v 10), (Z.eqb_spec v 1), (Z.eqb_spec v 5); cbn; lia.
Defined.
